(** * pokemon-mcp-stdio: the chat client and the Pokémon tool server

    A shallow embedding of

      - [src/client/main.py]: [PokeBot.process_query] and [PokeBot.chat_loop],
      - [src/web-client/pokemon-mcp-server/main.py]: [get_pokemon_abilities]
        and [get_pokemon_stats],

    followed by the properties of the specification that can be stated on them.

    Conventions of the embedding.

      - A Python [str] is a Rocq [string]. [str.lower] and [str.strip]
        depend on the Unicode tables of the interpreter: they are functions
        of the environment, [str_lower] and [str_strip], and the examples
        use what they do on ASCII text.
      - [str(n)] for an integer [n] raises beyond the number of digits that
        the interpreter converts ([sys.get_int_max_str_digits()], also a
        value of the environment).
      - A Python exception is a value [exn]: its class and the text [str(e)].
        A computation that may raise returns [exn + A].
      - Everything the programs do to the outside (console, LLM endpoint, tool
        session, HTTP) is appended to a trace of events; what the outside
        answers is a function of the trace so far, so that any deterministic
        environment, with or without memory, is an instance.
      - JSON numbers are integers; the PokéAPI fields read by the server
        ([id], [base_stat], [effort], [slot]) are. *)

From Stdlib Require Import ZArith List String Ascii Bool Lia DecimalString.
From Stdlib Require Import QArith Permutation.
Import ListNotations.
Local Open Scope string_scope.
Local Open Scope list_scope.
Local Open Scope Z_scope.
Set Warnings "-register-all".

(* ===================================================================== *)
(** ** Python values shared by the two programs *)
(* ===================================================================== *)

Module Py.

(** *** Exceptions *)

(** The exception classes the two files name or can meet, with the classes
    of [requests.exceptions] they derive from. *)
Inductive ExcClass : Type :=
| BaseException
| KeyboardInterrupt
| Exception
| EOFError
| ValueError
| KeyError
| TypeError
| AttributeError
| JSONDecodeError          (* json.JSONDecodeError, a ValueError *)
| RequestException         (* requests.exceptions.RequestException *)
| HTTPError
| ConnectionError
| Timeout
| ConnectTimeout           (* both a ConnectionError and a Timeout *)
| ReadTimeout
| InvalidJSONError         (* raised by Response.json() *)
| MissingSchema
| APIError                 (* the LLM SDK's error *)
| McpError.                (* the tool session's error *)

Definition ExcClass_eqb (a b : ExcClass) : bool :=
  match a, b with
  | BaseException, BaseException | KeyboardInterrupt, KeyboardInterrupt
  | Exception, Exception | EOFError, EOFError | ValueError, ValueError
  | KeyError, KeyError | TypeError, TypeError | AttributeError, AttributeError
  | JSONDecodeError, JSONDecodeError | RequestException, RequestException
  | HTTPError, HTTPError | ConnectionError, ConnectionError | Timeout, Timeout
  | ConnectTimeout, ConnectTimeout | ReadTimeout, ReadTimeout
  | InvalidJSONError, InvalidJSONError | MissingSchema, MissingSchema
  | APIError, APIError | McpError, McpError => true
  | _, _ => false
  end.

(** Direct base classes. *)
Definition bases (c : ExcClass) : list ExcClass :=
  match c with
  | BaseException => []
  | KeyboardInterrupt => [BaseException]
  | Exception => [BaseException]
  | EOFError | ValueError | TypeError | AttributeError
  | APIError | McpError => [Exception]
  | KeyError => [Exception]                (* through LookupError *)
  | JSONDecodeError => [ValueError]
  | RequestException => [Exception]        (* through OSError *)
  | HTTPError | ConnectionError | Timeout
  | InvalidJSONError | MissingSchema => [RequestException]
  | ConnectTimeout => [ConnectionError; Timeout]
  | ReadTimeout => [Timeout]
  end.

Fixpoint issubclass_upto (depth : nat) (c d : ExcClass) : bool :=
  ExcClass_eqb c d ||
  match depth with
  | O => false
  | S depth' => existsb (fun b => issubclass_upto depth' b d) (bases c)
  end.

(** The hierarchy above is four levels deep. *)
Definition issubclass (c d : ExcClass) : bool := issubclass_upto 4 c d.

Record exn : Type := mk_exn { exc_class : ExcClass; exc_str : string }.

(** [isinstance(e, cls)], the test of an [except cls] clause. *)
Definition isinstance (e : exn) (cls : ExcClass) : bool :=
  issubclass (exc_class e) cls.

(** *** Computations: a trace of type [St], and an exception or a value *)

Definition M (St A : Type) : Type := St -> (exn + A) * St.

Definition ret {St A} (a : A) : M St A := fun s => (inr a, s).

Definition raise {St A} (e : exn) : M St A := fun s => (inl e, s).

Definition bind {St A B} (m : M St A) (k : A -> M St B) : M St B :=
  fun s => match m s with
           | (inr a, s') => k a s'
           | (inl e, s') => (inl e, s')
           end.

(** A pure step that may raise. *)
Definition lift {St A} (r : exn + A) : M St A := fun s => (r, s).

Notation "x <- c1 ;; c2" := (bind c1 (fun x => c2))
  (at level 61, c1 at next level, right associativity).
Notation "c1 ;; c2" := (bind c1 (fun _ => c2))
  (at level 61, right associativity).

(** The same for a step without trace. *)
Definition ebind {A B} (r : exn + A) (k : A -> exn + B) : exn + B :=
  match r with
  | inr a => k a
  | inl e => inl e
  end.

Notation "'let?' x ':=' c1 'in' c2" := (ebind c1 (fun x => c2))
  (at level 10, x name, c1 at level 100, c2 at level 200).

(** The first [except] clause whose class the exception is an instance of. *)
Fixpoint find_clause {H : Type} (e : exn) (clauses : list (ExcClass * H))
    : option H :=
  match clauses with
  | [] => None
  | (cls, h) :: rest => if isinstance e cls then Some h else find_clause e rest
  end.

(** [try: body  except cls1: h1  except cls2: h2 ...]: the clauses are tried
    in order, an exception that matches none passes through, and what a
    handler raises is not caught by the clauses after it. *)
Definition try_except {St A} (body : M St A)
    (clauses : list (ExcClass * (exn -> M St A))) : M St A :=
  fun s => match body s with
           | (inr a, s') => (inr a, s')
           | (inl e, s') =>
               match find_clause e clauses with
               | Some handler => handler e s'
               | None => (inl e, s')
               end
           end.

(** [for x in xs: acc = body(acc, x)], stopped by the first exception. *)
Fixpoint for_each {St A X} (xs : list X) (body : A -> X -> M St A) (acc : A)
    : M St A :=
  match xs with
  | [] => ret acc
  | x :: xs' => bind (body acc x) (fun acc' => for_each xs' body acc')
  end.

(** *** Strings *)

Definition nl : string := String (ascii_of_nat 10) EmptyString.

(** [str.lower] and [str.strip] go by the Unicode tables of the
    interpreter (white space such as U+00A0 and U+2003 is stripped, and
    letters outside ASCII have a lower case). These tables are not
    reproduced here: the two programs take both methods from their
    environment, as [str_lower] and [str_strip]. What follows is what the
    methods do on ASCII strings, for the environments of the examples. *)

(** [str.isspace] on one ASCII character: TAB, LF, VT, FF, CR, the four
    separators FS GS RS US, and the space. *)
Definition ascii_space (c : ascii) : bool :=
  let n := nat_of_ascii c in
  ((9 <=? n) && (n <=? 13) || (28 <=? n) && (n <=? 32))%nat.

Definition lower_ascii (c : ascii) : ascii :=
  let n := nat_of_ascii c in
  if ((65 <=? n) && (n <=? 90))%nat then ascii_of_nat (n + 32) else c.

(** [s.lower()] for an ASCII string. *)
Fixpoint ascii_lower (s : string) : string :=
  match s with
  | EmptyString => EmptyString
  | String c s' => String (lower_ascii c) (ascii_lower s')
  end.

Fixpoint ascii_lstrip (s : string) : string :=
  match s with
  | EmptyString => EmptyString
  | String c s' => if ascii_space c then ascii_lstrip s' else s
  end.

Fixpoint ascii_rstrip (s : string) : string :=
  match s with
  | EmptyString => EmptyString
  | String c s' =>
      match ascii_rstrip s' with
      | EmptyString => if ascii_space c then EmptyString else String c EmptyString
      | r => String c r
      end
  end.

(** [s.strip()] for an ASCII string. *)
Definition ascii_strip (s : string) : string := ascii_rstrip (ascii_lstrip s).

(** [s.replace(old, new)] for a one-character [old]. *)
Fixpoint replace_char (old : ascii) (new : string) (s : string) : string :=
  match s with
  | EmptyString => EmptyString
  | String c s' =>
      if Ascii.eqb c old then new ++ replace_char old new s'
      else String c (replace_char old new s')
  end.

(** [sep.join(parts)] *)
Definition join (sep : string) (parts : list string) : string :=
  String.concat sep parts.

(** The decimal form of an integer. *)
Definition str_int (z : Z) : string := NilZero.string_of_int (Z.to_int z).

(** [str(n)] for an integer, as CPython does it: a [ValueError] for an
    integer of more than [limit] decimal digits, the sign not counted.
    [limit] is [sys.get_int_max_str_digits()]: 4300 unless it was set,
    0 for no limit. *)
Definition str_int_limited (limit : Z) (z : Z) : exn + string :=
  if ((0 <? limit) && (10 ^ limit <=? Z.abs z))%Z then
    inl (mk_exn ValueError
           ("Exceeds the limit (" ++ str_int limit
              ++ " digits) for integer string conversion; "
              ++ "use sys.set_int_max_str_digits() to increase the limit"))
  else inr (str_int z).

Fixpoint contains_char (c : ascii) (s : string) : bool :=
  match s with
  | EmptyString => false
  | String d s' => Ascii.eqb c d || contains_char c s'
  end.

Definition hex_digit (n : nat) : ascii :=
  if (n <? 10)%nat then ascii_of_nat (48 + n) else ascii_of_nat (87 + n).

Definition quote1 : ascii := ascii_of_nat 39.
Definition quote2 : ascii := ascii_of_nat 34.
Definition backslash : ascii := ascii_of_nat 92.

Fixpoint repr_body (quote : ascii) (s : string) : string :=
  match s with
  | EmptyString => EmptyString
  | String c s' =>
      let n := nat_of_ascii c in
      let rest := repr_body quote s' in
      if Ascii.eqb c backslash || Ascii.eqb c quote then
        String backslash (String c rest)
      else if (n =? 9)%nat then String backslash (String "t" rest)
      else if (n =? 10)%nat then String backslash (String "n" rest)
      else if (n =? 13)%nat then String backslash (String "r" rest)
      else if (n <? 32)%nat || (n =? 127)%nat then
        String backslash
          (String "x" (String (hex_digit (n / 16))
                         (String (hex_digit (n mod 16)) rest)))
      else String c rest
  end.

(** [repr(s)] for a string: single quotes, unless the string has a single
    quote and no double quote. *)
Definition repr_str (s : string) : string :=
  let quote :=
    if contains_char quote1 s && negb (contains_char quote2 s)
    then quote2 else quote1 in
  String quote (repr_body quote s ++ String quote EmptyString).

(** *** JSON values as Python objects *)

Inductive Json : Type :=
| JNull
| JBool (b : bool)
| JInt (z : Z)
| JStr (s : string)
| JArr (items : list Json)
| JObj (fields : list (string * Json)).   (* a dict, in insertion order *)

(** [type(v).__name__] *)
Definition type_name (v : Json) : string :=
  match v with
  | JNull => "NoneType"
  | JBool _ => "bool"
  | JInt _ => "int"
  | JStr _ => "str"
  | JArr _ => "list"
  | JObj _ => "dict"
  end.

Fixpoint repr (v : Json) : string :=
  match v with
  | JNull => "None"
  | JBool true => "True"
  | JBool false => "False"
  | JInt z => str_int z
  | JStr s => repr_str s
  | JArr items => "[" ++ join ", " (map repr items) ++ "]"
  | JObj fields =>
      "{" ++ join ", "
               (map (fun kv => let '(k, x) := kv in
                               (repr_str k ++ ": " ++ repr x)%string)
                  fields) ++ "}"
  end.

(** [str(v)], as an f-string formats a value. *)
Definition str (v : Json) : string :=
  match v with
  | JStr s => s
  | _ => repr v
  end.

(** [str(v)] where the value may be an integer of any size, as in the
    f-string that formats the argument of a tool. *)
Definition str_limited (limit : Z) (v : Json) : exn + string :=
  match v with
  | JInt z => str_int_limited limit z
  | _ => inr (str v)
  end.

(** The truth value of [v]. *)
Definition truthy (v : Json) : bool :=
  match v with
  | JNull | JBool false | JStr EmptyString | JArr [] | JObj [] => false
  | JInt z => negb (z =? 0)
  | _ => true
  end.

Fixpoint lookup (key : string) (fields : list (string * Json)) : option Json :=
  match fields with
  | [] => None
  | (k, x) :: rest => if (k =? key)%string then Some x else lookup key rest
  end.

(** [v[key]] for a string key. *)
Definition getitem (v : Json) (key : string) : exn + Json :=
  match v with
  | JObj fields =>
      match lookup key fields with
      | Some x => inr x
      | None => inl (mk_exn KeyError (repr_str key))
      end
  | JArr _ =>
      inl (mk_exn TypeError "list indices must be integers or slices, not str")
  | JStr _ =>
      inl (mk_exn TypeError "string indices must be integers, not 'str'")
  | _ =>
      inl (mk_exn TypeError
             ("'" ++ type_name v ++ "' object is not subscriptable"))
  end.

(** [v.get(key, default)] *)
Definition get_default (v : Json) (key : string) (default : Json)
    : exn + Json :=
  match v with
  | JObj fields =>
      match lookup key fields with
      | Some x => inr x
      | None => inr default
      end
  | _ =>
      inl (mk_exn AttributeError
             ("'" ++ type_name v ++ "' object has no attribute 'get'"))
  end.

Fixpoint chars (s : string) : list Json :=
  match s with
  | EmptyString => []
  | String c s' => JStr (String c EmptyString) :: chars s'
  end.

(** What [for x in v] runs over: the elements of a list, the keys of a
    dict, the characters of a string. *)
Definition iterate (v : Json) : exn + list Json :=
  match v with
  | JArr items => inr items
  | JObj fields => inr (map (fun kv => JStr (fst kv)) fields)
  | JStr s => inr (chars s)
  | _ =>
      inl (mk_exn TypeError ("'" ++ type_name v ++ "' object is not iterable"))
  end.

(** [v == s] for a string literal [s]. *)
Definition eq_str (v : Json) (s : string) : bool :=
  match v with
  | JStr s' => (s' =? s)%string
  | _ => false
  end.

(** An [int] or a [bool] as an integer. *)
Definition as_int (v : Json) : option Z :=
  match v with
  | JInt z => Some z
  | JBool true => Some 1
  | JBool false => Some 0
  | _ => None
  end.

(** [total op v] for an [int] total, [op] being [+] or [+=]. *)
Definition int_add (op : string) (total : Z) (v : Json) : exn + Z :=
  match as_int v with
  | Some z => inr (total + z)
  | None =>
      inl (mk_exn TypeError
             ("unsupported operand type(s) for " ++ op ++ ": 'int' and '"
                ++ type_name v ++ "'"))
  end.

(** [sum(values)]: the values added, left to right, to 0. *)
Fixpoint sum_from (total : Z) (values : list Json) : exn + Z :=
  match values with
  | [] => inr total
  | v :: rest => ebind (int_add "+" total v) (fun t => sum_from t rest)
  end.

Definition sum (values : list Json) : exn + Z := sum_from 0 values.

(** Equality of two dict keys: [1 == True], [0 == False]. *)
Definition key_eqb (a b : Json) : bool :=
  match a, b with
  | JNull, JNull => true
  | JStr s, JStr t => (s =? t)%string
  | _, _ =>
      match as_int a, as_int b with
      | Some x, Some y => x =? y
      | _, _ => false
      end
  end.

Fixpoint dict_put (k v : Json) (d : list (Json * Json)) : list (Json * Json) :=
  match d with
  | [] => [(k, v)]
  | (k', v') :: rest =>
      if key_eqb k' k then (k', v) :: rest else (k', v') :: dict_put k v rest
  end.

(** [d[k] = v] on a dict with keys of any hashable type: a key already
    there keeps its place, a list or a dict is no key. *)
Definition dict_set (d : list (Json * Json)) (k v : Json)
    : exn + list (Json * Json) :=
  match k with
  | JArr _ | JObj _ =>
      inl (mk_exn TypeError ("unhashable type: '" ++ type_name k ++ "'"))
  | _ => inr (dict_put k v d)
  end.

(** [d.values()] *)
Definition values (d : list (Json * Json)) : list Json := map snd d.

(** No two keys of the list are equal as dict keys. *)
Fixpoint distinct_keys (keys : list Json) : bool :=
  match keys with
  | [] => true
  | k :: rest => negb (existsb (key_eqb k) rest) && distinct_keys rest
  end.

End Py.

(* ===================================================================== *)
(** ** The chat client, [src/client/main.py] *)
(* ===================================================================== *)

Module Client.
Import Py.

(** *** Objects of the LLM SDK and of the tool session *)

(** [tool_call.function]: the name and the arguments, still serialized. *)
Record Function : Type := mk_Function {
  fn_name : string;
  fn_arguments : string
}.

Record ToolCall : Type := mk_ToolCall {
  tc_id : string;
  tc_function : Function
}.

(** [response.choices[0].message]: [content] and [tool_calls] may be [None]. *)
Record ChatCompletionMessage : Type := mk_ChatCompletionMessage {
  cm_content : option string;
  cm_tool_calls : option (list ToolCall)
}.

(** An item of [result.content]; only a text item has the attribute [text]. *)
Inductive ContentItem : Type :=
| TextContent (text : string)
| ImageContent (data mimeType : string)
| EmbeddedResource (uri : string).

(** [result.content] as the loop meets it: a list of items, or a string. *)
Inductive ResultContent : Type :=
| ContentList (items : list ContentItem)
| ContentStr (s : string).

Record CallToolResult : Type := mk_CallToolResult {
  content : ResultContent;
  isError : bool
}.

(** A tool as [session.list_tools()] describes it. *)
Record Tool : Type := mk_Tool {
  tool_name : string;
  tool_description : option string;
  tool_inputSchema : Json
}.

(** [{"type": "function", "function": {"name", "description", "parameters"}}] *)
Record ToolSchema : Type := mk_ToolSchema {
  ts_name : string;
  ts_description : option string;
  ts_parameters : Json
}.

(** The elements of the list [messages] and of [result_messages]. *)
Inductive Message : Type :=
| MsgUser (content : string)
    (* {"role": "user", "content": query} *)
| MsgResponse (m : ChatCompletionMessage)
    (* response_message, the SDK object appended as it is *)
| MsgTool (tool_call_id name : string) (content : string)
    (* {"tool_call_id", "role": "tool", "name", "content"} *)
| MsgAssistant (content : option string).
    (* {"role": "assistant", "content": ...} *)

(** *** The outside world *)

Inductive Event : Type :=
| EvPrint (text : string)
| EvInput (prompt : string)
| EvCompletion (model : option string) (messages : list Message)
    (tools : list ToolSchema)
| EvCallTool (name : string) (arguments : Json).

Definition Trace : Type := list Event.

(** What the console, the LLM endpoint, the tool session and [json.loads]
    answer; the first three may depend on everything that happened before.
    [str_strip] and [str_lower] are [str.strip] and [str.lower]. *)
Record Env : Type := mk_Env {
  env_input : Trace -> exn + string;
  env_create : Trace -> option string -> list Message -> list ToolSchema ->
               exn + ChatCompletionMessage;
  env_call_tool : Trace -> string -> Json -> exn + CallToolResult;
  json_loads : string -> exn + Json;
  str_strip : string -> string;
  str_lower : string -> string
}.

(** The fields of [PokeBot] that [process_query] reads, with the value of
    the environment variable GROQ_LLM. *)
Record PokeBot : Type := mk_PokeBot {
  llm_model : option string;
  available_tools : list ToolSchema
}.

(** The list comprehension of [connect_and_run_server]. *)
Definition to_available_tools (tools : list Tool) : list ToolSchema :=
  map (fun tool => {| ts_name := tool_name tool;
                      ts_description := tool_description tool;
                      ts_parameters := tool_inputSchema tool |}) tools.

(** *** [process_query] *)

(** The frame of one call of [process_query]: its list [messages], which is
    appended to in place and handed to the endpoint twice, and the trace. *)
Record Frame : Type := mk_Frame {
  messages : list Message;
  trace : Trace
}.

Definition emit (e : Event) : M Frame unit :=
  fun fr => (inr tt, {| messages := messages fr; trace := trace fr ++ [e] |}).

Definition print (text : string) : M Frame unit := emit (EvPrint text).

Definition set_messages (ms : list Message) : M Frame unit :=
  fun fr => (inr tt, {| messages := ms; trace := trace fr |}).

(** [messages.append(m)] *)
Definition messages_append (m : Message) : M Frame unit :=
  fun fr => (inr tt, {| messages := messages fr ++ [m]; trace := trace fr |}).

Section WithEnv.

Variable env : Env.
Variable self : PokeBot.

(** [self.llm.chat.completions.create(model=..., messages=messages,
    tools=self.available_tools)] followed by [.choices[0].message]. *)
Definition completions_create : M Frame ChatCompletionMessage :=
  fun fr =>
    let request := EvCompletion (llm_model self) (messages fr)
                     (available_tools self) in
    (env_create env (trace fr) (llm_model self) (messages fr)
       (available_tools self),
     {| messages := messages fr; trace := trace fr ++ [request] |}).

(** [await self.session.call_tool(name, arguments=args)] *)
Definition session_call_tool (name : string) (args : Json)
    : M Frame CallToolResult :=
  fun fr =>
    (env_call_tool env (trace fr) name args,
     {| messages := messages fr; trace := trace fr ++ [EvCallTool name args] |}).

(** [item.text] *)
Definition item_text (item : ContentItem) : exn + string :=
  match item with
  | TextContent text => inr text
  | ImageContent _ _ =>
      inl (mk_exn AttributeError
             "'ImageContent' object has no attribute 'text'")
  | EmbeddedResource _ =>
      inl (mk_exn AttributeError
             "'EmbeddedResource' object has no attribute 'text'")
  end.

(** The generator [str(item.text) for item in result_content], consumed by
    [join]: the first item without [text] raises. *)
Fixpoint item_texts (items : list ContentItem) : exn + list string :=
  match items with
  | [] => inr []
  | item :: rest =>
      match item_text item with
      | inl e => inl e
      | inr t => match item_texts rest with
                 | inl e => inl e
                 | inr ts => inr (t :: ts)
                 end
      end
  end.

(** Lines 50-54: a list is joined with newlines, anything else is kept. *)
Definition normalize (result_content : ResultContent) : exn + string :=
  match result_content with
  | ContentList items =>
      match item_texts items with
      | inl e => inl e
      | inr texts => inr (join nl texts)
      end
  | ContentStr s => inr s
  end.

(** [x or default] on an optional string. *)
Definition or_default (x : option string) (default : string) : string :=
  match x with
  | Some (String c s) => String c s
  | _ => default
  end.

(** [str(x)] on an optional string. *)
Definition str_opt (x : option string) : string :=
  match x with
  | Some s => s
  | None => "None"
  end.

(** The truth value of [tool_calls]: neither [None] nor empty. *)
Definition truthy_calls (tool_calls : option (list ToolCall)) : bool :=
  match tool_calls with
  | Some (_ :: _) => true
  | _ => false
  end.

Definition calls_of (tool_calls : option (list ToolCall)) : list ToolCall :=
  match tool_calls with
  | Some l => l
  | None => []
  end.

(** The body of [for tool_call in tool_calls], lines 41-66. *)
Definition dispatch (tool_call : ToolCall) : M Frame unit :=
  let function_name := fn_name (tc_function tool_call) in
  let function_args := fn_arguments (tc_function tool_call) in
  print ("--> Calling tool `" ++ function_name ++ "` with args: "
           ++ function_args) ;;
  args <- lift (json_loads env function_args) ;;
  result <- session_call_tool function_name args ;;
  result_content <- lift (normalize (content result)) ;;
  print ("<-- Result from `" ++ function_name ++ "`: "
           ++ result_content ++ nl) ;;
  messages_append (MsgTool (tc_id tool_call) function_name result_content).

Definition process_query (query : string) : M Frame (list Message) :=
  set_messages [MsgUser query] ;;
  print (nl ++ "[USER] " ++ query ++ nl) ;;
  (* call the llm *)
  response_message <- completions_create ;;
  let tool_calls := cm_tool_calls response_message in
  let result_messages := [] in
  if truthy_calls tool_calls then
    print ("[ASSISTANT] "
             ++ or_default (cm_content response_message)
                  "[Tool Calls detected]") ;;
    messages_append (MsgResponse response_message) ;;
    for_each (calls_of tool_calls) (fun _ tool_call => dispatch tool_call) tt ;;
    (* second API call with updated conversation *)
    response <- completions_create ;;
    print ("[ASSISTANT] " ++ str_opt (cm_content response) ++ nl) ;;
    ret (result_messages ++ [MsgAssistant (cm_content response)])
  else
    (* no tool calls *)
    print ("[ASSISTANT] " ++ str_opt (cm_content response_message) ++ nl) ;;
    ret (result_messages ++ [MsgAssistant (cm_content response_message)]).

(** *** [chat_loop] *)

(** A call of [process_query] from the loop: a new frame, dropped when the
    call returns or raises; the returned list is not used by the loop. *)
Definition call_process_query (query : string) : M Trace (list Message) :=
  fun tr =>
    let '(r, fr) := process_query query {| messages := []; trace := tr |} in
    (r, trace fr).

Definition emit_loop (e : Event) : M Trace unit :=
  fun tr => (inr tt, tr ++ [e]).

(** [input(prompt)] *)
Definition input (prompt : string) : M Trace string :=
  fun tr => (env_input env tr, tr ++ [EvInput prompt]).

Inductive Flow : Type := Break | Continue.

(** One round of [while True]: the [try] block and its [except Exception]. *)
Definition loop_body : M Trace Flow :=
  try_except
    (line <- input (nl ++ "Query: ") ;;
     let query := str_strip env line in
     if (str_lower env query =? "quit")%string then ret Break
     else
       call_process_query query ;;
       emit_loop (EvPrint nl) ;;
       ret Continue)
    [(Exception,
      fun e =>
        emit_loop (EvPrint (nl ++ "Error occurred: " ++ exc_str e)) ;;
        ret Continue)].

(** How a run of the loop stands: ended by [break], ended by an exception
    that [except Exception] does not catch, or still going when the rounds
    counted by the fuel are done. *)
Inductive LoopStatus : Type :=
| Closed
| Crashed (e : exn)
| Running.

Fixpoint while_true (fuel : nat) (tr : Trace) : LoopStatus * Trace :=
  match fuel with
  | O => (Running, tr)
  | S fuel' =>
      match loop_body tr with
      | (inr Break, tr') => (Closed, tr')
      | (inr Continue, tr') => while_true fuel' tr'
      | (inl e, tr') => (Crashed e, tr')
      end
  end.

Definition banner : list Event :=
  [EvPrint nl; EvPrint "MCP PokeBot started!";
   EvPrint "Type your query or 'quit' to exit"].

Definition chat_loop (fuel : nat) (tr : Trace) : LoopStatus * Trace :=
  while_true fuel (tr ++ banner).

(** *** Reading a trace *)

(** The calls made to the tool session, in order. *)
Definition calls_made (tr : Trace) : list (string * Json) :=
  flat_map (fun e => match e with
                     | EvCallTool name args => [(name, args)]
                     | _ => []
                     end) tr.

(** The message lists sent to the LLM endpoint, in order. *)
Definition requests_made (tr : Trace) : list (list Message) :=
  flat_map (fun e => match e with
                     | EvCompletion _ messages _ => [messages]
                     | _ => []
                     end) tr.

(** [m] is a tool message for the tool call [tool_call]. *)
Definition paired (tool_call : ToolCall) (m : Message) : Prop :=
  exists text,
    m = MsgTool (tc_id tool_call) (fn_name (tc_function tool_call)) text.

(** [call] is the call of the session that [tool_call] asks for. *)
Definition called (tool_call : ToolCall) (call : string * Json) : Prop :=
  fst call = fn_name (tc_function tool_call)
  /\ json_loads env (fn_arguments (tc_function tool_call)) = inr (snd call).

(** A message list that holds one turn and nothing else: the user message
    alone, or the user message, the response with its tool calls and one
    tool message for each of them, in order. *)
Definition one_turn (ms : list Message) : Prop :=
  exists query,
    ms = [MsgUser query]
    \/ exists response tool_messages,
         ms = MsgUser query :: MsgResponse response :: tool_messages
         /\ Forall2 paired (calls_of (cm_tool_calls response)) tool_messages.

(** The requests of one turn: the user message alone, then, if the turn
    gets that far, the same list grown by the response and its tool
    messages. *)
Definition turn_group (requests : list (list Message)) : Prop :=
  exists query,
    requests = [[MsgUser query]]
    \/ exists response tool_messages,
         requests = [[MsgUser query];
                     MsgUser query :: MsgResponse response :: tool_messages]
         /\ Forall2 paired (calls_of (cm_tool_calls response)) tool_messages.

(** *** The five ways a call of [process_query] can go *)

Definition user_line (query : string) : Event :=
  EvPrint (nl ++ "[USER] " ++ query ++ nl).

Definition calls_line (response : ChatCompletionMessage) : Event :=
  EvPrint ("[ASSISTANT] "
             ++ or_default (cm_content response) "[Tool Calls detected]").

Definition answer_line (response : ChatCompletionMessage) : Event :=
  EvPrint ("[ASSISTANT] " ++ str_opt (cm_content response) ++ nl).

Definition calling_line (tool_call : ToolCall) : Event :=
  EvPrint ("--> Calling tool `" ++ fn_name (tc_function tool_call)
             ++ "` with args: " ++ fn_arguments (tc_function tool_call)).

Definition result_line (tool_call : ToolCall) (text : string) : Event :=
  EvPrint ("<-- Result from `" ++ fn_name (tc_function tool_call) ++ "`: "
             ++ text ++ nl).

Definition prompt : Event := EvInput (nl ++ "Query: ").

Definition error_line (e : exn) : Event :=
  EvPrint (nl ++ "Error occurred: " ++ exc_str e).

Definition request (ms : list Message) : Event :=
  EvCompletion (llm_model self) ms (available_tools self).

(** What the endpoint answers to [ms] after the trace [tr]. *)
Definition answer (tr : Trace) (ms : list Message)
    : exn + ChatCompletionMessage :=
  env_create env tr (llm_model self) ms (available_tools self).

(** The frame when the loop over the tool calls begins. *)
Definition after_response (query : string) (tr : Trace)
    (response : ChatCompletionMessage) : Frame :=
  {| messages := [MsgUser query; MsgResponse response];
     trace := tr ++ [user_line query; request [MsgUser query];
                     calls_line response] |}.

Inductive turn (query : string) (tr : Trace)
    : exn + list Message -> Frame -> Prop :=
| first_request_fails (e : exn) :
    answer (tr ++ [user_line query]) [MsgUser query] = inl e ->
    turn query tr (inl e)
      {| messages := [MsgUser query];
         trace := tr ++ [user_line query; request [MsgUser query]] |}
| no_tool_calls (response : ChatCompletionMessage) :
    answer (tr ++ [user_line query]) [MsgUser query] = inr response ->
    truthy_calls (cm_tool_calls response) = false ->
    turn query tr (inr [MsgAssistant (cm_content response)])
      {| messages := [MsgUser query];
         trace := tr ++ [user_line query; request [MsgUser query];
                         answer_line response] |}
| dispatch_raises (response : ChatCompletionMessage) (e : exn) (fr : Frame) :
    answer (tr ++ [user_line query]) [MsgUser query] = inr response ->
    truthy_calls (cm_tool_calls response) = true ->
    for_each (calls_of (cm_tool_calls response))
      (fun _ tool_call => dispatch tool_call) tt
      (after_response query tr response) = (inl e, fr) ->
    turn query tr (inl e) fr
| second_request_fails (response : ChatCompletionMessage) (e : exn)
    (fr : Frame) :
    answer (tr ++ [user_line query]) [MsgUser query] = inr response ->
    truthy_calls (cm_tool_calls response) = true ->
    for_each (calls_of (cm_tool_calls response))
      (fun _ tool_call => dispatch tool_call) tt
      (after_response query tr response) = (inr tt, fr) ->
    answer (trace fr) (messages fr) = inl e ->
    turn query tr (inl e)
      {| messages := messages fr;
         trace := trace fr ++ [request (messages fr)] |}
| turn_completes (response final : ChatCompletionMessage) (fr : Frame) :
    answer (tr ++ [user_line query]) [MsgUser query] = inr response ->
    truthy_calls (cm_tool_calls response) = true ->
    for_each (calls_of (cm_tool_calls response))
      (fun _ tool_call => dispatch tool_call) tt
      (after_response query tr response) = (inr tt, fr) ->
    answer (trace fr) (messages fr) = inr final ->
    turn query tr (inr [MsgAssistant (cm_content final)])
      {| messages := messages fr;
         trace := trace fr ++ [request (messages fr); answer_line final] |}.

(** *** Calls that the session answers *)

(** The tool message that lines 59-66 append for a tool call. *)
Definition tool_message (tool_call : ToolCall) (text : string) : Message :=
  MsgTool (tc_id tool_call) (fn_name (tc_function tool_call)) text.

Definition tool_messages (tool_calls : list ToolCall) (texts : list string)
    : list Message :=
  map (fun ct => tool_message (fst ct) (snd ct)) (combine tool_calls texts).

(** [answered tr tool_calls results texts tr']: from the trace [tr] on,
    [json.loads] accepts the arguments of each of the tool calls and the
    session answers each call with a result, in [results], whose items are
    text, in [texts] once joined; [tr'] is the trace after the last of
    them. Whether a result is marked as an error plays no part: a tool
    that is unknown to the server or that raises is answered by the
    session with such a result. *)
Inductive answered
    : Trace -> list ToolCall -> list CallToolResult -> list string -> Trace ->
      Prop :=
| answered_none (tr : Trace) : answered tr [] [] [] tr
| answered_one (tr tr' : Trace) (tool_call : ToolCall)
    (rest : list ToolCall) (args : Json) (result : CallToolResult)
    (results : list CallToolResult) (text : string) (texts : list string) :
    json_loads env (fn_arguments (tc_function tool_call)) = inr args ->
    env_call_tool env (tr ++ [calling_line tool_call])
      (fn_name (tc_function tool_call)) args = inr result ->
    normalize (content result) = inr text ->
    answered
      (tr ++ [calling_line tool_call;
              EvCallTool (fn_name (tc_function tool_call)) args;
              result_line tool_call text])
      rest results texts tr' ->
    answered tr (tool_call :: rest) (result :: results) (text :: texts) tr'.

End WithEnv.

End Client.

(* ===================================================================== *)
(** ** The tool server, [src/web-client/pokemon-mcp-server/main.py] *)
(* ===================================================================== *)

Module Server.
Import Py.
Local Open Scope string_scope.

(** *** The outside world: [requests], [time.sleep], [print] *)

(** A [requests.Response]: what the two tools read of it. [json] is the
    result of [response.json()], which raises on a body that is no JSON. *)
Record Response : Type := mk_Response {
  status_code : Z;
  reason : string;
  url : string;
  json : exn + Json
}.

Inductive Event : Type :=
| EvGet (url : Json) (timeout : Z)
| EvSleep (seconds : Q)
| EvPrint (text : string).

Definition Trace : Type := list Event.

(** An ability as the tool returns it; the three fields of [details] are
    those added by [ability_info.update]. *)
Record AbilityDetails : Type := mk_AbilityDetails {
  description : string;
  effect : Json;
  generation : Json
}.

Record AbilityInfo : Type := mk_AbilityInfo {
  name : Json;
  is_hidden : Json;
  slot : Json;
  details : option AbilityDetails
}.

Record AbilitiesResult : Type := mk_AbilitiesResult {
  abilities_pokemon_name : Json;
  abilities_pokemon_id : Json;
  abilities : list AbilityInfo
}.

Record StatDetail : Type := mk_StatDetail {
  stat_name : Json;
  base_stat : Json;
  effort : Json
}.

Record StatsResult : Type := mk_StatsResult {
  pokemon_name : Json;
  pokemon_id : Json;
  base_stats : list (Json * Json);
  total_base_stats : Z;
  stat_details : list StatDetail
}.

(** What [requests.get] answers, given the trace so far and the URL, and
    what [list.sort(key=...)] does to the list of abilities (it raises when
    two keys it compares are not ordered). [str_lower] and [str_strip] are
    [str.lower] and [str.strip], of which only this is taken for granted:
    the empty string stripped is the empty string. [max_str_digits] is
    [sys.get_int_max_str_digits()]. *)
Record Env : Type := mk_Env {
  env_get : Trace -> Json -> exn + Response;
  list_sort : (AbilityInfo -> Json) -> list AbilityInfo ->
              exn + list AbilityInfo;
  str_lower : string -> string;
  str_strip : string -> string;
  strip_empty : str_strip "" = "";
  max_str_digits : Z
}.

Definition emit (e : Event) : M Trace unit := fun tr => (inr tt, (tr ++ [e])%list).

Definition print (text : string) : M Trace unit := emit (EvPrint text).

(** [time.sleep(seconds)] *)
Definition sleep (seconds : Q) : M Trace unit := emit (EvSleep seconds).

(** [response.raise_for_status()] *)
Definition raise_for_status (response : Response) : exn + unit :=
  let code := status_code response in
  if ((400 <=? code) && (code <? 500))%Z then
    inl (mk_exn HTTPError
           (str_int code ++ " Client Error: " ++ reason response
              ++ " for url: " ++ url response))
  else if ((500 <=? code) && (code <? 600))%Z then
    inl (mk_exn HTTPError
           (str_int code ++ " Server Error: " ++ reason response
              ++ " for url: " ++ url response))
  else inr tt.

(** [v.replace(old, new)]: a method of strings only. *)
Definition replace (v : Json) (old : ascii) (new : string) : exn + string :=
  match v with
  | JStr s => inr (replace_char old new s)
  | _ =>
      inl (mk_exn AttributeError
             ("'" ++ type_name v ++ "' object has no attribute 'replace'"))
  end.

Definition base_url : string := "https://pokeapi.co/api/v2".

Section WithEnv.

Variable env : Env.

(** [requests.get(url, timeout=timeout)] *)
Definition requests_get (url : Json) (timeout : Z) : M Trace Response :=
  fun tr => (env_get env tr url, (tr ++ [EvGet url timeout])%list).

(** *** [get_pokemon_abilities] *)

(** Lines 74-81: the first English flavor text, its line and page breaks
    turned into spaces. *)
Fixpoint find_description (entries : list Json) (description : string)
    : exn + string :=
  match entries with
  | [] => inr description
  | flavor_text :: rest =>
      let? language := getitem flavor_text "language" in
      let? language_name := getitem language "name" in
      if eq_str language_name "en" then
        let? text := getitem flavor_text "flavor_text" in
        let? text := replace text (ascii_of_nat 10) " " in
        inr (replace_char (ascii_of_nat 12) " " text)
      else find_description rest description
  end.

(** Lines 84-87: the first English effect entry. *)
Fixpoint find_effect (entries : list Json) (effect : Json) : exn + Json :=
  match entries with
  | [] => inr effect
  | effect_entry :: rest =>
      let? language := getitem effect_entry "language" in
      let? language_name := getitem language "name" in
      if eq_str language_name "en" then getitem effect_entry "effect"
      else find_effect rest effect
  end.

(** Lines 64-97, the inner [try] block. *)
Definition fetch_details (ability_entry : Json) (ability_info : AbilityInfo)
    : M Trace AbilityInfo :=
  ability <- lift (getitem ability_entry "ability") ;;
  ability_url <- lift (getitem ability "url") ;;
  ability_response <- requests_get ability_url 10 ;;
  lift (raise_for_status ability_response) ;;
  ability_detail <- lift (json ability_response) ;;
  (* get English description and effect *)
  flavor_text_entries <-
    lift (get_default ability_detail "flavor_text_entries" (JArr [])) ;;
  flavor_texts <- lift (iterate flavor_text_entries) ;;
  description <-
    lift (find_description flavor_texts "No description available") ;;
  effect_entries <-
    lift (get_default ability_detail "effect_entries" (JArr [])) ;;
  effects <- lift (iterate effect_entries) ;;
  effect <-
    lift (find_effect effects (JStr "No effect description available")) ;;
  generation <- lift (getitem ability_detail "generation") ;;
  generation_name <- lift (getitem generation "name") ;;
  sleep (1 # 10) ;;
  ret {| name := name ability_info;
         is_hidden := is_hidden ability_info;
         slot := slot ability_info;
         details := Some {| description := description;
                            effect := effect;
                            generation := generation_name |} |}.

(** Lines 56-104, the body of [for ability_entry in ...]. *)
Definition ability_step (abilities : list AbilityInfo) (ability_entry : Json)
    : M Trace (list AbilityInfo) :=
  ability <- lift (getitem ability_entry "ability") ;;
  ability_name <- lift (getitem ability "name") ;;
  hidden <- lift (getitem ability_entry "is_hidden") ;;
  ability_slot <- lift (getitem ability_entry "slot") ;;
  let ability_info := {| name := ability_name; is_hidden := hidden;
                         slot := ability_slot; details := None |} in
  ability_info <-
    try_except (fetch_details ability_entry ability_info)
      [(RequestException,
        fun e =>
          print ("Warning: Could not fetch detailed info for ability '"
                   ++ str (name ability_info) ++ "': " ++ exc_str e) ;;
          ret ability_info)] ;;
  ret (abilities ++ [ability_info])%list.

(** Lines 26-35: the checks on the argument, and the name as it goes into
    the URL. *)
Definition check_identifier (pokemon_name : Json) : exn + Json :=
  if negb (truthy pokemon_name) then
    inl (mk_exn ValueError "Pokemon identifier cannot be empty")
  else
    match pokemon_name with
    | JStr s => inr (JStr (str_strip env (str_lower env s)))
    | JInt _ | JBool _ =>
        match as_int pokemon_name with
        | Some z =>
            if (z <=? 0)%Z then
              inl (mk_exn ValueError "Pokemon ID must be a positive integer")
            else inr pokemon_name
        | None => inr pokemon_name
        end
    | _ =>
        inl (mk_exn ValueError
               "Pokemon identifier must be a string or positive integer")
    end.

Definition get_pokemon_abilities (pokemon_name : Json)
    : M Trace AbilitiesResult :=
  pokemon_name <- lift (check_identifier pokemon_name) ;;
  try_except
    ((* the f-string of line 38 formats the name, and may raise *)
     name_text <- lift (str_limited (max_str_digits env) pokemon_name) ;;
     let pokemon_url := base_url ++ "/pokemon/" ++ name_text in
     response <- requests_get (JStr pokemon_url) 10 ;;
     if (status_code response =? 404)%Z then
       raise (mk_exn ValueError
                ("Pokémon '" ++ str pokemon_name ++ "' not found"))
     else
       lift (raise_for_status response) ;;
       pokemon_data <- lift (json response) ;;
       (* extract basic information *)
       data_name <- lift (getitem pokemon_data "name") ;;
       data_id <- lift (getitem pokemon_data "id") ;;
       (* process abilities *)
       data_abilities <- lift (getitem pokemon_data "abilities") ;;
       ability_entries <- lift (iterate data_abilities) ;;
       abilities <- for_each ability_entries ability_step [] ;;
       (* sort abilities by slot for consistent ordering *)
       abilities <- lift (list_sort env slot abilities) ;;
       ret {| abilities_pokemon_name := data_name;
              abilities_pokemon_id := data_id;
              abilities := abilities |})
    [(Timeout,
      fun _ => raise (mk_exn RequestException
                        "Request timed out. Please try again."));
     (ConnectionError,
      fun _ => raise (mk_exn RequestException
                 "Connection error. Please check your internet connection."));
     (RequestException,
      fun e => raise (mk_exn RequestException
                        ("API request failed: " ++ exc_str e)));
     (KeyError,
      fun e => raise (mk_exn Exception
                 ("Unexpected API response structure. Missing key: "
                    ++ exc_str e)));
     (Exception,
      fun e => raise (mk_exn Exception
                        ("An unexpected error occurred: " ++ exc_str e)))].

(** *** [get_pokemon_stats] *)

(** Lines 166-183, the body of [for stat_entry in pokemon_data["stats"]],
    on the three accumulators [base_stats], [stat_details], [total_stats]. *)
Definition stat_step
    (acc : list (Json * Json) * list StatDetail * Z) (stat_entry : Json)
    : exn + list (Json * Json) * list StatDetail * Z :=
  let '(base_stats, stat_details, total_stats) := acc in
  let? stat := getitem stat_entry "stat" in
  let? stat_name := getitem stat "name" in
  let? base_stat_value := getitem stat_entry "base_stat" in
  let? effort_value := getitem stat_entry "effort" in
  (* add to base_stats dictionary *)
  let? base_stats := dict_set base_stats stat_name base_stat_value in
  (* add to detailed stats list *)
  let stat_details :=
    (stat_details ++ [{| stat_name := stat_name;
                         base_stat := base_stat_value;
                         effort := effort_value |}])%list in
  (* calculate total *)
  let? total_stats := int_add "+=" total_stats base_stat_value in
  inr (base_stats, stat_details, total_stats).

Definition get_pokemon_stats (pokemon_name : Json) : M Trace StatsResult :=
  match pokemon_name with
  | JStr given_name =>
      if negb (truthy (JStr given_name))
         || negb (truthy (JStr (str_strip env given_name))) then
        raise (mk_exn ValueError "Pokemon name cannot be empty")
      else
        let clean_name := str_strip env (str_lower env given_name) in
        let pokemon_url := base_url ++ "/pokemon/" ++ clean_name in
        try_except
          (response <- requests_get (JStr pokemon_url) 10 ;;
           if (status_code response =? 404)%Z then
             raise (mk_exn ValueError
                      ("Pokémon '" ++ given_name
                         ++ "' not found. Please check the spelling and try again."))
           else
             (* raise exception for other HTTP errors *)
             lift (raise_for_status response) ;;
             pokemon_data <- lift (json response) ;;
             (* extract stats information *)
             data_stats <- lift (getitem pokemon_data "stats") ;;
             stat_entries <- lift (iterate data_stats) ;;
             acc <- for_each stat_entries
                      (fun acc stat_entry => lift (stat_step acc stat_entry))
                      ([], [], 0) ;;
             let '(base_stats, stat_details, total_stats) := acc in
             (* construct result dictionary *)
             data_name <- lift (getitem pokemon_data "name") ;;
             data_id <- lift (getitem pokemon_data "id") ;;
             ret {| pokemon_name := data_name;
                    pokemon_id := data_id;
                    base_stats := base_stats;
                    total_base_stats := total_stats;
                    stat_details := stat_details |})
          [(Timeout,
            fun _ => raise (mk_exn RequestException
              "Request timed out while fetching Pokémon data. Please try again."));
           (ConnectionError,
            fun _ => raise (mk_exn RequestException
              "Unable to connect to PokéAPI. Please check your internet connection."));
           (RequestException,
            fun e => raise (mk_exn RequestException
                              ("Failed to fetch Pokémon data: " ++ exc_str e)));
           (KeyError,
            fun e => raise (mk_exn Exception
              ("Unexpected API response format. Missing expected field: "
                 ++ exc_str e)));
           (Exception,
            fun e => raise (mk_exn Exception
              ("An unexpected error occurred while processing Pokémon stats: "
                 ++ exc_str e)))]
  | _ => raise (mk_exn ValueError "Pokemon name must be a string")
  end.

(** Two names that differ only in letter case and in the white space
    around them: stripped, they are equal up to letter case. *)
Definition same_name (a b : string) : Prop :=
  str_lower env (str_strip env a) = str_lower env (str_strip env b).

End WithEnv.

End Server.

(* ===================================================================== *)
(** ** Sample environments *)
(* ===================================================================== *)

Module Samples.
Import Py.

(** *** For the client *)

Module C.
Import Client.

Definition count_inputs (tr : Trace) : nat :=
  List.length (filter (fun e => match e with EvInput _ => true | _ => false end)
                 tr).

(** A console that types the given lines, then reaches the end of input. *)
Definition typed (lines : list string) (tr : Trace) : exn + string :=
  match nth_error lines (count_inputs tr) with
  | Some line => inr line
  | None => inl (mk_exn EOFError "EOF when reading a line")
  end.

Definition charizard_args : string :=
  "{" ++ String quote2 "pokemon_name" ++ String quote2 ": "
      ++ String quote2 "charizard" ++ String quote2 "}".

(** A [json.loads] that knows two documents. *)
Definition loads (text : string) : exn + Json :=
  if (text =? "{}")%string then inr (JObj [])
  else if (text =? charizard_args)%string then
    inr (JObj [("pokemon_name", JStr "charizard")])
  else inl (mk_exn JSONDecodeError
              "Expecting property name enclosed in double quotes").

Definition stats_call : ToolCall :=
  {| tc_id := "call_1";
     tc_function := {| fn_name := "get_pokemon_stats";
                       fn_arguments := charizard_args |} |}.

Definition abilities_call : ToolCall :=
  {| tc_id := "call_2";
     tc_function := {| fn_name := "get_pokemon_abilities";
                       fn_arguments := charizard_args |} |}.

Definition broken_call : ToolCall :=
  {| tc_id := "call_3";
     tc_function := {| fn_name := "get_pokemon_stats";
                       fn_arguments := "{" |} |}.

(** A model that asks for the given tool calls when the last message is the
    user's, and answers in words once it sees a tool message. *)
Definition model (calls : list ToolCall) (_ : Trace) (_ : option string)
    (messages : list Message) (_ : list ToolSchema)
    : exn + ChatCompletionMessage :=
  match last messages (MsgAssistant None) with
  | MsgUser _ =>
      inr {| cm_content := match calls with
                           | [] => Some "Hello!"
                           | _ => None
                           end;
             cm_tool_calls := Some calls |}
  | _ =>
      inr {| cm_content := Some "Charizard is strong.";
             cm_tool_calls := None |}
  end.

(** An endpoint that answers the first request of the run only. *)
Definition model_once (calls : list ToolCall) (tr : Trace)
    (m : option string) (messages : list Message) (tools : list ToolSchema)
    : exn + ChatCompletionMessage :=
  if existsb (fun e => match e with EvCompletion _ _ _ => true | _ => false end)
       tr
  then inl (mk_exn APIError "Connection error.")
  else model calls tr m messages tools.

Definition down (_ : Trace) (_ : option string) (_ : list Message)
    (_ : list ToolSchema) : exn + ChatCompletionMessage :=
  inl (mk_exn APIError "Connection error.").

(** A session whose tools answer with two text items. *)
Definition session (_ : Trace) (name : string) (_ : Json)
    : exn + CallToolResult :=
  inr {| content := ContentList [TextContent ("result of " ++ name);
                                 TextContent "done"];
         isError := false |}.

(** A session that reports the failure of the tool in its result. *)
Definition session_error_result (_ : Trace) (name : string) (_ : Json)
    : exn + CallToolResult :=
  inr {| content := ContentList
                      [TextContent ("Error executing tool " ++ name)];
         isError := true |}.

(** A session that has lost its server: the call raises. *)
Definition session_raises (_ : Trace) (_ : string) (_ : Json)
    : exn + CallToolResult :=
  inl (mk_exn McpError "Connection closed").

Definition env_of (lines : list string)
    (create : Trace -> option string -> list Message -> list ToolSchema ->
              exn + ChatCompletionMessage)
    (call : Trace -> string -> Json -> exn + CallToolResult) : Env :=
  {| env_input := typed lines;
     env_create := create;
     env_call_tool := call;
     json_loads := loads;
     str_strip := ascii_strip;
     str_lower := ascii_lower |}.

Definition bot : PokeBot :=
  {| llm_model := Some "llama-3.3-70b-versatile"; available_tools := [] |}.

Definition start (tr : Trace) : Frame := {| messages := []; trace := tr |}.

End C.

(** *** For the server *)

Module S.
Import Server.
Local Open Scope string_scope.

Definition stat_entry (stat : string) (value effort_value : Z) : Json :=
  JObj [("base_stat", JInt value); ("effort", JInt effort_value);
        ("stat", JObj [("name", JStr stat);
                       ("url", JStr (base_url ++ "/stat/" ++ stat))])].

Definition ability_entry (ability : string) (hidden : bool) (place : Z)
    : Json :=
  JObj [("ability", JObj [("name", JStr ability);
                          ("url", JStr (base_url ++ "/ability/" ++ ability))]);
        ("is_hidden", JBool hidden); ("slot", JInt place)].

(** The upstream document for Charizard, cut down to the fields read. *)
Definition charizard : Json :=
  JObj [("abilities", JArr [ability_entry "solar-power" true 3;
                            ability_entry "blaze" false 1]);
        ("id", JInt 6);
        ("name", JStr "charizard");
        ("stats", JArr [stat_entry "hp" 78 0; stat_entry "attack" 84 0;
                        stat_entry "defense" 78 0;
                        stat_entry "special-attack" 109 3;
                        stat_entry "special-defense" 85 0;
                        stat_entry "speed" 100 0])].

Definition language (code : string) : Json := JObj [("name", JStr code)].

Definition blaze : Json :=
  JObj [("effect_entries",
         JArr [JObj [("effect", JStr "Verstaerkt Feuer-Attacken.");
                     ("language", language "de")];
               JObj [("effect", JStr "Strengthens fire moves.");
                     ("language", language "en")]]);
        ("flavor_text_entries",
         JArr [JObj [("flavor_text",
                      JStr ("Powers up Fire-type" ++ nl ++ "moves in a pinch."));
                     ("language", language "en")]]);
        ("generation", JObj [("name", JStr "generation-iii")])].

Definition ok (address : string) (body : Json) : Response :=
  {| status_code := 200; reason := "OK"; url := address; json := inr body |}.

Definition not_found (address : string) : Response :=
  {| status_code := 404; reason := "Not Found"; url := address;
     json := inr (JStr "Not Found") |}.

(** The PokéAPI, as far as Charizard goes: everything else is a 404, and
    the details of the ability solar-power are a server error. *)
Definition pokeapi (_ : Trace) (address : Json) : exn + Response :=
  match address with
  | JStr a =>
      if a =? base_url ++ "/pokemon/charizard" then inr (ok a charizard)
      else if a =? base_url ++ "/ability/blaze" then inr (ok a blaze)
      else if a =? base_url ++ "/ability/solar-power" then
        inr {| status_code := 503; reason := "Service Unavailable";
               url := a; json := inl (mk_exn InvalidJSONError "no JSON") |}
      else inr (not_found a)
  | _ => inl (mk_exn MissingSchema "Invalid URL: No scheme supplied.")
  end.

(** An upstream that answers every request with the same response. *)
Definition always (response : Response) (_ : Trace) (_ : Json)
    : exn + Response := inr response.

(** An upstream that cannot be reached in time. *)
Definition timing_out (_ : Trace) (_ : Json) : exn + Response :=
  inl (mk_exn ReadTimeout "Read timed out. (read timeout=10)").

Definition unreachable (_ : Trace) (_ : Json) : exn + Response :=
  inl (mk_exn ConnectionError "Max retries exceeded").

Fixpoint insert_by (key : AbilityInfo -> Z) (x : AbilityInfo)
    (sorted : list AbilityInfo) : list AbilityInfo :=
  match sorted with
  | [] => [x]
  | y :: rest =>
      if (key x <=? key y)%Z then x :: y :: rest
      else y :: insert_by key x rest
  end.

(** A sort for the examples, whose keys are integers: it sorts by
    insertion from the right, an element going before those of the same
    key, so that equal keys keep their order as in [list.sort]. On any
    other key it raises; [list.sort] raises only on keys that it cannot
    compare. *)
Definition sort_ints (key : AbilityInfo -> Json) (l : list AbilityInfo)
    : exn + list AbilityInfo :=
  if forallb (fun x => match as_int (key x) with
                       | Some _ => true
                       | None => false
                       end) l
  then
    let int_key x := match as_int (key x) with Some z => z | None => 0%Z end in
    inr (fold_right (insert_by int_key) [] l)
  else
    inl (mk_exn TypeError "'<' not supported between instances").

(** The two string methods are those for ASCII strings, and the limit on
    the digits of an integer is the one CPython starts with. *)
Definition env_of (get : Trace -> Json -> exn + Response) : Env :=
  {| env_get := get; list_sort := sort_ints;
     str_lower := ascii_lower; str_strip := ascii_strip;
     strip_empty := eq_refl; max_str_digits := 4300 |}.

(** A document with the stat [hp] listed twice. *)
Definition twice_hp : Json :=
  JObj [("id", JInt 0); ("name", JStr "glitch");
        ("stats", JArr [stat_entry "hp" 10 0; stat_entry "hp" 20 0])].

End S.

End Samples.

(* ===================================================================== *)
(** ** The start of the client, and what a trace of the server holds *)
(* ===================================================================== *)

Module Startup.
Import Py Client.

(** What the start of the server process and the handshake answer:
    entering [stdio_client(server_params)] and [ClientSession(read, write)],
    [session.initialize()], and [session.list_tools().tools]. *)
Record Connection : Type := mk_Connection {
  conn_open : Trace -> exn + unit;
  conn_initialize : Trace -> exn + unit;
  conn_list_tools : Trace -> exn + list Tool
}.

(** [str(names)] for a list of strings. *)
Definition str_names (names : list string) : string :=
  "[" ++ join ", " (map repr_str names) ++ "]".

(** [print("\nConnected to MCP server with tools: ", [tool.name ...])]:
    the two arguments, with the space that [print] puts between them. *)
Definition connected_line (tools : list Tool) : Event :=
  EvPrint (nl ++ "Connected to MCP server with tools: " ++ " "
             ++ str_names (map tool_name tools)).

(** [PokeBot.__init__]: no tools yet; [model] is the value of GROQ_LLM. *)
Definition new_bot (model : option string) : PokeBot :=
  {| llm_model := model; available_tools := [] |}.

Section WithEnv.

Variable env : Env.
Variable conn : Connection.

(** An exception before the loop leaves the function, as one raised in
    the loop and not caught there does. *)
Definition connect_and_run_server (self : PokeBot) (fuel : nat) (tr : Trace)
    : LoopStatus * Trace :=
  match conn_open conn tr with
  | inl e => (Crashed e, tr)
  | inr _ =>
      (* init the connection *)
      match conn_initialize conn tr with
      | inl e => (Crashed e, tr)
      | inr _ =>
          (* list available tools *)
          match conn_list_tools conn tr with
          | inl e => (Crashed e, tr)
          | inr tools =>
              let self := {| llm_model := llm_model self;
                             available_tools := to_available_tools tools |} in
              (* start chat loop *)
              chat_loop env self fuel (tr ++ [connected_line tools])
          end
      end
  end.

(** [main] *)
Definition main (model : option string) (fuel : nat) : LoopStatus * Trace :=
  connect_and_run_server (new_bot model) fuel [].

End WithEnv.

(** The model and the tools of every completion request of a trace. *)
Definition request_settings (tr : Trace)
    : list (option string * list ToolSchema) :=
  flat_map (fun e => match e with
                     | EvCompletion model _ tools => [(model, tools)]
                     | _ => []
                     end) tr.

End Startup.

Module ServerTrace.
Import Py Server.

(** The requests, the pauses and the printed lines of a trace. *)
Definition requested (tr : Trace) : list Json :=
  flat_map (fun e => match e with EvGet url _ => [url] | _ => [] end) tr.

Definition pauses (tr : Trace) : nat :=
  List.length (filter (fun e => match e with EvSleep _ => true | _ => false end)
                 tr).

Definition warnings (tr : Trace) : nat :=
  List.length (filter (fun e => match e with EvPrint _ => true | _ => false end)
                 tr).

Definition has_details (a : AbilityInfo) : bool :=
  match details a with
  | Some _ => true
  | None => false
  end.

(** No line feed and no form feed in a description. *)
Definition one_line (text : string) : bool :=
  negb (contains_char (ascii_of_nat 10) text)
  && negb (contains_char (ascii_of_nat 12) text).

(** [entry["language"]["name"] == "en"] is evaluated and true. *)
Definition english (entry : Json) : Prop :=
  exists language language_name,
    getitem entry "language" = inr language
    /\ getitem language "name" = inr language_name
    /\ eq_str language_name "en" = true.

(** [entry["language"]["name"] == "en"] is evaluated and false. *)
Definition other_language (entry : Json) : Prop :=
  exists language language_name,
    getitem entry "language" = inr language
    /\ getitem language "name" = inr language_name
    /\ eq_str language_name "en" = false.

(** What the loop of [get_pokemon_abilities] reads of one entry. *)
Definition ability_of (entry : Json) (a : AbilityInfo) : Prop :=
  exists ability,
    getitem entry "ability" = inr ability
    /\ getitem ability "name" = inr (name a)
    /\ getitem entry "is_hidden" = inr (is_hidden a)
    /\ getitem entry "slot" = inr (slot a).

(** The last of the details under a name equal, as a key, to [key]. *)
Fixpoint last_under (key : Json) (details : list StatDetail)
    : option StatDetail :=
  match details with
  | [] => None
  | d :: rest =>
      match last_under key rest with
      | Some d' => Some d'
      | None => if key_eqb (stat_name d) key then Some d else None
      end
  end.

(** [d[key]] on a dict of the model, [None] for a missing key. *)
Fixpoint dict_get (d : list (Json * Json)) (key : Json) : option Json :=
  match d with
  | [] => None
  | (k, v) :: rest => if key_eqb k key then Some v else dict_get rest key
  end.

(** What the loop of [get_pokemon_stats] reads of one entry. *)
Definition detail_of (entry : Json) (d : StatDetail) : Prop :=
  exists stat,
    getitem entry "stat" = inr stat
    /\ getitem stat "name" = inr (stat_name d)
    /\ getitem entry "base_stat" = inr (base_stat d)
    /\ getitem entry "effort" = inr (effort d).

(** The name as [get_pokemon_abilities] and [get_pokemon_stats] put it
    into the URL. *)
Definition pokemon_url (clean_name : string) : Json :=
  JStr (base_url ++ "/pokemon/" ++ clean_name).

End ServerTrace.

Module MoreSamples.
Import Py.

Module C.
Import Client Startup.

Definition tools : list Tool :=
  [{| tool_name := "get_pokemon_abilities";
      tool_description := Some "Fetch abilities";
      tool_inputSchema := JObj [("type", JStr "object")] |};
   {| tool_name := "get_pokemon_stats";
      tool_description := None;
      tool_inputSchema := JObj [] |}].

Definition up : Connection :=
  {| conn_open := fun _ => inr tt;
     conn_initialize := fun _ => inr tt;
     conn_list_tools := fun _ => inr tools |}.

(** A console at the end of its input. *)
Definition at_end_of_input : Env :=
  {| env_input := fun _ => inl (mk_exn EOFError "EOF when reading a line");
     env_create := Samples.C.down;
     env_call_tool := Samples.C.session;
     json_loads := Samples.C.loads;
     str_strip := ascii_strip;
     str_lower := ascii_lower |}.

End C.

Module S.
Import Server.
Local Open Scope string_scope.

(** An upstream the connection to which times out. *)
Definition connect_timing_out (_ : Trace) (_ : Json) : exn + Response :=
  inl (mk_exn ConnectTimeout "Connection to pokeapi.co timed out.").

(** An upstream that is overloaded. *)
Definition overloaded (address : string) : Response :=
  {| status_code := 503; reason := "Service Unavailable"; url := address;
     json := inl (mk_exn InvalidJSONError "no JSON") |}.

(** A document without its stats and its abilities. *)
Definition bare : Json := JObj [("id", JInt 6); ("name", JStr "charizard")].

End S.

End MoreSamples.

(* ===================================================================== *)
(** ** Facts about strings and sums *)
(* ===================================================================== *)

Module PyFacts.
Import Py.

(** The [except] clauses of the two files on some classes. *)
Example isinstance_samples :
  issubclass ReadTimeout Timeout = true
  /\ issubclass ConnectTimeout Timeout = true
  /\ issubclass ConnectTimeout ConnectionError = true
  /\ issubclass HTTPError RequestException = true
  /\ issubclass ValueError RequestException = false
  /\ issubclass ValueError KeyError = false
  /\ issubclass ValueError Exception = true
  /\ issubclass KeyError Exception = true
  /\ issubclass EOFError Exception = true
  /\ issubclass KeyboardInterrupt Exception = false.
Proof. repeat split; reflexivity. Qed.

Example strip_and_lower_samples :
  ascii_strip (ascii_lower "  ChariZard ") = "charizard"
  /\ ascii_strip (ascii_lower (" Mr. Mime" ++ nl)) = "mr. mime"
  /\ ascii_strip "   " = ""
  /\ repr_str "name" = "'name'".
Proof. repeat split; reflexivity. Qed.

Lemma is_space_lower_ascii (c : ascii) :
  ascii_space (lower_ascii c) = ascii_space c.
Proof.
  destruct c as [b0 b1 b2 b3 b4 b5 b6 b7].
  destruct b0, b1, b2, b3, b4, b5, b6, b7; reflexivity.
Qed.

Lemma lstrip_lower (s : string) : ascii_lstrip (ascii_lower s) = ascii_lower (ascii_lstrip s).
Proof.
  induction s as [|c s IH]; simpl; [reflexivity|].
  rewrite is_space_lower_ascii. destruct (ascii_space c); [exact IH | reflexivity].
Qed.

Lemma rstrip_lower (s : string) : ascii_rstrip (ascii_lower s) = ascii_lower (ascii_rstrip s).
Proof.
  induction s as [|c s IH]; simpl; [reflexivity|].
  rewrite IH, is_space_lower_ascii.
  destruct (ascii_rstrip s); simpl; [destruct (ascii_space c)|]; reflexivity.
Qed.

(** Lower case and stripping commute. *)
Lemma strip_lower (s : string) : ascii_strip (ascii_lower s) = ascii_lower (ascii_strip s).
Proof. unfold ascii_strip. now rewrite lstrip_lower, rstrip_lower. Qed.

Lemma lower_empty (s : string) : ascii_lower s = EmptyString <-> s = EmptyString.
Proof. destruct s; simpl; split; congruence. Qed.

Lemma sum_from_app (total : Z) (l : list Json) (v : Json) :
  sum_from total (l ++ [v])
  = ebind (sum_from total l) (fun t => int_add "+" t v).
Proof.
  revert total. induction l as [|x l IH]; intros total; simpl.
  - destruct (int_add "+" total v); reflexivity.
  - destruct (int_add "+" total x); simpl; [reflexivity | apply IH].
Qed.

(** The operator is only in the text of the exception. *)
Lemma int_add_op (op op' : string) (total : Z) (v : Json) (t : Z) :
  int_add op total v = inr t -> int_add op' total v = inr t.
Proof.
  unfold int_add. destruct (as_int v); [trivial | discriminate].
Qed.

Lemma distinct_keys_app (l : list Json) (k : Json) :
  distinct_keys (l ++ [k]) = true ->
  distinct_keys l = true /\ existsb (fun k' => key_eqb k' k) l = false.
Proof.
  induction l as [|x l IH]; simpl; [auto|].
  rewrite existsb_app. simpl. rewrite orb_false_r.
  intros H. apply andb_prop in H as [H1 H2].
  apply negb_true_iff, orb_false_iff in H1 as [H1 H3].
  destruct (IH H2) as [H4 H5].
  rewrite H1, H3, H4, H5. auto.
Qed.

Lemma distinct_keys_prefix (l more : list Json) :
  distinct_keys (l ++ more) = true -> distinct_keys l = true.
Proof.
  induction l as [|x l IH]; simpl; [reflexivity|].
  rewrite existsb_app. intros H. apply andb_prop in H as [H1 H2].
  apply negb_true_iff, orb_false_iff in H1 as [H1 _].
  now rewrite H1, (IH H2).
Qed.

(** A key that is not yet there goes to the end of the dict. *)
Lemma dict_put_new (d : list (Json * Json)) (k v : Json) :
  existsb (fun k' => key_eqb k' k) (map fst d) = false ->
  dict_put k v d = d ++ [(k, v)].
Proof.
  induction d as [|[k' v'] d IH]; simpl; [reflexivity|].
  intros H. apply orb_false_iff in H as [H1 H2].
  now rewrite H1, (IH H2).
Qed.

End PyFacts.

(* ===================================================================== *)
(** ** The tool server: properties *)
(* ===================================================================== *)

Module ServerSpec.
Import Py Server PyFacts.
Local Open Scope string_scope.

(** *** The checks on the argument *)

(** C9. [get_pokemon_abilities] called with the empty string raises the
    validation error [ValueError("Pokemon identifier cannot be empty")], and
    the trace is left as it was: no request has gone out, whatever the
    upstream would have answered. *)
Theorem abilities_empty_string_rejected_before_network
    (env : Env) (tr : Trace) :
  get_pokemon_abilities env (JStr "") tr
  = (inl (mk_exn ValueError "Pokemon identifier cannot be empty"), tr).
Proof. reflexivity. Qed.

(** [get_pokemon_stats] refuses a blank name: the test is made on the
    stripped argument. *)
Lemma stats_blank_rejected (env : Env) (given : string) (tr : Trace) :
  str_strip env given = "" ->
  get_pokemon_stats env (JStr given) tr
  = (inl (mk_exn ValueError "Pokemon name cannot be empty"), tr).
Proof.
  intros H. unfold get_pokemon_stats. rewrite H.
  cbn [truthy negb]. rewrite orb_true_r. reflexivity.
Qed.

Lemma truthy_str (s : string) : truthy (JStr s) = negb (s =? "").
Proof. destruct s; reflexivity. Qed.

Lemma stats_guard (env : Env) (given : string) :
  negb (truthy (JStr given)) || negb (truthy (JStr (str_strip env given)))
  = (str_strip env given =? "").
Proof.
  rewrite !truthy_str, !negb_involutive.
  destruct given as [|c s]; [now rewrite strip_empty | reflexivity].
Qed.

(** A name that is not blank is not empty. *)
Lemma not_blank_not_empty (env : Env) (given : string) :
  str_strip env given <> "" -> given <> "".
Proof. intros H ->. apply H, strip_empty. Qed.

(** Splits a hypothesis on the innermost test it is stuck on and drops the
    cases that contradict it. *)
Ltac split_on H :=
  match type of H with
  | context [match ?x with _ => _ end] =>
      lazymatch x with
      | context [match _ with _ => _ end] => fail
      | _ => destruct x eqn:?
      end
  end;
  cbn [find_clause] in H; cbv beta iota in H; try discriminate H.

(** Decides the [except] clauses for an exception of a known class. *)
Ltac decide_clauses :=
  cbn [find_clause];
  repeat match goal with
         | |- context [isinstance {| exc_class := ?c; exc_str := ?s |} ?d] =>
             let b := eval vm_compute in (issubclass c d) in
             change (isinstance {| exc_class := c; exc_str := s |} d) with b
         end;
  cbv beta iota.

(** *** Case and padding of the name *)

(** The name as both tools put it into the URL is the same for two names
    that differ only in letter case and in the white space around them,
    and one is blank if the other is. *)
Lemma same_name_clean (env : Env) (a b : string) :
  (forall s, str_strip env (str_lower env s) = str_lower env (str_strip env s)) ->
  (forall s, str_lower env s = "" <-> s = "") ->
  same_name env a b ->
  str_strip env (str_lower env a) = str_strip env (str_lower env b)
  /\ (str_strip env a = "" <-> str_strip env b = "").
Proof.
  unfold same_name. intros Hcomm Hempty H. split.
  - now rewrite !Hcomm, H.
  - rewrite <- (Hempty (str_strip env a)), <- (Hempty (str_strip env b)), H.
    reflexivity.
Qed.

Lemma stats_same_name (env : Env) (a b : string) (tr : Trace) :
  str_strip env (str_lower env a) = str_strip env (str_lower env b) ->
  (str_strip env a = "" <-> str_strip env b = "") ->
  snd (get_pokemon_stats env (JStr a) tr)
  = snd (get_pokemon_stats env (JStr b) tr)
  /\ ((forall response,
          env_get env tr
            (JStr (base_url ++ "/pokemon/" ++ str_strip env (str_lower env a)))
          = inr response ->
          status_code response <> 404%Z) ->
      get_pokemon_stats env (JStr a) tr = get_pokemon_stats env (JStr b) tr).
Proof.
  intros Hc Hb.
  unfold get_pokemon_stats. rewrite !stats_guard, Hc.
  destruct (String.eqb_spec (str_strip env a) "") as [Ea|Ea];
    destruct (String.eqb_spec (str_strip env b) "") as [Eb|Eb];
    try (exfalso; tauto); [split; reflexivity|].
  unfold try_except, bind, requests_get.
  destruct (env_get env tr
              (JStr (base_url ++ "/pokemon/" ++ str_strip env (str_lower env b))))
    as [e|response].
  - split; reflexivity.
  - destruct (Z.eqb_spec (status_code response) 404) as [E404|E404].
    + unfold raise. decide_clauses. split; [reflexivity|].
      intros H. now destruct (H response eq_refl).
    + split; reflexivity.
Qed.

Lemma abilities_same_name (env : Env) (a b : string) (tr : Trace) :
  str_strip env (str_lower env a) = str_strip env (str_lower env b) ->
  a <> "" -> b <> "" ->
  get_pokemon_abilities env (JStr a) tr = get_pokemon_abilities env (JStr b) tr.
Proof.
  intros Hc Ha Hb.
  unfold get_pokemon_abilities, check_identifier.
  rewrite !truthy_str.
  destruct (String.eqb_spec a "") as [E|_]; [contradiction|].
  destruct (String.eqb_spec b "") as [E|_]; [contradiction|].
  cbn [negb]. now rewrite Hc.
Qed.

Lemma stats_not_found (env : Env) (given : string) (tr : Trace)
    (response : Response) :
  str_strip env given <> "" ->
  env_get env tr (JStr (base_url ++ "/pokemon/" ++ str_strip env (str_lower env given)))
  = inr response ->
  status_code response = 404%Z ->
  get_pokemon_stats env (JStr given) tr
  = (inl (mk_exn Exception
            ("An unexpected error occurred while processing Pokémon stats: "
               ++ "Pokémon '" ++ given
               ++ "' not found. Please check the spelling and try again.")),
     (tr ++ [EvGet (JStr (base_url ++ "/pokemon/" ++ str_strip env (str_lower env given)))
               10])%list).
Proof.
  intros Hg Hget H404. unfold get_pokemon_stats. rewrite stats_guard.
  destruct (String.eqb_spec (str_strip env given) "") as [E|_]; [contradiction|].
  unfold try_except, bind, requests_get. rewrite Hget, H404.
  cbn [Z.eqb Pos.eqb]. unfold raise. decide_clauses. reflexivity.
Qed.

(** C10, as the code has it. Take two arguments that differ only in
    letter case and in the white space around them: stripped, they are
    equal up to letter case. Of [str.lower] and [str.strip] two facts are
    used: they commute, and lower case makes no string empty.
    [get_pokemon_stats] sends the same request for both, if any, and
    unless the reply to it is a 404 the two calls end alike in everything:
    the same result or the same error. On a 404 both raise the
    "unexpected error", each with its own argument in the text, as given.
    [get_pokemon_abilities], for two such arguments that are not empty,
    does the same in everything: requests, result and error. *)
Theorem same_request_and_result_up_to_case_and_padding
    (env : Env) (a b : string) (tr : Trace) :
  (forall s, str_strip env (str_lower env s) = str_lower env (str_strip env s)) ->
  (forall s, str_lower env s = "" <-> s = "") ->
  same_name env a b ->
  let address :=
    JStr (base_url ++ "/pokemon/" ++ str_strip env (str_lower env a)) in
  let not_found given :=
    mk_exn Exception
      ("An unexpected error occurred while processing Pokémon stats: "
         ++ "Pokémon '" ++ given
         ++ "' not found. Please check the spelling and try again.") in
  snd (get_pokemon_stats env (JStr a) tr)
  = snd (get_pokemon_stats env (JStr b) tr)
  /\ ((forall response,
          env_get env tr address = inr response ->
          status_code response <> 404%Z) ->
      get_pokemon_stats env (JStr a) tr = get_pokemon_stats env (JStr b) tr)
  /\ (forall response,
        str_strip env a <> "" ->
        env_get env tr address = inr response ->
        status_code response = 404%Z ->
        fst (get_pokemon_stats env (JStr a) tr) = inl (not_found a)
        /\ fst (get_pokemon_stats env (JStr b) tr) = inl (not_found b))
  /\ (a <> "" -> b <> "" ->
      get_pokemon_abilities env (JStr a) tr
      = get_pokemon_abilities env (JStr b) tr).
Proof.
  intros Hcomm Hempty H address not_found.
  destruct (same_name_clean env a b Hcomm Hempty H) as [Hc Hb].
  destruct (stats_same_name env a b tr Hc Hb) as [Ht Hr].
  split; [exact Ht|]. split; [exact Hr|]. split.
  - intros response Ha Hget H404. subst address not_found. split.
    + now rewrite (stats_not_found env a tr response Ha Hget H404).
    + rewrite Hc in Hget.
      assert (Hnb : str_strip env b <> "") by tauto.
      now rewrite (stats_not_found env b tr response Hnb Hget H404).
  - intros Ha Hb'. now apply abilities_same_name.
Qed.

Lemma same_request_and_result_sample :
  let env := Samples.S.env_of Samples.S.pokeapi in
  let a := "  ChariZard " in
  let b := "charizard" in
  let not_found given :=
    mk_exn Exception
      ("An unexpected error occurred while processing Pokémon stats: "
         ++ "Pokémon '" ++ given
         ++ "' not found. Please check the spelling and try again.") in
  same_name env a b
  /\ snd (get_pokemon_stats env (JStr a) [])
     = snd (get_pokemon_stats env (JStr b) [])
  /\ get_pokemon_stats env (JStr a) [] = get_pokemon_stats env (JStr b) []
  /\ (forall response,
        str_strip env a <> "" ->
        env_get env [] (JStr (base_url ++ "/pokemon/"
                                ++ str_strip env (str_lower env a)))
        = inr response ->
        status_code response = 404%Z ->
        fst (get_pokemon_stats env (JStr a) []) = inl (not_found a)
        /\ fst (get_pokemon_stats env (JStr b) []) = inl (not_found b))
  /\ get_pokemon_abilities env (JStr a) []
     = get_pokemon_abilities env (JStr b) [].
Proof.
  intros env a b not_found.
  assert (Hsame : same_name env a b) by reflexivity.
  destruct (same_request_and_result_up_to_case_and_padding env a b []
              strip_lower lower_empty Hsame) as (H1 & H2 & H3 & H4).
  split; [exact Hsame|]. split; [exact H1|]. split; [|split].
  - apply H2. intros response Hget. injection Hget as <-. discriminate.
  - exact H3.
  - apply H4; discriminate.
Defined.

(** C10, as stated, fails: the text of the error that [get_pokemon_stats]
    raises on a 404 quotes the argument as it was given, so two arguments
    that differ in case only do not produce the same result. *)
Lemma stats_not_found_quotes_the_argument_as_given :
  let env := Samples.S.env_of Samples.S.pokeapi in
  same_name env "Mew2" "mew2"
  /\ snd (get_pokemon_stats env (JStr "Mew2") [])
     = snd (get_pokemon_stats env (JStr "mew2") [])
  /\ fst (get_pokemon_stats env (JStr "Mew2") [])
     <> fst (get_pokemon_stats env (JStr "mew2") []).
Proof.
  intros env. split; [|split].
  - reflexivity.
  - reflexivity.
  - vm_compute. discriminate.
Qed.

(** The empty string and a blank string are told apart by
    [get_pokemon_abilities]: its test for emptiness comes before the
    stripping, where [get_pokemon_stats] tests the stripped name. *)
Example abilities_blank_name :
  let env := Samples.S.env_of Samples.S.pokeapi in
  snd (get_pokemon_abilities env (JStr "") []) = []
  /\ snd (get_pokemon_abilities env (JStr " ") [])
     = [EvGet (JStr "https://pokeapi.co/api/v2/pokemon/") 10]
  /\ snd (get_pokemon_stats env (JStr " ") []) = [].
Proof. repeat split; reflexivity. Qed.

(** *** The translation of upstream failures *)

Lemma abilities_not_found (env : Env) (given : string) (tr : Trace)
    (response : Response) :
  given <> "" ->
  env_get env tr (JStr (base_url ++ "/pokemon/" ++ str_strip env (str_lower env given)))
  = inr response ->
  status_code response = 404%Z ->
  get_pokemon_abilities env (JStr given) tr
  = (inl (mk_exn Exception
            ("An unexpected error occurred: "
               ++ "Pokémon '" ++ str_strip env (str_lower env given) ++ "' not found")),
     (tr ++ [EvGet (JStr (base_url ++ "/pokemon/" ++ str_strip env (str_lower env given)))
               10])%list).
Proof.
  intros Hg Hget H404. unfold get_pokemon_abilities, check_identifier.
  rewrite truthy_str.
  destruct (String.eqb_spec given "") as [E|_]; [contradiction|].
  cbn [negb]. unfold bind at 1, lift at 1.
  unfold try_except, bind, lift, requests_get. cbn [str_limited str]. rewrite Hget, H404.
  cbn [Z.eqb Pos.eqb]. unfold raise. decide_clauses. reflexivity.
Qed.

(** A request that times out or cannot connect is raised again as a
    [RequestException], by both tools. *)
Lemma stats_transport (env : Env) (given : string) (tr : Trace) (e : exn) :
  str_strip env given <> "" ->
  env_get env tr (JStr (base_url ++ "/pokemon/" ++ str_strip env (str_lower env given)))
  = inl e ->
  isinstance e Timeout || isinstance e ConnectionError = true ->
  exists text,
    fst (get_pokemon_stats env (JStr given) tr)
    = inl (mk_exn RequestException text).
Proof.
  intros Hg Hget Hc. unfold get_pokemon_stats. rewrite stats_guard.
  destruct (String.eqb_spec (str_strip env given) "") as [E|_]; [contradiction|].
  unfold try_except, bind, requests_get. rewrite Hget. cbn [find_clause].
  destruct (isinstance e Timeout); [unfold raise; cbn [fst]; eauto|].
  cbn [orb] in Hc.
  destruct (isinstance e ConnectionError); [|discriminate].
  unfold raise; cbn [fst]; eauto.
Qed.

Lemma abilities_transport (env : Env) (given : string) (tr : Trace) (e : exn) :
  given <> "" ->
  env_get env tr (JStr (base_url ++ "/pokemon/" ++ str_strip env (str_lower env given)))
  = inl e ->
  isinstance e Timeout || isinstance e ConnectionError = true ->
  exists text,
    fst (get_pokemon_abilities env (JStr given) tr)
    = inl (mk_exn RequestException text).
Proof.
  intros Hg Hget Hc. unfold get_pokemon_abilities, check_identifier.
  rewrite truthy_str.
  destruct (String.eqb_spec given "") as [E|_]; [contradiction|].
  cbn [negb]. unfold bind at 1, lift at 1.
  unfold try_except, bind, lift, requests_get. cbn [str_limited str]. rewrite Hget. cbn [find_clause].
  destruct (isinstance e Timeout); [unfold raise; cbn [fst]; eauto|].
  cbn [orb] in Hc.
  destruct (isinstance e ConnectionError); [|discriminate].
  unfold raise; cbn [fst]; eauto.
Qed.

(** C6, on the code. A 404 makes both tools raise [ValueError] inside their
    [try] block, where the last clause, [except Exception], catches it: what
    leaves the tool is a plain [Exception] that reads "An unexpected error
    occurred ...", of the same class as the error for a missing key. Only
    the transport errors keep a class of their own. *)
Theorem not_found_leaves_as_unexpected_error :
  let api := Samples.S.env_of Samples.S.pokeapi in
  let empty_reply :=
    Samples.S.env_of (Samples.S.always (Samples.S.ok "u" (JObj []))) in
  fst (get_pokemon_stats api (JStr "missingno") [])
  = inl (mk_exn Exception
           ("An unexpected error occurred while processing Pokémon stats: "
              ++ "Pokémon 'missingno' not found. "
              ++ "Please check the spelling and try again."))
  /\ fst (get_pokemon_abilities api (JStr "missingno") [])
     = inl (mk_exn Exception
              "An unexpected error occurred: Pokémon 'missingno' not found")
  /\ fst (get_pokemon_stats empty_reply (JStr "missingno") [])
     = inl (mk_exn Exception
              "Unexpected API response format. Missing expected field: 'stats'")
  /\ fst (get_pokemon_abilities empty_reply (JStr "missingno") [])
     = inl (mk_exn Exception
              "Unexpected API response structure. Missing key: 'name'")
  /\ fst (get_pokemon_stats (Samples.S.env_of Samples.S.timing_out)
            (JStr "missingno") [])
     = inl (mk_exn RequestException
              "Request timed out while fetching Pokémon data. Please try again.")
  /\ fst (get_pokemon_abilities (Samples.S.env_of Samples.S.unreachable)
            (JStr "missingno") [])
     = inl (mk_exn RequestException
              "Connection error. Please check your internet connection.").
Proof. repeat split; reflexivity. Qed.

(** *** The sum of the base stats *)

Lemma stat_step_inv (bs : list (Json * Json)) (sd : list StatDetail) (t : Z)
    (entry : Json) (acc' : list (Json * Json) * list StatDetail * Z) :
  stat_step (bs, sd, t) entry = inr acc' ->
  exists k v ev bs' t',
    acc' = (bs', (sd ++ [{| stat_name := k; base_stat := v; effort := ev |}])%list,
            t')
    /\ dict_set bs k v = inr bs'
    /\ int_add "+=" t v = inr t'.
Proof.
  unfold stat_step, ebind. intros H.
  repeat match type of H with
         | context [match ?x with _ => _ end] =>
             destruct x eqn:?; try discriminate
         end.
  injection H as <-. eauto 10.
Qed.

Lemma stat_loop_grows (entries : list Json) :
  forall bs sd t bs' sd' t' (tr tr' : Trace),
    for_each entries (fun acc e => lift (stat_step acc e)) (bs, sd, t) tr
    = (inr (bs', sd', t'), tr') ->
    exists more, sd' = (sd ++ more)%list.
Proof.
  induction entries as [|entry entries IH]; intros bs sd t bs' sd' t' tr tr' H.
  - injection H as <- <- <- _. exists []. now rewrite app_nil_r.
  - cbn [for_each] in H. unfold bind at 1, lift at 1 in H.
    destruct (stat_step (bs, sd, t) entry) as [e|acc1] eqn:E; [discriminate|].
    apply stat_step_inv in E as (k & v & ev & bs1 & t1 & -> & _ & _).
    apply IH in H as [more ->]. rewrite <- app_assoc. eauto.
Qed.

(** The invariant of the loop over the stats, for names listed once:
    the dict has the names of the details, in their order, and the total
    is the sum of its values. *)
Lemma stat_loop_invariant (entries : list Json) :
  forall bs sd t bs' sd' t' (tr tr' : Trace),
    for_each entries (fun acc e => lift (stat_step acc e)) (bs, sd, t) tr
    = (inr (bs', sd', t'), tr') ->
    map fst bs = map stat_name sd ->
    sum_from 0 (values bs) = inr t ->
    distinct_keys (map stat_name sd') = true ->
    map fst bs' = map stat_name sd' /\ sum_from 0 (values bs') = inr t'.
Proof.
  induction entries as [|entry entries IH];
    intros bs sd t bs' sd' t' tr tr' H Hk Hs Hd.
  - injection H as <- <- <- _. auto.
  - cbn [for_each] in H. unfold bind at 1, lift at 1 in H.
    destruct (stat_step (bs, sd, t) entry) as [e|acc1] eqn:E; [discriminate|].
    apply stat_step_inv in E as (k & v & ev & bs1 & t1 & -> & Hset & Hadd).
    destruct (stat_loop_grows _ _ _ _ _ _ _ _ _ H) as [more Hmore].
    apply (IH _ _ _ _ _ _ _ _ H); [| |exact Hd].
    + (* the name is new *)
      rewrite Hmore, map_app in Hd. apply distinct_keys_prefix in Hd.
      rewrite map_app in Hd. cbn [map stat_name] in Hd.
      apply distinct_keys_app in Hd as [_ Hnew]. rewrite <- Hk in Hnew.
      unfold dict_set in Hset.
      assert (bs1 = (bs ++ [(k, v)])%list) as ->.
      { rewrite <- (dict_put_new bs k v Hnew).
        destruct k; congruence. }
      rewrite !map_app, Hk. reflexivity.
    + rewrite Hmore, map_app in Hd. apply distinct_keys_prefix in Hd.
      rewrite map_app in Hd. cbn [map stat_name] in Hd.
      apply distinct_keys_app in Hd as [_ Hnew]. rewrite <- Hk in Hnew.
      unfold dict_set in Hset.
      assert (bs1 = (bs ++ [(k, v)])%list) as ->.
      { rewrite <- (dict_put_new bs k v Hnew).
        destruct k; congruence. }
      unfold values. rewrite map_app. cbn [map snd].
      rewrite sum_from_app. fold (values bs). rewrite Hs. cbn [ebind].
      exact (int_add_op _ _ _ _ _ Hadd).
Qed.

(** What a successful call of [get_pokemon_stats] has gone through. *)
Lemma stats_success_inv (env : Env) (arg : Json) (tr tr' : Trace)
    (r : StatsResult) :
  get_pokemon_stats env arg tr = (inr r, tr') ->
  exists given response data data_stats entries,
    arg = JStr given
    /\ env_get env tr (JStr (base_url ++ "/pokemon/" ++ str_strip env (str_lower env given)))
       = inr response
    /\ json response = inr data
    /\ getitem data "stats" = inr data_stats
    /\ iterate data_stats = inr entries
    /\ for_each entries (fun acc e => lift (stat_step acc e)) ([], [], 0%Z)
         (tr ++ [EvGet (JStr (base_url ++ "/pokemon/" ++ str_strip env (str_lower env given)))
                   10])%list
       = (inr (base_stats r, stat_details r, total_base_stats r), tr')
    /\ getitem data "name" = inr (pokemon_name r)
    /\ getitem data "id" = inr (pokemon_id r).
Proof.
  unfold get_pokemon_stats. intros H.
  destruct arg as [| | |given| |]; try discriminate.
  destruct (_ || _); [discriminate|].
  unfold try_except, bind, lift, requests_get, raise, ret in H.
  repeat split_on H.
  injection H as <- <-. subst. cbn [base_stats stat_details total_base_stats
                                     pokemon_name pokemon_id].
  do 5 eexists. repeat split; eauto.
Qed.

(** C7. When [get_pokemon_stats] succeeds on a reply that lists each stat
    once, [total_base_stats] is the sum of the values of [base_stats], and
    [stat_details] has one entry per stat of [base_stats], under the same
    name and in the same order (so six of each for the six stats of the
    PokéAPI). *)
Theorem total_base_stats_is_sum_of_base_stats
    (env : Env) (arg : Json) (tr tr' : Trace) (r : StatsResult) :
  get_pokemon_stats env arg tr = (inr r, tr') ->
  distinct_keys (map stat_name (stat_details r)) = true ->
  sum (values (base_stats r)) = inr (total_base_stats r)
  /\ map stat_name (stat_details r) = map fst (base_stats r)
  /\ List.length (stat_details r) = List.length (base_stats r).
Proof.
  intros H Hd.
  apply stats_success_inv in H
    as (given & response & data & data_stats & entries & _ & _ & _ & _ & _
        & Hloop & _).
  destruct (stat_loop_invariant _ _ _ _ _ _ _ _ _ Hloop eq_refl eq_refl Hd)
    as [Hk Hs].
  repeat split; [exact Hs | now rewrite Hk |].
  rewrite <- (length_map stat_name), <- (length_map fst (base_stats r)).
  now rewrite Hk.
Qed.

(** The reply used below lists six stats under six names. *)
Lemma total_base_stats_of_charizard :
  let r := {| pokemon_name := JStr "charizard"; pokemon_id := JInt 6;
              base_stats := [(JStr "hp", JInt 78); (JStr "attack", JInt 84);
                             (JStr "defense", JInt 78);
                             (JStr "special-attack", JInt 109);
                             (JStr "special-defense", JInt 85);
                             (JStr "speed", JInt 100)];
              total_base_stats := 534;
              stat_details :=
                [mk_StatDetail (JStr "hp") (JInt 78) (JInt 0);
                 mk_StatDetail (JStr "attack") (JInt 84) (JInt 0);
                 mk_StatDetail (JStr "defense") (JInt 78) (JInt 0);
                 mk_StatDetail (JStr "special-attack") (JInt 109) (JInt 3);
                 mk_StatDetail (JStr "special-defense") (JInt 85) (JInt 0);
                 mk_StatDetail (JStr "speed") (JInt 100) (JInt 0)] |} in
  sum (values (base_stats r)) = inr (total_base_stats r)
  /\ map stat_name (stat_details r) = map fst (base_stats r)
  /\ List.length (stat_details r) = List.length (base_stats r).
Proof.
  intros r.
  apply (total_base_stats_is_sum_of_base_stats
           (Samples.S.env_of Samples.S.pokeapi) (JStr "  ChariZard ") []
           [EvGet (JStr "https://pokeapi.co/api/v2/pokemon/charizard") 10] r);
    reflexivity.
Defined.

(** Without the condition the two numbers part: on a reply that lists
    [hp] twice the dict keeps the second value, the total has both. *)
Example stat_listed_twice :
  match fst (get_pokemon_stats
               (Samples.S.env_of (Samples.S.always
                                    (Samples.S.ok "u" Samples.S.twice_hp)))
               (JStr "glitch") []) with
  | inr r => total_base_stats r = 30%Z
             /\ sum (values (base_stats r)) = inr 20%Z
  | inl _ => False
  end.
Proof. vm_compute. split; reflexivity. Qed.

End ServerSpec.

(* ===================================================================== *)
(** ** The chat client: properties *)
(* ===================================================================== *)

Module ClientSpec.
Import Py Client PyFacts.

(** Brings the lists of events to one shape: appends nested to the right. *)
Ltac flatten := repeat (progress (rewrite <- ?app_assoc; cbn [app])).
Ltac flatten_in H :=
  repeat (progress (rewrite <- ?app_assoc in H; cbn [app] in H)).

Section Turn.

Variable env : Env.
Variable self : PokeBot.

Lemma calls_made_app (a b : Trace) :
  calls_made (a ++ b) = calls_made a ++ calls_made b.
Proof. apply flat_map_app. Qed.

Lemma requests_made_app (a b : Trace) :
  requests_made (a ++ b) = requests_made a ++ requests_made b.
Proof. apply flat_map_app. Qed.

(** The body of the loop over the tool calls, step by step. *)
Lemma dispatch_run (tool_call : ToolCall) (fr : Frame) :
  let name := fn_name (tc_function tool_call) in
  dispatch env tool_call fr
  = match json_loads env (fn_arguments (tc_function tool_call)) with
    | inl e =>
        (inl e, {| messages := messages fr;
                   trace := trace fr ++ [calling_line tool_call] |})
    | inr args =>
        match env_call_tool env (trace fr ++ [calling_line tool_call])
                name args with
        | inl e =>
            (inl e, {| messages := messages fr;
                       trace := trace fr ++ [calling_line tool_call;
                                             EvCallTool name args] |})
        | inr result =>
            match normalize (content result) with
            | inl e =>
                (inl e, {| messages := messages fr;
                           trace := trace fr ++ [calling_line tool_call;
                                                 EvCallTool name args] |})
            | inr text =>
                (inr tt,
                 {| messages := messages fr
                                ++ [MsgTool (tc_id tool_call) name text];
                    trace := trace fr ++ [calling_line tool_call;
                                          EvCallTool name args;
                                          result_line tool_call text] |})
            end
        end
    end.
Proof.
  unfold dispatch, bind, lift, print, emit, session_call_tool, messages_append,
    calling_line, result_line.
  cbn [messages trace].
  destruct (json_loads env _) as [e|args]; [reflexivity|].
  rewrite <- !app_assoc. cbn [app].
  destruct (env_call_tool env _ _ args) as [e|result]; [reflexivity|].
  destruct (normalize (content result)) as [e|text]; [reflexivity|].
  rewrite <- !app_assoc. reflexivity.
Qed.

Lemma frame_eta (fr : Frame) :
  fr = {| messages := messages fr ++ []; trace := trace fr ++ [] |}.
Proof. destruct fr. cbn. now rewrite !app_nil_r. Qed.

(** The loop over the tool calls: when it ends, every call has been made
    and has its tool message; when it raises, the calls before the failing
    one have theirs. No completion request is issued inside the loop. *)
Lemma dispatch_loop (tool_calls : list ToolCall) :
  forall (fr : Frame) (r : exn + unit) (fr' : Frame),
    for_each tool_calls (fun _ tool_call => dispatch env tool_call) tt fr
    = (r, fr') ->
    match r with
    | inr _ =>
        exists tool_messages events,
          fr' = {| messages := messages fr ++ tool_messages;
                   trace := trace fr ++ events |}
          /\ Forall2 paired tool_calls tool_messages
          /\ Forall2 (called env) tool_calls (calls_made events)
          /\ requests_made events = []
    | inl e =>
        exists done tool_call rest tool_messages events last_event,
          tool_calls = done ++ tool_call :: rest
          /\ fr' = {| messages := messages fr ++ tool_messages;
                      trace := trace fr ++ events ++ [last_event] |}
          /\ Forall2 paired done tool_messages
          /\ requests_made (events ++ [last_event]) = []
    end.
Proof.
  induction tool_calls as [|tc tcs IH]; intros fr r fr' H.
  - injection H as <- <-. exists [], []. 
    repeat split; [apply frame_eta | constructor | constructor].
  - cbn [for_each] in H. unfold bind at 1 in H. rewrite dispatch_run in H.
    destruct (json_loads env _) as [e|args] eqn:Eargs.
    { injection H as <- <-. exists [], tc, tcs, [], [], (calling_line tc).
      rewrite app_nil_r. repeat split; constructor. }
    destruct (env_call_tool env _ _ args) as [e|result].
    { injection H as <- <-.
      exists [], tc, tcs, [], [calling_line tc],
        (EvCallTool (fn_name (tc_function tc)) args).
      rewrite app_nil_r. repeat split; constructor. }
    destruct (normalize (content result)) as [e|text].
    { injection H as <- <-.
      exists [], tc, tcs, [], [calling_line tc],
        (EvCallTool (fn_name (tc_function tc)) args).
      rewrite app_nil_r. repeat split; constructor. }
    apply IH in H. cbn [messages trace] in H. destruct r as [e|u].
    + destruct H as (done & tc' & rest & tms & events & last_event
                     & -> & -> & Hp & Hr).
      exists (tc :: done), tc', rest,
        (MsgTool (tc_id tc) (fn_name (tc_function tc)) text :: tms),
        ([calling_line tc; EvCallTool (fn_name (tc_function tc)) args;
          result_line tc text] ++ events), last_event.
      rewrite <- !app_assoc. repeat split.
      * constructor; [eexists; reflexivity | exact Hp].
      * exact Hr.
    + destruct H as (tms & events & -> & Hp & Hc & Hr).
      exists (MsgTool (tc_id tc) (fn_name (tc_function tc)) text :: tms),
        ([calling_line tc; EvCallTool (fn_name (tc_function tc)) args;
          result_line tc text] ++ events).
      rewrite <- !app_assoc. repeat split.
      * constructor; [eexists; reflexivity | exact Hp].
      * cbn [app calls_made flat_map]. constructor; [|exact Hc].
        split; [reflexivity | exact Eargs].
      * exact Hr.
Qed.

Lemma truthy_calls_some (tool_calls : option (list ToolCall)) :
  truthy_calls tool_calls = true -> tool_calls = Some (calls_of tool_calls).
Proof. destruct tool_calls as [[|]|]; simpl; congruence. Qed.

(** Every call of [process_query] goes one of the five ways. *)
Lemma process_query_turn (query : string) (fr0 : Frame)
    (r : exn + list Message) (fr : Frame) :
  process_query env self query fr0 = (r, fr) ->
  turn env self query (trace fr0) r fr.
Proof.
  unfold process_query, bind at 1, set_messages.
  unfold bind at 1, print, emit. cbn [messages trace].
  unfold bind at 1, completions_create at 1. cbn [messages trace].
  fold (user_line query).
  destruct (env_create env _ _ _ _) as [e|response] eqn:E1.
  { intros H. injection H as <- <-. rewrite <- app_assoc.
    now apply first_request_fails. }
  destruct (truthy_calls (cm_tool_calls response)) eqn:Et.
  2:{ unfold bind, ret. cbn [messages trace]. intros H. injection H as <- <-.
      rewrite <- !app_assoc. now apply no_tool_calls. }
  unfold bind at 1. cbn [messages trace].
  unfold bind at 1, messages_append. cbn [messages trace].
  unfold bind at 1. rewrite <- !app_assoc. cbn [app].
  change (for_each (calls_of (cm_tool_calls response))
            (fun _ tool_call => dispatch env tool_call) tt _)
    with (for_each (calls_of (cm_tool_calls response))
            (fun _ tool_call => dispatch env tool_call) tt
            (after_response self query (trace fr0) response)).
  destruct (for_each _ _ tt _) as [[e|[]] fr2] eqn:Eloop.
  - intros H. injection H as <- <-.
    exact (dispatch_raises env self query (trace fr0) response e fr2 E1 Et
             Eloop).
  - unfold bind, completions_create, ret, print, emit. cbn [messages trace].
    intros H.
    match type of H with
    | match ?x with _ => _ end = _ => destruct x as [e|final] eqn:E2
    end; injection H as <- <-.
    + exact (second_request_fails env self query (trace fr0) response e fr2
               E1 Et Eloop E2).
    + rewrite <- app_assoc.
      exact (turn_completes env self query (trace fr0) response final fr2
               E1 Et Eloop E2).
Qed.

(** And nothing else is one of the five ways. *)
Lemma turn_process_query (query : string) (fr0 : Frame)
    (r : exn + list Message) (fr : Frame) :
  turn env self query (trace fr0) r fr ->
  process_query env self query fr0 = (r, fr).
Proof.
  intros H.
  unfold process_query, bind at 1, set_messages.
  unfold bind at 1, print, emit. cbn [messages trace].
  unfold bind at 1, completions_create at 1. cbn [messages trace].
  fold (user_line query).
  assert (Hloop : forall response (k : unit -> M Frame (list Message)),
    bind (fun fr1 : Frame =>
            (inr tt, {| messages := messages fr1;
                        trace := trace fr1 ++ [calls_line response] |}))
      (fun _ =>
         bind (messages_append (MsgResponse response))
           (fun _ =>
              bind (for_each (calls_of (cm_tool_calls response))
                      (fun _ tool_call => dispatch env tool_call) tt) k))
      {| messages := [MsgUser query];
         trace := (trace fr0 ++ [user_line query])
                    ++ [EvCompletion (llm_model self) [MsgUser query]
                          (available_tools self)] |}
    = bind (for_each (calls_of (cm_tool_calls response))
              (fun _ tool_call => dispatch env tool_call) tt) k
        (after_response self query (trace fr0) response)).
  { intros response k. unfold bind at 1. cbn [messages trace].
    unfold bind at 1, messages_append. cbn [messages trace].
    unfold after_response, request. now rewrite <- !app_assoc. }
  inversion H as [ e E1 | response E1 Et | response e fr2 E1 Et El
                 | response e fr2 E1 Et El E2
                 | response final fr2 E1 Et El E2 ]; subst; clear H;
    unfold answer in E1; rewrite E1; [now rewrite <- app_assoc| |..];
    rewrite Et.
  - unfold bind, ret. cbn [messages trace]. now rewrite <- !app_assoc.
  - unfold calls_line in Hloop. rewrite Hloop. unfold bind. now rewrite El.
  - unfold calls_line in Hloop. rewrite Hloop. unfold bind at 1. rewrite El.
    unfold bind, completions_create. unfold answer in E2. now rewrite E2.
  - unfold calls_line in Hloop. rewrite Hloop. unfold bind at 1. rewrite El.
    unfold bind, completions_create, ret. unfold answer in E2. rewrite E2.
    cbn [messages trace]. now rewrite <- !app_assoc.
Qed.

Lemma item_texts_of_text (texts : list string) :
  item_texts (map TextContent texts) = inr texts.
Proof.
  induction texts as [|t texts IH]; [reflexivity|].
  cbn [map item_texts item_text]. now rewrite IH.
Qed.

(** The loop over the tool calls ends well when [json.loads] reads the
    arguments of every call and the session answers every call with text
    items. *)
Lemma dispatch_loop_ends (tool_calls : list ToolCall) :
  (forall s, exists args, json_loads env s = inr args) ->
  (forall tr name args, exists texts flag,
      env_call_tool env tr name args
      = inr {| content := ContentList (map TextContent texts);
               isError := flag |}) ->
  forall fr, exists fr',
    for_each tool_calls (fun _ tool_call => dispatch env tool_call) tt fr
    = (inr tt, fr').
Proof.
  intros Hj Hs. induction tool_calls as [|tc tcs IH]; intros fr.
  - exists fr. reflexivity.
  - cbn [for_each]. unfold bind at 1. rewrite dispatch_run.
    destruct (Hj (fn_arguments (tc_function tc))) as [args ->].
    destruct (Hs (trace fr ++ [calling_line tc]) (fn_name (tc_function tc))
                args) as (texts & flag & ->).
    cbn [content normalize].
    rewrite item_texts_of_text. apply IH.
Qed.

(** A turn ends without an exception when nothing outside raises: the
    endpoint answers every request, [json.loads] reads every argument
    string and the session answers every call with text items. *)
Lemma turn_ends_well (query : string) (fr0 : Frame) :
  (forall tr m ms ts, exists response, env_create env tr m ms ts = inr response) ->
  (forall s, exists args, json_loads env s = inr args) ->
  (forall tr name args, exists texts flag,
      env_call_tool env tr name args
      = inr {| content := ContentList (map TextContent texts);
               isError := flag |}) ->
  exists result fr, process_query env self query fr0 = (inr result, fr).
Proof.
  intros Hc Hj Hs.
  destruct (Hc (trace fr0 ++ [user_line query]) (llm_model self)
              [MsgUser query] (available_tools self)) as [response E1].
  destruct (truthy_calls (cm_tool_calls response)) eqn:Et.
  - destruct (dispatch_loop_ends (calls_of (cm_tool_calls response)) Hj Hs
                (after_response self query (trace fr0) response))
      as [fr2 El].
    destruct (Hc (trace fr2) (llm_model self) (messages fr2)
                (available_tools self)) as [final E2].
    do 2 eexists. apply turn_process_query.
    exact (turn_completes env self query (trace fr0) response final fr2
             E1 Et El E2).
  - do 2 eexists. apply turn_process_query.
    exact (no_tool_calls env self query (trace fr0) response E1 Et).
Qed.

(** The loop over the tool calls when it raises: the calls before the
    failing one have been made and have their tool messages; the failing
    one has been made too, unless it is [json.loads] that raised. *)
Lemma dispatch_loop_raises (tool_calls : list ToolCall) :
  forall (fr : Frame) (e : exn) (fr' : Frame),
    for_each tool_calls (fun _ tool_call => dispatch env tool_call) tt fr
    = (inl e, fr') ->
    exists done tool_call rest tool_messages events,
      tool_calls = done ++ tool_call :: rest
      /\ messages fr' = messages fr ++ tool_messages
      /\ trace fr' = trace fr ++ events
      /\ Forall2 paired done tool_messages
      /\ requests_made events = []
      /\ (Forall2 (called env) done (calls_made events)
          \/ Forall2 (called env) (done ++ [tool_call]) (calls_made events)).
Proof.
  induction tool_calls as [|tc tcs IH]; intros fr e fr' H; [discriminate|].
  cbn [for_each] in H. unfold bind at 1 in H. rewrite dispatch_run in H.
  destruct (json_loads env _) as [e1|args] eqn:Eargs.
  { injection H as <- <-. exists [], tc, tcs, [], [calling_line tc].
    cbn [messages trace app]. rewrite app_nil_r.
    split; [reflexivity|]. split; [reflexivity|]. split; [reflexivity|].
    split; [constructor|]. split; [reflexivity|]. left. constructor. }
  assert (Hcalled : called env tc (fn_name (tc_function tc), args)).
  { split; [reflexivity | exact Eargs]. }
  destruct (env_call_tool env _ _ args) as [e1|result].
  { injection H as <- <-.
    exists [], tc, tcs, [],
      [calling_line tc; EvCallTool (fn_name (tc_function tc)) args].
    cbn [messages trace app]. rewrite app_nil_r.
    split; [reflexivity|]. split; [reflexivity|]. split; [reflexivity|].
    split; [constructor|]. split; [reflexivity|].
    right. constructor; [exact Hcalled | constructor]. }
  destruct (normalize (content result)) as [e1|text].
  { injection H as <- <-.
    exists [], tc, tcs, [],
      [calling_line tc; EvCallTool (fn_name (tc_function tc)) args].
    cbn [messages trace app]. rewrite app_nil_r.
    split; [reflexivity|]. split; [reflexivity|]. split; [reflexivity|].
    split; [constructor|]. split; [reflexivity|].
    right. constructor; [exact Hcalled | constructor]. }
  apply IH in H. cbn [messages trace] in H.
  destruct H as (done & tc' & rest & tms & events & -> & Hm & Ht & Hp & Hr & Hc).
  exists (tc :: done), tc', rest,
    (MsgTool (tc_id tc) (fn_name (tc_function tc)) text :: tms),
    ([calling_line tc; EvCallTool (fn_name (tc_function tc)) args;
      result_line tc text] ++ events).
  rewrite Hm, Ht, <- !app_assoc. cbn [app].
  repeat split.
  - constructor; [eexists; reflexivity | exact Hp].
  - exact Hr.
  - cbn [calls_made flat_map app]. fold (calls_made events).
    destruct Hc as [Hc|Hc]; [left | right]; constructor; assumption.
Qed.

Lemma calls_of_falsy (tool_calls : option (list ToolCall)) :
  truthy_calls tool_calls = false -> calls_of tool_calls = [].
Proof. destruct tool_calls as [[|]|]; simpl; congruence. Qed.

Lemma calls_of_truthy (tool_calls : option (list ToolCall)) :
  truthy_calls tool_calls = true -> calls_of tool_calls <> [].
Proof. destruct tool_calls as [[|]|]; simpl; congruence. Qed.

(** C1, as the code has it. Let [n] be the number of tool calls of the
    first response. In a turn that ends without an exception, the session
    is called exactly [n] times, once for each tool call and in their
    order, with the name asked for and the arguments parsed. If [n = 0],
    the list [messages] holds the user message alone, one completion
    request has been sent, and the message returned is its answer. If
    [n >= 1], [messages] holds the user message, the response with its
    tool calls and [n] tool messages in the order of the tool calls, each
    with the id and the name of its tool call; this list is what the
    second request sends, and the message returned is the answer to that
    request. In both cases the final assistant message is not appended to
    [messages]: it is the one element of the list returned.

    In a turn that raises, the session has been called for the first tool
    calls only, in their order: those that went through and, if it was
    made, the call that raised. [messages] holds the user message alone if
    it is the first request that raised, and otherwise the user message,
    the response and the tool messages of the calls that went through. *)
Theorem turn_messages_and_calls (query : string) (fr0 : Frame)
    (r : exn + list Message) (fr : Frame) :
  process_query env self query fr0 = (r, fr) ->
  exists events,
    trace fr = trace fr0 ++ events
    /\ match r with
       | inr result =>
           exists response final,
             answer env self (trace fr0 ++ [user_line query]) [MsgUser query]
             = inr response
             /\ result = [MsgAssistant (cm_content final)]
             /\ Forall2 (called env) (calls_of (cm_tool_calls response))
                  (calls_made events)
             /\ List.length (calls_made events)
                = List.length (calls_of (cm_tool_calls response))
             /\ match calls_of (cm_tool_calls response) with
                | [] =>
                    final = response
                    /\ messages fr = [MsgUser query]
                    /\ requests_made events = [[MsgUser query]]
                | tool_calls =>
                    exists tool_messages before,
                      messages fr
                      = MsgUser query :: MsgResponse response :: tool_messages
                      /\ Forall2 paired tool_calls tool_messages
                      /\ List.length tool_messages = List.length tool_calls
                      /\ requests_made events = [[MsgUser query]; messages fr]
                      /\ events = before ++ [request self (messages fr);
                                             answer_line final]
                      /\ answer env self (trace fr0 ++ before) (messages fr)
                         = inr final
                end
       | inl e =>
           exists made,
             Forall2 (called env) made (calls_made events)
             /\ match answer env self (trace fr0 ++ [user_line query])
                        [MsgUser query] with
                | inl e1 =>
                    e = e1 /\ made = [] /\ messages fr = [MsgUser query]
                | inr response =>
                    exists done rest tool_messages,
                      calls_of (cm_tool_calls response) = done ++ rest
                      /\ (made = done
                          \/ exists tool_call rest',
                               rest = tool_call :: rest'
                               /\ made = done ++ [tool_call])
                      /\ messages fr
                         = MsgUser query :: MsgResponse response
                             :: tool_messages
                      /\ Forall2 paired done tool_messages
                end
       end.
Proof.
  intros H. apply process_query_turn in H.
  set (head := [user_line query; request self [MsgUser query]]).
  inversion H as [ e E1 | response E1 Et | response e fr2 E1 Et Eloop
                 | response e fr2 E1 Et Eloop E2
                 | response final fr2 E1 Et Eloop E2 ];
    subst; clear H; cbn [trace messages].
  - (* the first request raises *)
    exists head. split; [reflexivity|]. exists []. rewrite E1.
    repeat split. constructor.
  - (* no tool calls *)
    exists (head ++ [answer_line response]). split; [reflexivity|].
    exists response, response.
    rewrite (calls_of_falsy _ Et).
    repeat split; first [assumption | reflexivity | constructor].
  - (* the loop over the tool calls raises *)
    apply dispatch_loop_raises in Eloop.
    destruct Eloop as (done & tc & rest & tms & events & Hcalls & Hm & Ht
                       & Hp & _ & Hc).
    cbn [messages trace after_response] in Hm, Ht.
    exists ((head ++ [calls_line response]) ++ events).
    split; [rewrite Ht; now rewrite <- !app_assoc|].
    assert (Hmade : calls_made ((head ++ [calls_line response]) ++ events)
                    = calls_made events).
    { now rewrite calls_made_app. }
    rewrite Hmade, E1.
    destruct Hc as [Hc|Hc].
    + exists done. split; [exact Hc|]. exists done, (tc :: rest), tms.
      repeat split; [exact Hcalls | now left | exact Hm | exact Hp].
    + exists (done ++ [tc]). split; [exact Hc|].
      exists done, (tc :: rest), tms.
      repeat split; [exact Hcalls | right; now exists tc, rest
                    | exact Hm | exact Hp].
  - (* the second request raises *)
    apply dispatch_loop in Eloop.
    destruct Eloop as (tms & events & -> & Hp & Hc & Hr).
    cbn [messages trace after_response] in *.
    exists ((head ++ [calls_line response]) ++ events
              ++ [request self (MsgUser query :: MsgResponse response :: tms)]).
    split; [now rewrite <- !app_assoc|].
    assert (Hmade :
      calls_made ((head ++ [calls_line response]) ++ events
                    ++ [request self
                          (MsgUser query :: MsgResponse response :: tms)])
      = calls_made events).
    { rewrite !calls_made_app. cbn. now rewrite app_nil_r. }
    rewrite Hmade, E1.
    exists (calls_of (cm_tool_calls response)). split; [exact Hc|].
    exists (calls_of (cm_tool_calls response)), [], tms.
    rewrite app_nil_r. repeat split; [now left | exact Hp].
  - (* the turn completes *)
    apply dispatch_loop in Eloop.
    destruct Eloop as (tms & events & -> & Hp & Hc & Hr).
    cbn [messages trace after_response] in *.
    exists ((head ++ [calls_line response]) ++ events
              ++ [request self (MsgUser query :: MsgResponse response :: tms);
                  answer_line final]).
    split; [now rewrite <- !app_assoc|].
    assert (Hmade :
      calls_made ((head ++ [calls_line response]) ++ events
                    ++ [request self
                          (MsgUser query :: MsgResponse response :: tms);
                        answer_line final])
      = calls_made events).
    { rewrite !calls_made_app. cbn. now rewrite app_nil_r. }
    rewrite Hmade.
    exists response, final.
    split; [exact E1|].
    split; [reflexivity|].
    split; [exact Hc|].
    split; [symmetry; exact (Forall2_length Hc)|].
    pose proof (calls_of_truthy _ Et) as Hne.
    destruct (calls_of (cm_tool_calls response)) as [|tc tcs] eqn:Ecalls;
      [contradiction|].
    exists tms, ((head ++ [calls_line response]) ++ events).
    split; [reflexivity|].
    split; [exact Hp|].
    split; [symmetry; exact (Forall2_length Hp)|].
    split; [rewrite !requests_made_app, Hr; reflexivity|].
    split; [now rewrite <- !app_assoc|].
    rewrite <- E2. f_equal. now rewrite <- !app_assoc.
Qed.

(** *** Failures of the tool session *)

(** The loop over tool calls that the session answers. *)
Lemma answered_loop (tr tr' : Trace) (tool_calls : list ToolCall)
    (results : list CallToolResult) (texts : list string) :
  answered env tr tool_calls results texts tr' ->
  forall ms,
    for_each tool_calls (fun _ tool_call => dispatch env tool_call) tt
      {| messages := ms; trace := tr |}
    = (inr tt, {| messages := ms ++ tool_messages tool_calls texts;
                  trace := tr' |}).
Proof.
  induction 1 as [tr|tr tr' tc rest args result results text texts
                     Hargs Hcall Htext _ IH]; intros ms.
  - cbn. now rewrite app_nil_r.
  - cbn [for_each]. unfold bind at 1. rewrite dispatch_run.
    cbn [messages trace]. rewrite Hargs, Hcall, Htext, IH.
    unfold tool_messages. cbn [combine map fst snd]. unfold tool_message.
    now rewrite <- app_assoc.
Qed.

(** C4. Take a turn whose first response asks for tool calls, all of
    which the session answers with a result whose items are text. A call
    that fails (the tool is unknown to the server, or it raises) is such
    a call: the session answers it with a result marked as an error, the
    text of which describes the failure. Then no exception leaves the
    loop over the tool calls, whichever results are marked as errors: for
    every tool call, in their order, a tool message with the id and the
    name of the call and the text of its result is appended to
    [messages]; the second completion request is sent, with the user
    message, the response and these tool messages; and if that request is
    answered, the turn completes with its answer. *)
Theorem session_failures_in_a_turn (query : string) (fr0 : Frame)
    (response : ChatCompletionMessage) (results : list CallToolResult)
    (texts : list string) (tr1 : Trace) :
  answer env self (trace fr0 ++ [user_line query]) [MsgUser query]
  = inr response ->
  truthy_calls (cm_tool_calls response) = true ->
  answered env (trace (after_response self query (trace fr0) response))
    (calls_of (cm_tool_calls response)) results texts tr1 ->
  let ms := MsgUser query :: MsgResponse response
              :: tool_messages (calls_of (cm_tool_calls response)) texts in
  Forall2 paired (calls_of (cm_tool_calls response))
    (tool_messages (calls_of (cm_tool_calls response)) texts)
  /\ process_query env self query fr0
     = match answer env self tr1 ms with
       | inr final =>
           (inr [MsgAssistant (cm_content final)],
            {| messages := ms;
               trace := tr1 ++ [request self ms; answer_line final] |})
       | inl e =>
           (inl e, {| messages := ms; trace := tr1 ++ [request self ms] |})
       end.
Proof.
  intros Ha Ht Hans ms. split.
  - clear Ha Ht ms. induction Hans; unfold tool_messages;
      cbn [combine map fst snd]; constructor.
    + unfold paired, tool_message. eauto.
    + assumption.
  - apply answered_loop with (ms := [MsgUser query; MsgResponse response])
      in Hans.
    change ([MsgUser query; MsgResponse response]
              ++ tool_messages (calls_of (cm_tool_calls response)) texts)
      with ms in Hans.
    destruct (answer env self tr1 ms) as [e|final] eqn:E2;
      apply turn_process_query.
    + exact (second_request_fails env self query (trace fr0) response e
               {| messages := ms; trace := tr1 |} Ha Ht Hans E2).
    + exact (turn_completes env self query (trace fr0) response final
               {| messages := ms; trace := tr1 |} Ha Ht Hans E2).
Qed.

(** *** The loop *)

(** One round of the loop, case by case. *)
Lemma loop_body_run (tr : Trace) :
  loop_body env self tr
  = match env_input env tr with
    | inl e =>
        if isinstance e Exception
        then (inr Continue, tr ++ [prompt; error_line e])
        else (inl e, tr ++ [prompt])
    | inr line =>
        if (str_lower env (str_strip env line) =? "quit")%string
        then (inr Break, tr ++ [prompt])
        else
          match process_query env self (str_strip env line)
                  {| messages := []; trace := tr ++ [prompt] |} with
          | (inr _, fr) => (inr Continue, trace fr ++ [EvPrint nl])
          | (inl e, fr) =>
              if isinstance e Exception
              then (inr Continue, trace fr ++ [error_line e])
              else (inl e, trace fr)
          end
    end.
Proof.
  unfold loop_body, try_except, bind at 1, input.
  destruct (env_input env tr) as [e|line].
  - cbn [find_clause]. destruct (isinstance e Exception); [|reflexivity].
    unfold bind, emit_loop, ret. now rewrite <- app_assoc.
  - destruct (str_lower env (str_strip env line) =? "quit")%string; [reflexivity|].
    unfold bind at 1, call_process_query.
    fold prompt.
    destruct (process_query env self (str_strip env line) _) as [[e|result] fr].
    + cbn [find_clause]. destruct (isinstance e Exception); reflexivity.
    + reflexivity.
Qed.

Lemma turn_group_one_turn (requests : list (list Message)) :
  turn_group requests -> Forall one_turn requests.
Proof.
  intros [query [->|(response & tms & -> & Hp)]].
  - constructor; [exists query; now left | constructor].
  - constructor; [exists query; now left|].
    constructor; [|constructor].
    exists query. right. exists response, tms. now split.
Qed.

(** The completion requests of a turn send the messages of that turn. *)
Lemma turn_requests (query : string) (tr : Trace) (r : exn + list Message)
    (fr : Frame) :
  turn env self query tr r fr ->
  exists events,
    trace fr = tr ++ events /\ turn_group (requests_made events).
Proof.
  assert (Hloop : forall response r' fr',
    for_each (calls_of (cm_tool_calls response))
      (fun _ tool_call => dispatch env tool_call) tt
      (after_response self query tr response) = (r', fr') ->
    exists events,
      trace fr' = tr ++ [user_line query; request self [MsgUser query];
                         calls_line response] ++ events
      /\ requests_made events = []
      /\ (r' = inr tt ->
          exists tms,
            messages fr' = MsgUser query :: MsgResponse response :: tms
            /\ Forall2 paired (calls_of (cm_tool_calls response)) tms)).
  { intros response r' fr' Hl. apply dispatch_loop in Hl.
    destruct r' as [e|[]].
    - destruct Hl as (done & tc & rest & tms & events & last_event
                      & _ & -> & _ & Hr).
      exists (events ++ [last_event]). cbn [trace after_response].
      rewrite <- !app_assoc. repeat split; [exact Hr | discriminate].
    - destruct Hl as (tms & events & -> & Hp & _ & Hr).
      exists events. cbn [trace messages after_response].
      rewrite <- !app_assoc. repeat split; [exact Hr|].
      intros _. exists tms. now split. }
  intros H.
  inversion H as [ e E1 | response E1 Et | response e fr2 E1 Et El
                 | response e fr2 E1 Et El E2
                 | response final fr2 E1 Et El E2 ]; subst; clear H;
    cbn [trace].
  - eexists. split; [reflexivity|]. exists query. now left.
  - eexists. split; [reflexivity|]. exists query. now left.
  - destruct (Hloop _ _ _ El) as (events & -> & Hr & _).
    eexists. split; [reflexivity|].
    rewrite requests_made_app, Hr. exists query. now left.
  - destruct (Hloop _ _ _ El) as (events & Ht & Hr & Hm). rewrite Ht.
    destruct (Hm eq_refl) as (tms & Hms & Hp).
    exists ([user_line query; request self [MsgUser query];
             calls_line response] ++ events ++ [request self (messages fr2)]).
    split; [now rewrite <- !app_assoc|].
    rewrite !requests_made_app, Hr, Hms. exists query. right.
    exists response, tms. now split.
  - destruct (Hloop _ _ _ El) as (events & Ht & Hr & Hm). rewrite Ht.
    destruct (Hm eq_refl) as (tms & Hms & Hp).
    exists ([user_line query; request self [MsgUser query];
             calls_line response] ++ events
              ++ [request self (messages fr2); answer_line final]).
    split; [now rewrite <- !app_assoc|].
    rewrite !requests_made_app, Hr, Hms. exists query. right.
    exists response, tms. now split.
Qed.

(** A round of the loop sends no request, or those of one turn. *)
Lemma loop_body_requests (tr : Trace) :
  exists events,
    snd (loop_body env self tr) = tr ++ events
    /\ (requests_made events = [] \/ turn_group (requests_made events)).
Proof.
  rewrite loop_body_run.
  destruct (env_input env tr) as [e|line].
  - destruct (isinstance e Exception); eexists; (split; [reflexivity|]);
      now left.
  - destruct (str_lower env (str_strip env line) =? "quit")%string.
    { eexists. split; [reflexivity | now left]. }
    destruct (process_query env self (str_strip env line) _) as [r fr] eqn:E.
    apply process_query_turn, turn_requests in E.
    cbn [trace] in E. destruct E as (events & Ht & Hr).
    destruct r as [e|result]; [destruct (isinstance e Exception)|];
      cbn [snd]; rewrite Ht.
    + exists ([prompt] ++ events ++ [error_line e]).
      split; [now rewrite <- !app_assoc|]. right.
      rewrite !requests_made_app. cbn. now rewrite app_nil_r.
    + exists ([prompt] ++ events).
      split; [now rewrite <- !app_assoc|]. right.
      rewrite !requests_made_app. now cbn.
    + exists ([prompt] ++ events ++ [EvPrint nl]).
      split; [now rewrite <- !app_assoc|]. right.
      rewrite !requests_made_app. cbn. now rewrite app_nil_r.
Qed.

(** The requests of a run, turn by turn. *)
Lemma while_true_requests (fuel : nat) :
  forall tr,
  exists events groups,
    snd (while_true env self fuel tr) = tr ++ events
    /\ requests_made events = List.concat groups
    /\ Forall turn_group groups.
Proof.
  induction fuel as [|fuel IH]; intros tr.
  - exists [], []. split; [now rewrite app_nil_r | split; constructor].
  - cbn [while_true].
    destruct (loop_body_requests tr) as (events & Ht & Hr).
    assert (Hone : exists groups,
               requests_made events = List.concat groups
               /\ Forall turn_group groups).
    { destruct Hr as [Hr|Hr].
      - exists []. split; [exact Hr | constructor].
      - exists [requests_made events]. cbn. rewrite app_nil_r.
        split; [reflexivity | now constructor]. }
    destruct Hone as (groups & Hc & Hg).
    destruct (loop_body env self tr) as [[e|[|]] tr']; cbn [snd] in *.
    + exists events, groups. now repeat split.
    + exists events, groups. now repeat split.
    + destruct (IH tr') as (more & groups' & Ht' & Hc' & Hg').
      rewrite Ht', Ht.
      exists (events ++ more), (groups ++ groups').
      split; [now rewrite app_assoc|].
      rewrite requests_made_app, concat_app, Hc, Hc'.
      split; [reflexivity | apply Forall_app; now split].
Qed.

(** C2, as the code has it. The completion requests of a run fall into
    groups, one for each turn that reaches the endpoint. The first request
    of a turn sends the user message of that turn alone; the second, if
    there is one, sends the same list grown by the response with its tool
    calls and by the tool messages of these calls. So every request sends
    the messages of its own turn, in order, and none of an earlier turn:
    the list is made anew by each call of [process_query]. *)
Theorem requests_hold_one_turn (fuel : nat) :
  exists groups,
    requests_made (snd (chat_loop env self fuel [])) = List.concat groups
    /\ Forall turn_group groups
    /\ Forall one_turn (requests_made (snd (chat_loop env self fuel []))).
Proof.
  unfold chat_loop.
  destruct (while_true_requests fuel ([] ++ banner))
    as (events & groups & -> & Hc & Hg).
  exists groups. rewrite !requests_made_app. cbn [app].
  change (requests_made banner) with (@nil (list Message)). cbn [app].
  split; [exact Hc|]. split; [exact Hg|].
  rewrite Hc. apply Forall_concat.
  eapply Forall_impl; [|exact Hg]. apply turn_group_one_turn.
Qed.

(** A turn begins with the line of the user and the first request. *)
Lemma turn_begins (query : string) (tr : Trace) (r : exn + list Message)
    (fr : Frame) :
  turn env self query tr r fr ->
  exists events,
    trace fr
    = tr ++ [user_line query; request self [MsgUser query]] ++ events.
Proof.
  assert (Hloop : forall response r' fr',
    for_each (calls_of (cm_tool_calls response))
      (fun _ tool_call => dispatch env tool_call) tt
      (after_response self query tr response) = (r', fr') ->
    exists events,
      trace fr' = tr ++ [user_line query; request self [MsgUser query]]
                     ++ events).
  { intros response r' fr' Hl. apply dispatch_loop in Hl.
    destruct r' as [e|u].
    - destruct Hl as (done & tc & rest & tms & events & last_event
                      & _ & -> & _ & _).
      exists ([calls_line response] ++ events ++ [last_event]).
      cbn [trace after_response]. now rewrite <- !app_assoc.
    - destruct Hl as (tms & events & -> & _).
      exists ([calls_line response] ++ events).
      cbn [trace after_response]. now rewrite <- !app_assoc. }
  intros H.
  inversion H as [ e E1 | response E1 Et | response e fr2 E1 Et El
                 | response e fr2 E1 Et El E2
                 | response final fr2 E1 Et El E2 ]; subst; clear H;
    cbn [trace].
  - exists []. reflexivity.
  - exists [answer_line response]. reflexivity.
  - exact (Hloop _ _ _ El).
  - destruct (Hloop _ _ _ El) as (events & ->).
    exists (events ++ [request self (messages fr2)]).
    now rewrite <- !app_assoc.
  - destruct (Hloop _ _ _ El) as (events & ->).
    exists (events ++ [request self (messages fr2); answer_line final]).
    now rewrite <- !app_assoc.
Qed.

(** C8, as the code has it. Only a line that is [quit] once stripped and in
    lower case ends the run, and it does so without a completion request.
    Every other line, the empty one too, begins a turn: its stripped text
    is printed and sent as the user message of the first request; after
    the turn the loop reads the next line (or ends on an exception that
    [except Exception] does not catch). *)
Theorem only_quit_ends_the_run (tr : Trace) (line : string) (fuel : nat) :
  env_input env tr = inr line ->
  (str_lower env (str_strip env line) = "quit" ->
   while_true env self (S fuel) tr = (Closed, tr ++ [prompt]))
  /\ (str_lower env (str_strip env line) <> "quit" ->
      exists events,
        let tr' := tr ++ [prompt; user_line (str_strip env line);
                          request self [MsgUser (str_strip env line)]] ++ events in
        while_true env self (S fuel) tr = while_true env self fuel tr'
        \/ exists e, isinstance e Exception = false
                     /\ while_true env self (S fuel) tr = (Crashed e, tr')).
Proof.
  intros Hin. cbn [while_true]. rewrite loop_body_run, Hin. split; intros Hq.
  - rewrite Hq. reflexivity.
  - destruct (String.eqb_spec (str_lower env (str_strip env line)) "quit") as [E|_];
      [contradiction|].
    destruct (process_query env self (str_strip env line) _) as [r fr] eqn:E.
    apply process_query_turn, turn_begins in E. cbn [trace] in E.
    destruct E as (events & Ht).
    destruct r as [e|result]; [destruct (isinstance e Exception) eqn:Ee|].
    + exists (events ++ [error_line e]). left. rewrite Ht.
      now rewrite <- !app_assoc.
    + exists events. right. exists e. split; [exact Ee|]. rewrite Ht.
      now rewrite <- !app_assoc.
    + exists (events ++ [EvPrint nl]). left. rewrite Ht.
      now rewrite <- !app_assoc.
Qed.

(** When [process_query] raises at a completion request, the request is
    the last event, and the list it sent is the list as it stands. *)
Lemma turn_raised_on_request (query : string) (tr : Trace) (e : exn)
    (fr : Frame) (pre : Trace) (m : option string) (ms : list Message)
    (ts : list ToolSchema) :
  turn env self query tr (inl e) fr ->
  trace fr = pre ++ [EvCompletion m ms ts] ->
  env_create env pre m ms ts = inl e /\ messages fr = ms /\ one_turn ms.
Proof.
  intros H Ht.
  inversion H as [ e' E1 | | response e' fr2 E1 Et El
                 | response e' fr2 E1 Et El E2 | ]; subst; clear H;
    cbn [trace messages] in *.
  - change (tr ++ [user_line query; request self [MsgUser query]])
      with (tr ++ [user_line query] ++ [request self [MsgUser query]]) in Ht.
    rewrite app_assoc in Ht. apply app_inj_tail in Ht as [<- Hreq].
    injection Hreq as <- <- <-.
    repeat split; [exact E1 | exists query; now left].
  - apply dispatch_loop in El.
    destruct El as (done & tc & rest & tms & events & last_event
                    & _ & -> & _ & Hr).
    cbn [trace] in Ht. rewrite app_assoc in Ht.
    apply app_inj_tail in Ht as [_ ->].
    rewrite requests_made_app in Hr. cbn in Hr.
    now apply app_eq_nil in Hr as [_ Hr].
  - apply app_inj_tail in Ht as [<- Hreq]. injection Hreq as <- <- <-.
    repeat split; [exact E2|].
    apply dispatch_loop in El. destruct El as (tms & events & -> & Hp & _).
    exists query. right. exists response, tms. now split.
Qed.

(** C3. When a completion request of a turn fails, the first or the
    second, with an exception [e] that [except Exception] catches: the
    list [messages] is exactly the list that the failed request sent, it
    holds no tool call without its tool message (it is the user message
    alone, or the user message, the response and one tool message for each
    of its tool calls), and the loop prints the error and goes on to read
    the next line. *)
Theorem failed_request_keeps_history (tr : Trace) (line : string) (e : exn)
    (fr : Frame) (pre : Trace) (m : option string) (ms : list Message)
    (ts : list ToolSchema) (fuel : nat) :
  env_input env tr = inr line ->
  str_lower env (str_strip env line) <> "quit" ->
  process_query env self (str_strip env line)
    {| messages := []; trace := tr ++ [prompt] |} = (inl e, fr) ->
  trace fr = pre ++ [EvCompletion m ms ts] ->
  isinstance e Exception = true ->
  env_create env pre m ms ts = inl e
  /\ messages fr = ms
  /\ one_turn (messages fr)
  /\ while_true env self (S fuel) tr
     = while_true env self fuel (trace fr ++ [error_line e]).
Proof.
  intros Hin Hq Hrun Ht He.
  destruct (turn_raised_on_request _ _ _ _ _ _ _ _
              (process_query_turn _ _ _ _ Hrun) Ht) as (H1 & H2 & H3).
  repeat split; [exact H1 | exact H2 | now rewrite H2 |].
  cbn [while_true]. rewrite loop_body_run, Hin.
  destruct (String.eqb_spec (str_lower env (str_strip env line)) "quit") as [E|_];
    [contradiction|].
  now rewrite Hrun, He.
Qed.

End Turn.

(** A run with two tool calls. *)
Lemma turn_messages_and_calls_sample :
  let env := Samples.C.env_of []
               (Samples.C.model [Samples.C.stats_call; Samples.C.abilities_call])
               Samples.C.session in
  let run := process_query env Samples.C.bot "stats?" (Samples.C.start []) in
  exists events,
    trace (snd run) = [] ++ events
    /\ exists response final,
         answer env Samples.C.bot ([] ++ [user_line "stats?"])
           [MsgUser "stats?"]
         = inr response
         /\ [MsgAssistant (Some "Charizard is strong.")]
            = [MsgAssistant (cm_content final)]
         /\ Forall2 (called env) (calls_of (cm_tool_calls response))
              (calls_made events)
         /\ List.length (calls_made events)
            = List.length (calls_of (cm_tool_calls response))
         /\ match calls_of (cm_tool_calls response) with
            | [] =>
                final = response
                /\ messages (snd run) = [MsgUser "stats?"]
                /\ requests_made events = [[MsgUser "stats?"]]
            | tool_calls =>
                exists tool_messages before,
                  messages (snd run)
                  = MsgUser "stats?" :: MsgResponse response :: tool_messages
                  /\ Forall2 paired tool_calls tool_messages
                  /\ List.length tool_messages = List.length tool_calls
                  /\ requests_made events
                     = [[MsgUser "stats?"]; messages (snd run)]
                  /\ events = before ++ [request Samples.C.bot
                                           (messages (snd run));
                                         answer_line final]
                  /\ answer env Samples.C.bot ([] ++ before)
                       (messages (snd run))
                     = inr final
            end.
Proof.
  intros env run.
  apply (turn_messages_and_calls env Samples.C.bot "stats?"
           (Samples.C.start [])
           (inr [MsgAssistant (Some "Charizard is strong.")])
           (snd run)).
  reflexivity.
Defined.

(** C1, as stated, fails on two counts. In a turn with one tool call that
    goes well, two messages are appended to [messages] after the user
    message, not three, and the last of them is the tool message: the final
    assistant message is only returned. And in a turn whose one tool call
    has arguments that are no JSON, the session is not called at all. *)
Lemma final_answer_is_returned_not_appended :
  let good := Samples.C.env_of [] (Samples.C.model [Samples.C.stats_call])
                Samples.C.session in
  let bad := Samples.C.env_of [] (Samples.C.model [Samples.C.broken_call])
               Samples.C.session in
  let run := process_query good Samples.C.bot "stats?" (Samples.C.start []) in
  let failed := process_query bad Samples.C.bot "stats?" (Samples.C.start []) in
  fst run = inr [MsgAssistant (Some "Charizard is strong.")]
  /\ messages (snd run)
     = [MsgUser "stats?";
        MsgResponse {| cm_content := None;
                       cm_tool_calls := Some [Samples.C.stats_call] |};
        MsgTool "call_1" "get_pokemon_stats"
          ("result of get_pokemon_stats" ++ nl ++ "done")]
  /\ (exists e, fst failed = inl e)
  /\ calls_made (trace (snd failed)) = []
  /\ requests_made (trace (snd failed)) = [[MsgUser "stats?"]].
Proof.
  cbv zeta. repeat split; try reflexivity.
  eexists. reflexivity.
Qed.

(** C2, as stated, fails: in a run of two turns the request of the second
    turn sends the second user message alone, without the user message and
    the answer of the first turn. *)
Lemma second_turn_forgets_the_first :
  let env := Samples.C.env_of ["a"; "b"; "quit"] (Samples.C.model [])
               Samples.C.session in
  let run := chat_loop env Samples.C.bot 3 [] in
  fst run = Closed
  /\ requests_made (snd run) = [[MsgUser "a"]; [MsgUser "b"]]
  /\ ~ In (MsgUser "a") (nth 1 (requests_made (snd run)) []).
Proof.
  cbv zeta. split; [reflexivity|]. split; [reflexivity|].
  vm_compute. intros [H|[]]. discriminate H.
Qed.

(** C8, as stated, fails: the empty line does not end the run, it is sent
    to the model as an empty user message; the run ends at the [quit]
    that follows. *)
Lemma empty_line_starts_a_turn :
  let env := Samples.C.env_of [""; "quit"] (Samples.C.model [])
               Samples.C.session in
  fst (chat_loop env Samples.C.bot 1 []) = Running
  /\ requests_made (snd (chat_loop env Samples.C.bot 1 [])) = [[MsgUser ""]]
  /\ fst (chat_loop env Samples.C.bot 2 []) = Closed.
Proof. cbv zeta. repeat split; reflexivity. Qed.

(** When the input has come to its end, [input] raises [EOFError], which
    [except Exception] catches: the loop prints the error and asks again,
    round after round, and never closes. *)
Lemma end_of_input_never_closes (fuel : nat) :
  let env := Samples.C.env_of [] (Samples.C.model []) Samples.C.session in
  forall tr, fst (while_true env Samples.C.bot fuel tr) = Running.
Proof.
  intros env. induction fuel as [|fuel IH]; intros tr; [reflexivity|].
  cbn [while_true]. rewrite loop_body_run.
  assert (env_input env tr = inl (mk_exn EOFError "EOF when reading a line"))
    as ->.
  { cbn. unfold Samples.C.typed. now destruct (Samples.C.count_inputs tr). }
  change (isinstance (mk_exn EOFError "EOF when reading a line") Exception)
    with true.
  cbv iota. apply IH.
Qed.

(** A line that is [quit] and a line that is not. *)
Lemma only_quit_ends_the_run_sample :
  let env := Samples.C.env_of [" QuIt "] (Samples.C.model [])
               Samples.C.session in
  (str_lower env (str_strip env " QuIt ") = "quit" ->
   while_true env Samples.C.bot 1 [] = (Closed, [] ++ [prompt]))
  /\ (str_lower env (str_strip env " QuIt ") <> "quit" ->
      exists events,
        let tr' := [] ++ [prompt; user_line (str_strip env " QuIt ");
                          request Samples.C.bot
                            [MsgUser (str_strip env " QuIt ")]]
                      ++ events in
        while_true env Samples.C.bot 1 [] = while_true env Samples.C.bot 0 tr'
        \/ exists e, isinstance e Exception = false
                     /\ while_true env Samples.C.bot 1 [] = (Crashed e, tr')).
Proof.
  intros env.
  apply (only_quit_ends_the_run env Samples.C.bot [] " QuIt " 0).
  reflexivity.
Defined.

(** A turn whose second request fails. *)
Lemma failed_request_keeps_history_sample :
  let env := Samples.C.env_of ["stats?"]
               (Samples.C.model_once [Samples.C.stats_call])
               Samples.C.session in
  let run := process_query env Samples.C.bot "stats?"
               {| messages := []; trace := [] ++ [prompt] |} in
  let e := mk_exn APIError "Connection error." in
  let ms := [MsgUser "stats?";
             MsgResponse {| cm_content := None;
                            cm_tool_calls := Some [Samples.C.stats_call] |};
             MsgTool "call_1" "get_pokemon_stats"
               ("result of get_pokemon_stats" ++ nl ++ "done")] in
  env_create env (removelast (trace (snd run)))
    (llm_model Samples.C.bot) ms (available_tools Samples.C.bot) = inl e
  /\ messages (snd run) = ms
  /\ one_turn (messages (snd run))
  /\ while_true env Samples.C.bot 1 []
     = while_true env Samples.C.bot 0 (trace (snd run) ++ [error_line e]).
Proof.
  intros env run e ms.
  apply (failed_request_keeps_history env Samples.C.bot [] "stats?" e
           (snd run) (removelast (trace (snd run)))
           (llm_model Samples.C.bot) ms (available_tools Samples.C.bot) 0).
  - reflexivity.
  - vm_compute. discriminate.
  - reflexivity.
  - reflexivity.
  - reflexivity.
Defined.

(** A turn with two tool calls, both of which fail on the server. *)
Lemma session_failures_in_a_turn_sample :
  let env := Samples.C.env_of []
               (Samples.C.model [Samples.C.stats_call; Samples.C.abilities_call])
               Samples.C.session_error_result in
  let run := process_query env Samples.C.bot "stats?" (Samples.C.start []) in
  let response := {| cm_content := None;
                     cm_tool_calls := Some [Samples.C.stats_call;
                                            Samples.C.abilities_call] |} in
  let failed name :=
    {| content := ContentList [TextContent ("Error executing tool " ++ name)];
       isError := true |} in
  answered env (trace (after_response Samples.C.bot "stats?" [] response))
    [Samples.C.stats_call; Samples.C.abilities_call]
    [failed "get_pokemon_stats"; failed "get_pokemon_abilities"]
    ["Error executing tool get_pokemon_stats";
     "Error executing tool get_pokemon_abilities"]
    (removelast (removelast (trace (snd run))))
  /\ fst run = inr [MsgAssistant (Some "Charizard is strong.")]
  /\ messages (snd run)
     = [MsgUser "stats?"; MsgResponse response;
        MsgTool "call_1" "get_pokemon_stats"
          "Error executing tool get_pokemon_stats";
        MsgTool "call_2" "get_pokemon_abilities"
          "Error executing tool get_pokemon_abilities"]
  /\ requests_made (trace (snd run)) = [[MsgUser "stats?"]; messages (snd run)].
Proof.
  intros env run response failed.
  assert (Hans :
    answered env (trace (after_response Samples.C.bot "stats?" [] response))
      [Samples.C.stats_call; Samples.C.abilities_call]
      [failed "get_pokemon_stats"; failed "get_pokemon_abilities"]
      ["Error executing tool get_pokemon_stats";
       "Error executing tool get_pokemon_abilities"]
      (removelast (removelast (trace (snd run))))).
  { eapply answered_one; [reflexivity | reflexivity | reflexivity |].
    eapply answered_one; [reflexivity | reflexivity | reflexivity |].
    apply answered_none. }
  split; [exact Hans|].
  destruct (session_failures_in_a_turn env Samples.C.bot "stats?"
              (Samples.C.start []) response _ _ _ eq_refl eq_refl Hans)
    as [_ Hrun].
  fold run in Hrun. rewrite Hrun. repeat split; reflexivity.
Defined.

(** A failure that the session reports in its result is text like any
    other: it is stored in a tool message and the turn goes on. *)
Example error_result_is_stored :
  let env := Samples.C.env_of []
               (Samples.C.model [Samples.C.stats_call])
               Samples.C.session_error_result in
  let run := process_query env Samples.C.bot "stats?" (Samples.C.start []) in
  fst run = inr [MsgAssistant (Some "Charizard is strong.")]
  /\ last (messages (snd run)) (MsgUser "")
     = MsgTool "call_1" "get_pokemon_stats"
         "Error executing tool get_pokemon_stats".
Proof. cbv zeta. split; reflexivity. Qed.

(** *** The content of a tool message *)

(** C5. The content stored in a tool message is [normalize] of the content
    of the result (see [dispatch_run]). For a list of text items it is
    their texts joined with newlines; for a string it is the string; and
    normalizing what has been normalized changes nothing. *)
Theorem normalize_joins_the_texts :
  (forall texts : list string,
     normalize (ContentList (map TextContent texts)) = inr (join nl texts))
  /\ (forall s : string, normalize (ContentStr s) = inr s)
  /\ (forall result : ResultContent,
        ebind (normalize result) (fun s => normalize (ContentStr s))
        = normalize result).
Proof.
  repeat split.
  - intros texts. unfold normalize. now rewrite item_texts_of_text.
  - intros result. destruct (normalize result); reflexivity.
Qed.

Example normalize_three_items :
  normalize (ContentList [TextContent "a"; TextContent "b"; TextContent "c"])
  = inr ("a" ++ nl ++ "b" ++ nl ++ "c")%string.
Proof. reflexivity. Qed.

(** An item without text makes the normalization raise. *)
Example normalize_image :
  normalize (ContentList [TextContent "a"; ImageContent "..." "image/png"])
  = inl (mk_exn AttributeError "'ImageContent' object has no attribute 'text'").
Proof. reflexivity. Qed.

End ClientSpec.

(* ===================================================================== *)
(** ** More facts about strings and loops *)
(* ===================================================================== *)

Module PyMore.
Import Py PyFacts.

(** A loop whose body only computes leaves the trace as it is. *)
Lemma for_each_pure {St A X : Type} (f : A -> X -> exn + A) (xs : list X) :
  forall (a : A) (s : St),
  exists r, for_each xs (fun a x s => (f a x, s)) a s = (r, s).
Proof.
  induction xs as [|x xs IH]; intros a s.
  - eexists. reflexivity.
  - cbn [for_each]. unfold bind.
    destruct (f a x) as [e|a']; [eexists; reflexivity | apply IH].
Qed.

End PyMore.

(* ===================================================================== *)
(** ** The tool server: further properties *)
(* ===================================================================== *)

Module ServerMore.
Import Py Server ServerTrace PyFacts PyMore ServerSpec.
Local Open Scope string_scope.

(** Closes a goal on what the [except] clauses do with any exception. *)
Ltac by_clauses :=
  cbn [find_clause]; unfold raise;
  repeat match goal with
         | |- context [if ?b then _ else _] => destruct b eqn:?
         end;
  cbn [fst snd exc_class]; try reflexivity; auto.

(** *** The argument *)

(** X1. [get_pokemon_stats] refuses, with a [ValueError] and before any
    request, an argument that is no string ("Pokemon name must be a
    string") and a string of which [strip()] leaves nothing, the empty
    string or white space only ("Pokemon name cannot be empty"). *)
Theorem stats_refuses_bad_names (env : Env) (arg : Json) (tr : Trace) :
  match arg with
  | JStr given =>
      str_strip env given = "" ->
      get_pokemon_stats env arg tr
      = (inl (mk_exn ValueError "Pokemon name cannot be empty"), tr)
  | _ =>
      get_pokemon_stats env arg tr
      = (inl (mk_exn ValueError "Pokemon name must be a string"), tr)
  end.
Proof.
  destruct arg; try reflexivity.
  intros H. unfold get_pokemon_stats. rewrite stats_guard, H. reflexivity.
Qed.

Lemma stats_refuses_bad_names_sample :
  get_pokemon_stats (Samples.S.env_of Samples.S.pokeapi)
    (JStr ("  " ++ nl)) []
  = (inl (mk_exn ValueError "Pokemon name cannot be empty"), []).
Proof.
  apply (stats_refuses_bad_names (Samples.S.env_of Samples.S.pokeapi)
           (JStr ("  " ++ nl)) []).
  reflexivity.
Defined.

(** *** One ability *)

Lemma contains_char_app (c : ascii) (a b : string) :
  contains_char c (a ++ b) = contains_char c a || contains_char c b.
Proof.
  induction a as [|d a IH]; simpl; [reflexivity|].
  now rewrite IH, orb_assoc.
Qed.

Lemma replace_char_removes (c : ascii) (new s : string) :
  contains_char c new = false ->
  contains_char c (replace_char c new s) = false.
Proof.
  intros Hn. induction s as [|d s IH]; simpl; [reflexivity|].
  destruct (Ascii.eqb d c) eqn:E.
  - now rewrite contains_char_app, Hn, IH.
  - simpl. rewrite Ascii.eqb_sym, E. exact IH.
Qed.

Lemma replace_char_keeps_out (c old : ascii) (new s : string) :
  contains_char c new = false ->
  contains_char c s = false ->
  contains_char c (replace_char old new s) = false.
Proof.
  intros Hn. induction s as [|d s IH]; simpl; [reflexivity|].
  intros H. apply orb_false_iff in H as [H1 H2].
  destruct (Ascii.eqb d old).
  - now rewrite contains_char_app, Hn, IH.
  - simpl. now rewrite H1, IH.
Qed.

(** The description found has no line feed and no form feed. *)
Lemma find_description_one_line (entries : list Json) (default text : string) :
  one_line default = true ->
  find_description entries default = inr text ->
  one_line text = true.
Proof.
  intros Hd. induction entries as [|entry entries IH]; cbn [find_description].
  - intros H. now injection H as <-.
  - unfold ebind.
    destruct (getitem entry "language") as [e|language]; [discriminate|].
    destruct (getitem language "name") as [e|language_name]; [discriminate|].
    destruct (eq_str language_name "en"); [|exact IH].
    destruct (getitem entry "flavor_text") as [e|flavor]; [discriminate|].
    unfold replace. destruct flavor; try discriminate.
    intros H. injection H as <-. unfold one_line.
    rewrite replace_char_keeps_out, replace_char_removes; try reflexivity.
    apply replace_char_removes. reflexivity.
Qed.

Lemma getitem_error (v : Json) (key : string) (e : exn) :
  getitem v key = inl e -> isinstance e RequestException = false.
Proof.
  unfold getitem. destruct v; try (intros H; injection H as <-; reflexivity).
  destruct (lookup key fields); [discriminate|].
  intros H. injection H as <-. reflexivity.
Qed.

(** The inner [try] block: it fails before its request on an entry without
    a URL, it fails after its request, or it ends with the details and the
    pause of a tenth of a second. *)
Lemma fetch_details_cases (env : Env) (entry : Json) (info : AbilityInfo)
    (tr : Trace) :
  (exists e, fetch_details env entry info tr = (inl e, tr)
             /\ isinstance e RequestException = false)
  \/ (exists e address,
        fetch_details env entry info tr
        = (inl e, (tr ++ [EvGet address 10])%list))
  \/ (exists d address,
        fetch_details env entry info tr
        = (inr {| name := name info; is_hidden := is_hidden info;
                  slot := slot info; details := Some d |},
           (tr ++ [EvGet address 10; EvSleep (1 # 10)])%list)
        /\ one_line (description d) = true).
Proof.
  unfold fetch_details, bind, lift, requests_get, sleep, emit, ret.
  destruct (getitem entry "ability") as [e|ability] eqn:E1.
  { left. exists e. split; [reflexivity | exact (getitem_error _ _ _ E1)]. }
  destruct (getitem ability "url") as [e|address] eqn:E2.
  { left. exists e. split; [reflexivity | exact (getitem_error _ _ _ E2)]. }
  right.
  destruct (env_get env tr address) as [e|response];
    [left; do 2 eexists; reflexivity|].
  destruct (raise_for_status response) as [e|u];
    [left; do 2 eexists; reflexivity|].
  destruct (json response) as [e|detail];
    [left; do 2 eexists; reflexivity|].
  destruct (get_default detail "flavor_text_entries" (JArr [])) as [e|fl];
    [left; do 2 eexists; reflexivity|].
  destruct (iterate fl) as [e|flavor_texts];
    [left; do 2 eexists; reflexivity|].
  destruct (find_description flavor_texts "No description available")
    as [e|text] eqn:Ed; [left; do 2 eexists; reflexivity|].
  destruct (get_default detail "effect_entries" (JArr [])) as [e|ef];
    [left; do 2 eexists; reflexivity|].
  destruct (iterate ef) as [e|effects]; [left; do 2 eexists; reflexivity|].
  destruct (find_effect effects (JStr "No effect description available"))
    as [e|eff]; [left; do 2 eexists; reflexivity|].
  destruct (getitem detail "generation") as [e|gen];
    [left; do 2 eexists; reflexivity|].
  destruct (getitem gen "name") as [e|gen_name];
    [left; do 2 eexists; reflexivity|].
  right. eexists. exists address. split.
  - rewrite <- app_assoc. reflexivity.
  - cbn [description].
    apply (find_description_one_line _ _ _ (eq_refl true : one_line "No description available" = true) Ed).
Qed.

(** One round of the loop over the abilities: it appends one ability, with
    its details after a request and a pause, or without them after a
    request and a warning; or it raises, after one request at most. *)
Lemma ability_step_cases (env : Env) (abilities : list AbilityInfo)
    (entry : Json) (tr : Trace) :
  (exists e more,
     ability_step env abilities entry tr = (inl e, (tr ++ more)%list)
     /\ (more = [] \/ exists address, more = [EvGet address 10]))
  \/ (exists info address,
        (ability_step env abilities entry tr
         = (inr (abilities ++ [info])%list,
            (tr ++ [EvGet address 10; EvSleep (1 # 10)])%list)
         /\ (exists d, details info = Some d
                       /\ one_line (description d) = true))
        \/ (exists text,
              ability_step env abilities entry tr
              = (inr (abilities ++ [info])%list,
                 (tr ++ [EvGet address 10; EvPrint text])%list)
              /\ details info = None)).
Proof.
  unfold ability_step, bind, lift, try_except, ret, print, emit.
  destruct (getitem entry "ability") as [e|ability];
    [left; exists e, []; rewrite app_nil_r; auto|].
  destruct (getitem ability "name") as [e|ability_name];
    [left; exists e, []; rewrite app_nil_r; auto|].
  destruct (getitem entry "is_hidden") as [e|hidden];
    [left; exists e, []; rewrite app_nil_r; auto|].
  destruct (getitem entry "slot") as [e|ability_slot];
    [left; exists e, []; rewrite app_nil_r; auto|].
  set (info := {| name := ability_name; is_hidden := hidden;
                  slot := ability_slot; details := None |}).
  destruct (fetch_details_cases env entry info tr)
    as [(e & -> & He)|[(e & address & ->)|(d & address & -> & Hd)]].
  - cbn [find_clause]. rewrite He. left. exists e, [].
    rewrite app_nil_r. auto.
  - cbn [find_clause]. destruct (isinstance e RequestException).
    + right. exists info, address. right.
      exists ("Warning: Could not fetch detailed info for ability '"
                ++ str (name info) ++ "': " ++ exc_str e).
      split; [|reflexivity]. rewrite <- app_assoc. reflexivity.
    + left. exists e, [EvGet address 10]. split; [reflexivity|].
      right. now exists address.
  - right. eexists. exists address. left. split; [reflexivity|].
    exists d. split; [reflexivity | exact Hd].
Qed.

Lemma requested_app (a b : Trace) :
  requested (a ++ b)%list = (requested a ++ requested b)%list.
Proof. apply flat_map_app. Qed.

Lemma pauses_app (a b : Trace) :
  pauses (a ++ b)%list = (pauses a + pauses b)%nat.
Proof. unfold pauses. now rewrite filter_app, length_app. Qed.

Lemma warnings_app (a b : Trace) :
  warnings (a ++ b)%list = (warnings a + warnings b)%nat.
Proof. unfold warnings. now rewrite filter_app, length_app. Qed.

(** What the abilities added by a loop and the events of the loop have to
    do with each other. *)
Lemma abilities_loop (env : Env) (entries : list Json) :
  forall (abilities : list AbilityInfo) (tr : Trace)
         (r : exn + list AbilityInfo) (tr' : Trace),
    for_each entries (ability_step env) abilities tr = (r, tr') ->
    exists more,
      tr' = (tr ++ more)%list
      /\ match r with
         | inl _ => True
         | inr abilities' =>
             exists added,
               abilities' = (abilities ++ added)%list
               /\ List.length added = List.length entries
               /\ List.length (requested more) = List.length entries
               /\ pauses more = List.length (filter has_details added)
               /\ warnings more
                  = List.length (filter (fun a => negb (has_details a)) added)
               /\ Forall (fun a => match details a with
                                   | Some d => one_line (description d) = true
                                   | None => True
                                   end) added
         end.
Proof.
  induction entries as [|entry entries IH]; intros abilities tr r tr' H.
  - injection H as <- <-. exists []. rewrite app_nil_r. split; [reflexivity|].
    exists []. rewrite app_nil_r. repeat split. constructor.
  - cbn [for_each] in H. unfold bind in H.
    destruct (ability_step_cases env abilities entry tr)
      as [(e & more & E & _)
         |(info & address & [(E & d & Hd & Hl)|(text & E & Hn)])];
      rewrite E in H.
    + injection H as <- <-. exists more. now split.
    + apply IH in H as (more & -> & H). eexists.
      split; [rewrite <- app_assoc; reflexivity|].
      destruct r as [e|abilities']; [exact I|].
      destruct H as (added & -> & H1 & H2 & H3 & H4 & H5).
      exists (info :: added). rewrite <- app_assoc.
      rewrite requested_app, pauses_app, warnings_app.
      unfold has_details at 1 2. cbn [filter]. rewrite Hd.
      cbn [negb List.length app requested flat_map pauses warnings filter].
      rewrite H1, H2, H3, H4.
      repeat split. constructor; [now rewrite Hd | exact H5].
    + apply IH in H as (more & -> & H). eexists.
      split; [rewrite <- app_assoc; reflexivity|].
      destruct r as [e|abilities']; [exact I|].
      destruct H as (added & -> & H1 & H2 & H3 & H4 & H5).
      exists (info :: added). rewrite <- app_assoc.
      rewrite requested_app, pauses_app, warnings_app.
      unfold has_details at 1 2. cbn [filter]. rewrite Hn.
      cbn [negb List.length app requested flat_map pauses warnings filter].
      rewrite H1, H2, H3, H4.
      repeat split. constructor; [now rewrite Hn | exact H5].
Qed.

(** A call of [get_pokemon_abilities] whose argument passes the checks:
    its first event is the request for the Pokémon, and when it succeeds
    the abilities are the sorted list of those the loop has gathered. *)
Lemma str_limited_inr (limit : Z) (v : Json) (text : string) :
  str_limited limit v = inr text -> text = str v.
Proof.
  destruct v; cbn; try congruence.
  unfold str_int_limited. destruct (_ && _); congruence.
Qed.

Lemma str_limited_inl (limit : Z) (v : Json) (e : exn) :
  str_limited limit v = inl e ->
  exists z,
    v = JInt z
    /\ ((0 <? limit) && (10 ^ limit <=? Z.abs z))%Z = true
    /\ e = mk_exn ValueError
             ("Exceeds the limit (" ++ str_int limit
                ++ " digits) for integer string conversion; "
                ++ "use sys.set_int_max_str_digits() to increase the limit").
Proof.
  destruct v as [| |z| | |]; cbn; try discriminate.
  unfold str_int_limited. destruct (_ && _) eqn:E; [|discriminate].
  intros H. injection H as <-. now exists z.
Qed.

(** An argument that passes the checks and cannot be formatted into the
    URL: the [ValueError] of the conversion is raised inside the [try],
    before the request, and leaves as an "unexpected error". *)
Lemma abilities_unformatted (env : Env) (arg v : Json) (e0 : exn)
    (tr : Trace) :
  check_identifier env arg = inr v ->
  str_limited (max_str_digits env) v = inl e0 ->
  get_pokemon_abilities env arg tr
  = (inl (mk_exn Exception ("An unexpected error occurred: " ++ exc_str e0)),
     tr).
Proof.
  intros Hv Hf. unfold get_pokemon_abilities, bind at 1, lift at 1.
  rewrite Hv. unfold try_except, bind, lift. rewrite Hf.
  apply str_limited_inl in Hf as (z & _ & _ & ->).
  unfold raise. decide_clauses. reflexivity.
Qed.

Lemma abilities_run (env : Env) (arg v : Json) (text : string) (tr : Trace)
    (r : exn + AbilitiesResult) (tr' : Trace) :
  check_identifier env arg = inr v ->
  str_limited (max_str_digits env) v = inr text ->
  get_pokemon_abilities env arg tr = (r, tr') ->
  exists more,
    tr' = (tr ++ EvGet (pokemon_url text) 10 :: more)%list
    /\ match r with
       | inl _ => True
       | inr result =>
           exists gathered,
             list_sort env slot gathered = inr (abilities result)
             /\ List.length (requested more) = List.length gathered
             /\ pauses more = List.length (filter has_details gathered)
             /\ warnings more
                = List.length (filter (fun a => negb (has_details a))
                                 gathered)
             /\ Forall (fun a => match details a with
                                 | Some d => one_line (description d) = true
                                 | None => True
                                 end) gathered
       end.
Proof.
  intros Hv Hf H. unfold get_pokemon_abilities, bind at 1, lift at 1 in H.
  rewrite Hv in H.
  unfold try_except, bind, lift, requests_get, raise, ret in H.
  rewrite Hf in H. fold (pokemon_url text) in H.
  assert (Hnone : exists more : Trace,
            (tr ++ [EvGet (pokemon_url text) 10])%list
            = (tr ++ EvGet (pokemon_url text) 10 :: more)%list
            /\ True).
  { exists []. now split. }
  repeat split_on H;
    try (injection H as <- <-; destruct Hnone as (more & Hm & _);
         exists more; now split);
    match goal with
    | E : for_each _ _ _ _ = _ |- _ =>
        apply abilities_loop in E as (more & -> & Hl)
    end;
    try (injection H as <- <-; exists more; split;
         [now rewrite <- app_assoc | exact I]).
  injection H as <- <-. exists more.
  split; [now rewrite <- app_assoc|].
  destruct Hl as (added & -> & H1 & H2 & H3 & H4 & H5).
  exists added. cbn [abilities app] in *.
  repeat split; try assumption. now rewrite H2, H1.
Qed.

(** X2. The checks of [get_pokemon_abilities] on its argument. It refuses
    with a [ValueError], before any request: every value that counts as
    false ([None], [False], [0], the empty string, list and dict), every
    integer below 0, and every list or dict. A string that is not empty
    is asked for lowercased and stripped, and the value [True] as
    [/pokemon/True]. An integer above 0 is asked for under its decimal
    form, unless it has more digits than the interpreter converts: then
    the f-string of the URL raises inside the [try], no request is made,
    and the error leaves as an "unexpected error". *)
Theorem abilities_identifier_checks (env : Env) (arg : Json) (tr : Trace) :
  match arg with
  | JStr EmptyString | JNull | JBool false | JArr [] | JObj [] =>
      get_pokemon_abilities env arg tr
      = (inl (mk_exn ValueError "Pokemon identifier cannot be empty"), tr)
  | JInt z =>
      if (z =? 0)%Z then
        get_pokemon_abilities env arg tr
        = (inl (mk_exn ValueError "Pokemon identifier cannot be empty"), tr)
      else if (z <? 0)%Z then
        get_pokemon_abilities env arg tr
        = (inl (mk_exn ValueError "Pokemon ID must be a positive integer"),
           tr)
      else if ((0 <? max_str_digits env)
               && (10 ^ max_str_digits env <=? z))%Z then
        get_pokemon_abilities env arg tr
        = (inl (mk_exn Exception
                  ("An unexpected error occurred: "
                     ++ "Exceeds the limit (" ++ str_int (max_str_digits env)
                     ++ " digits) for integer string conversion; "
                     ++ "use sys.set_int_max_str_digits() to increase the limit")),
           tr)
      else
        exists rest,
          snd (get_pokemon_abilities env arg tr)
          = (tr ++ EvGet (pokemon_url (str_int z)) 10 :: rest)%list
  | JBool true =>
      exists rest,
        snd (get_pokemon_abilities env arg tr)
        = (tr ++ EvGet (pokemon_url "True") 10 :: rest)%list
  | JArr _ | JObj _ =>
      get_pokemon_abilities env arg tr
      = (inl (mk_exn ValueError
                "Pokemon identifier must be a string or positive integer"),
         tr)
  | JStr given =>
      exists rest,
        snd (get_pokemon_abilities env arg tr)
        = (tr ++ EvGet (pokemon_url (str_strip env (str_lower env given))) 10
              :: rest)%list
  end.
Proof.
  assert (Hrun : forall v text,
            check_identifier env arg = inr v ->
            str_limited (max_str_digits env) v = inr text ->
            exists rest,
              snd (get_pokemon_abilities env arg tr)
              = (tr ++ EvGet (pokemon_url text) 10 :: rest)%list).
  { intros v text Hv Hf.
    destruct (get_pokemon_abilities env arg tr) as [r tr'] eqn:E.
    destruct (abilities_run env arg v text tr r tr' Hv Hf E) as (more & -> & _).
    now exists more. }
  destruct arg as [|[|]|z|[|c given]|[|x items]|[|f fields]]; try reflexivity.
  - exact (Hrun (JBool true) "True" eq_refl eq_refl).
  - destruct (Z.eqb_spec z 0) as [->|Hz]; [reflexivity|].
    assert (Hcheck : (0 <= z)%Z -> check_identifier env (JInt z) = inr (JInt z)).
    { intros Hp. unfold check_identifier. cbn [truthy as_int].
      destruct (Z.eqb_spec z 0) as [E|_]; [contradiction|]. cbn [negb].
      destruct (Z.leb_spec z 0) as [Hn|_]; [lia | reflexivity]. }
    destruct (Z.ltb_spec z 0) as [Hn|Hn].
    + unfold get_pokemon_abilities, check_identifier, bind, lift.
      cbn [truthy as_int].
      destruct (Z.eqb_spec z 0) as [E|_]; [contradiction|]. cbn [negb].
      destruct (Z.leb_spec z 0) as [_|Hp]; [reflexivity | lia].
    + destruct ((0 <? max_str_digits env) && (10 ^ max_str_digits env <=? z))%Z
        eqn:Elong.
      * rewrite (abilities_unformatted env (JInt z) (JInt z)
                   (mk_exn ValueError
                      ("Exceeds the limit (" ++ str_int (max_str_digits env)
                         ++ " digits) for integer string conversion; "
                         ++ "use sys.set_int_max_str_digits() to increase the limit"))
                   tr (Hcheck Hn)); [reflexivity|].
        cbn [str_limited]. unfold str_int_limited.
        now rewrite (Z.abs_eq z Hn), Elong.
      * apply (Hrun (JInt z) (str_int z) (Hcheck Hn)).
        cbn [str_limited]. unfold str_int_limited.
        now rewrite (Z.abs_eq z Hn), Elong.
  - exact (Hrun (JStr (str_strip env (str_lower env (String c given)))) _
             eq_refl eq_refl).
Qed.

Lemma Permutation_filter_length {A : Type} (f : A -> bool) (l l' : list A) :
  Permutation l l' -> List.length (filter f l) = List.length (filter f l').
Proof.
  induction 1 as [|x l l' _ IH|x y l|l l' l'' _ IH1 _ IH2]; cbn [filter].
  - reflexivity.
  - destruct (f x); cbn [List.length]; now rewrite IH.
  - destruct (f x), (f y); reflexivity.
  - now rewrite IH1.
Qed.

Lemma Permutation_Forall_keep {A : Type} (P : A -> Prop) (l l' : list A) :
  Permutation l l' -> Forall P l -> Forall P l'.
Proof.
  intros Hp Hf. rewrite Forall_forall in *. intros x Hx.
  apply Hf. eapply Permutation_in; [apply Permutation_sym, Hp | exact Hx].
Qed.

Lemma abilities_success_checked (env : Env) (arg : Json) (tr tr' : Trace)
    (result : AbilitiesResult) :
  get_pokemon_abilities env arg tr = (inr result, tr') ->
  exists v,
    check_identifier env arg = inr v
    /\ str_limited (max_str_digits env) v = inr (str v).
Proof.
  intros H. destruct (check_identifier env arg) as [e|v] eqn:Hv.
  - unfold get_pokemon_abilities, bind at 1, lift at 1 in H.
    rewrite Hv in H. discriminate.
  - exists v. split; [reflexivity|].
    destruct (str_limited (max_str_digits env) v) as [e|text] eqn:Hf.
    + rewrite (abilities_unformatted env arg v e tr Hv Hf) in H.
      discriminate.
    + now rewrite (str_limited_inr _ _ _ Hf).
Qed.

(** The sample sort rearranges its list. *)
Lemma sort_ints_rearranges (key : AbilityInfo -> Json)
    (l l' : list AbilityInfo) :
  Samples.S.sort_ints key l = inr l' -> Permutation l l'.
Proof.
  unfold Samples.S.sort_ints. destruct (forallb _ l); [|discriminate].
  intros H. injection H as <-.
  induction l as [|x l IH]; cbn [fold_right]; [constructor|].
  set (k := fun x => match as_int (key x) with Some z => z | None => 0%Z end).
  fold k in IH. etransitivity; [apply perm_skip, IH|].
  generalize (fold_right (Samples.S.insert_by k) [] l). clear.
  intros sorted. induction sorted as [|y sorted IHs];
    cbn [Samples.S.insert_by]; [constructor; constructor|].
  destruct (k x <=? k y)%Z; [reflexivity|].
  etransitivity; [apply perm_swap | apply perm_skip, IHs].
Qed.

(** X3. A successful call of [get_pokemon_abilities] makes one request
    for the Pokémon and then exactly one request per ability returned; it
    pauses (a tenth of a second) once per ability returned with its
    details, and prints one warning per ability returned without them.
    The sort is only taken to rearrange the list. *)
Theorem abilities_requests_pauses_and_warnings (env : Env) (arg : Json)
    (tr tr' : Trace) (result : AbilitiesResult) :
  (forall key l l', list_sort env key l = inr l' -> Permutation l l') ->
  get_pokemon_abilities env arg tr = (inr result, tr') ->
  exists first more,
    tr' = (tr ++ EvGet first 10 :: more)%list
    /\ List.length (requested more) = List.length (abilities result)
    /\ pauses more = List.length (filter has_details (abilities result))
    /\ warnings more
       = List.length (filter (fun a => negb (has_details a))
                        (abilities result)).
Proof.
  intros Hsort H.
  destruct (abilities_success_checked _ _ _ _ _ H) as (v & Hv & Hf).
  destruct (abilities_run env arg v (str v) tr _ tr' Hv Hf H)
    as (more & -> & gathered & Hs & H1 & H2 & H3 & _).
  apply Hsort in Hs.
  exists (pokemon_url (str v)), more.
  rewrite H1, H2, H3, (Permutation_length Hs).
  rewrite !(Permutation_filter_length _ _ _ Hs). now repeat split.
Qed.

Lemma abilities_requests_pauses_and_warnings_sample :
  let run := get_pokemon_abilities (Samples.S.env_of Samples.S.pokeapi)
               (JStr "Charizard") [] in
  match fst run with
  | inr result =>
      exists first more,
        snd run = ([] ++ EvGet first 10 :: more)%list
        /\ List.length (requested more) = List.length (abilities result)
        /\ pauses more = List.length (filter has_details (abilities result))
        /\ warnings more
           = List.length (filter (fun a => negb (has_details a))
                            (abilities result))
  | inl _ => False
  end.
Proof.
  intros run.
  destruct (fst run) as [e|result] eqn:E; [discriminate E|].
  apply (abilities_requests_pauses_and_warnings
           (Samples.S.env_of Samples.S.pokeapi) (JStr "Charizard") []
           (snd run) result).
  - intros key l l'. apply sort_ints_rearranges.
  - rewrite <- E. reflexivity.
Defined.

(** X4. In the result of [get_pokemon_abilities] no description holds a
    line feed or a form feed: the flavor text has them replaced by spaces,
    and the text used when there is none has neither. *)
Theorem descriptions_are_one_line (env : Env) (arg : Json)
    (tr tr' : Trace) (result : AbilitiesResult) :
  (forall key l l', list_sort env key l = inr l' -> Permutation l l') ->
  get_pokemon_abilities env arg tr = (inr result, tr') ->
  Forall (fun a => match details a with
                   | Some d => one_line (description d) = true
                   | None => True
                   end) (abilities result).
Proof.
  intros Hsort H.
  destruct (abilities_success_checked _ _ _ _ _ H) as (v & Hv & Hf).
  destruct (abilities_run env arg v (str v) tr _ tr' Hv Hf H)
    as (more & _ & gathered & Hs & _ & _ & _ & Hall).
  exact (Permutation_Forall_keep _ _ _ (Hsort _ _ _ Hs) Hall).
Qed.

Lemma descriptions_are_one_line_sample :
  let run := get_pokemon_abilities (Samples.S.env_of Samples.S.pokeapi)
               (JStr "Charizard") [] in
  match fst run with
  | inr result =>
      Forall (fun a => match details a with
                       | Some d => one_line (description d) = true
                       | None => True
                       end) (abilities result)
  | inl _ => False
  end.
Proof.
  intros run.
  destruct (fst run) as [e|result] eqn:E; [discriminate E|].
  apply (descriptions_are_one_line
           (Samples.S.env_of Samples.S.pokeapi) (JStr "Charizard") []
           (snd run) result).
  - intros key l l'. apply sort_ints_rearranges.
  - rewrite <- E. reflexivity.
Defined.

(** X5. When the request for the details of an ability fails with a
    [RequestException] (no answer, an error status, a body that is no
    JSON), the call does not fail: the ability is kept with its name,
    [is_hidden] and [slot] and without details, a warning with the name
    and the error is printed, and there is no pause. *)
Theorem failed_details_keep_the_ability (env : Env)
    (abilities : list AbilityInfo) (entry : Json) (tr : Trace)
    (ability ability_name hidden ability_slot address : Json) (e : exn) :
  getitem entry "ability" = inr ability ->
  getitem ability "name" = inr ability_name ->
  getitem entry "is_hidden" = inr hidden ->
  getitem entry "slot" = inr ability_slot ->
  getitem ability "url" = inr address ->
  (env_get env tr address = inl e
   \/ exists response,
        env_get env tr address = inr response
        /\ (raise_for_status response = inl e
            \/ (raise_for_status response = inr tt
                /\ json response = inl e))) ->
  isinstance e RequestException = true ->
  ability_step env abilities entry tr
  = (inr (abilities ++ [{| name := ability_name; is_hidden := hidden;
                           slot := ability_slot; details := None |}])%list,
     (tr ++ [EvGet address 10;
             EvPrint ("Warning: Could not fetch detailed info for ability '"
                        ++ str ability_name ++ "': " ++ exc_str e)])%list).
Proof.
  intros H1 H2 H3 H4 H5 Hfail He.
  unfold ability_step, bind, lift, try_except, ret, print, emit.
  rewrite H1, H2, H3, H4.
  unfold fetch_details, bind, lift, requests_get. rewrite H1, H5.
  destruct Hfail as [Hget|(response & Hget & [Hs|[Hs Hj]])]; rewrite Hget.
  - cbn [find_clause]. rewrite He. cbn [name]. now rewrite <- app_assoc.
  - rewrite Hs. cbn [find_clause]. rewrite He. cbn [name].
    now rewrite <- app_assoc.
  - rewrite Hs, Hj. cbn [find_clause]. rewrite He. cbn [name].
    now rewrite <- app_assoc.
Qed.

Lemma failed_details_keep_the_ability_sample :
  let entry := Samples.S.ability_entry "solar-power" true 3 in
  let address := JStr (base_url ++ "/ability/solar-power") in
  ability_step (Samples.S.env_of Samples.S.pokeapi) [] entry []
  = (inr ([] ++ [{| name := JStr "solar-power"; is_hidden := JBool true;
                    slot := JInt 3; details := None |}])%list,
     ([] ++ [EvGet address 10;
             EvPrint ("Warning: Could not fetch detailed info for ability '"
                        ++ str (JStr "solar-power") ++ "': "
                        ++ "503 Server Error: Service Unavailable for url: "
                        ++ base_url ++ "/ability/solar-power")])%list).
Proof.
  intros entry address.
  apply (failed_details_keep_the_ability
           (Samples.S.env_of Samples.S.pokeapi) [] entry []
           (JObj [("name", JStr "solar-power"); ("url", address)])
           (JStr "solar-power") (JBool true) (JInt 3) address
           (mk_exn HTTPError
              ("503 Server Error: Service Unavailable for url: "
                 ++ base_url ++ "/ability/solar-power"))).
  - reflexivity.
  - reflexivity.
  - reflexivity.
  - reflexivity.
  - reflexivity.
  - right. eexists. split; [reflexivity|]. left. reflexivity.
  - reflexivity.
Defined.

(** *** [get_pokemon_stats]: its request and its errors *)

Lemma handlers_keep_trace {A : Type} (body : M Trace A)
    (clauses : list (ExcClass * (exn -> M Trace A))) (tr : Trace) :
  Forall (fun clause => forall e s, snd (snd clause e s) = s) clauses ->
  snd (try_except body clauses tr) = snd (body tr).
Proof.
  intros H. unfold try_except.
  destruct (body tr) as [[e|a] s]; [|reflexivity].
  induction H as [|[cls h] clauses Hh _ IH]; cbn [find_clause];
    [reflexivity|].
  destruct (isinstance e cls); [apply Hh | exact IH].
Qed.

Lemma stats_trace (env : Env) (given : string) (tr : Trace) :
  str_strip env given <> "" ->
  snd (get_pokemon_stats env (JStr given) tr)
  = (tr ++ [EvGet (pokemon_url (str_strip env (str_lower env given))) 10])%list.
Proof.
  intros Hg. unfold get_pokemon_stats. rewrite stats_guard.
  destruct (String.eqb_spec (str_strip env given) "") as [E|_]; [contradiction|].
  rewrite handlers_keep_trace by (repeat constructor).
  unfold bind, requests_get, lift, raise, ret, pokemon_url.
  destruct (env_get env tr _) as [e|response]; [reflexivity|].
  destruct (_ =? _)%Z; [reflexivity|].
  destruct (raise_for_status response); [reflexivity|].
  destruct (json response) as [e|data]; [reflexivity|].
  destruct (getitem data "stats") as [e|data_stats]; [reflexivity|].
  destruct (iterate data_stats) as [e|entries]; [reflexivity|].
  match goal with
  | |- context [for_each ?xs ?f ?a ?s] =>
      destruct (for_each_pure stat_step xs a s
                : exists r, for_each xs f a s = (r, s)) as [r Hr]
  end.
  rewrite Hr.
  destruct r as [e|[[bs sd] t]]; [reflexivity|].
  destruct (getitem data "name"); [reflexivity|].
  destruct (getitem data "id"); reflexivity.
Qed.

(** X6. For a name that is not blank ([strip()] leaves something),
    [get_pokemon_stats] makes exactly one request, whatever comes of it,
    and neither pauses nor prints: the request goes, with a timeout of 10,
    to [/pokemon/] followed by the argument lowercased, then stripped. *)
Theorem stats_makes_one_request (env : Env) (given : string) (tr : Trace) :
  str_strip env given <> "" ->
  snd (get_pokemon_stats env (JStr given) tr)
  = (tr ++ [EvGet (JStr (base_url ++ "/pokemon/"
                           ++ str_strip env (str_lower env given))) 10])%list
  /\ pauses (snd (get_pokemon_stats env (JStr given) tr)) = pauses tr
  /\ warnings (snd (get_pokemon_stats env (JStr given) tr)) = warnings tr.
Proof.
  intros Hg. rewrite (stats_trace env given tr Hg).
  rewrite pauses_app, warnings_app. cbn. rewrite !Nat.add_0_r.
  now repeat split.
Qed.

Lemma stats_makes_one_request_sample :
  let env := Samples.S.env_of Samples.S.pokeapi in
  let run := snd (get_pokemon_stats env (JStr "  ChariZard ") []) in
  run = ([] ++ [EvGet (JStr (base_url ++ "/pokemon/"
                               ++ str_strip env (str_lower env "  ChariZard ")))
                  10])%list
  /\ pauses run = pauses []
  /\ warnings run = warnings [].
Proof.
  intros env run.
  apply (stats_makes_one_request env "  ChariZard " []).
  discriminate.
Defined.

(** What leaves a [try] with the five clauses of the two tools. *)
Lemma five_clauses {A : Type} (body : M Trace A) (a b : exn)
    (c d f : exn -> exn) (tr tr' : Trace) (e : exn) :
  try_except body
    [(Timeout, fun _ => raise a);
     (ConnectionError, fun _ => raise b);
     (RequestException, fun e => raise (c e));
     (KeyError, fun e => raise (d e));
     (Exception, fun e => raise (f e))] tr = (inl e, tr') ->
  exists e0,
    body tr = (inl e0, tr')
    /\ e = (if isinstance e0 Timeout then a
            else if isinstance e0 ConnectionError then b
            else if isinstance e0 RequestException then c e0
            else if isinstance e0 KeyError then d e0
            else if isinstance e0 Exception then f e0
            else e0).
Proof.
  unfold try_except. destruct (body tr) as [[e0|x] s]; [|discriminate].
  cbn [find_clause]. unfold raise. intros H. exists e0.
  repeat match type of H with
         | context [if ?b then _ else _] => destruct b
         end; injection H as <- <-; auto.
Qed.

(** X7. An error that leaves [get_pokemon_stats] is a [ValueError] of the
    checks on the argument, raised before any request, or it has the class
    [RequestException] or [Exception] itself, or it is no [Exception] at
    all (an interrupt, which no clause catches). After the request no
    [ValueError], [KeyError] or [TypeError] leaves the tool. *)
Theorem stats_error_classes (env : Env) (arg : Json) (tr tr' : Trace)
    (e : exn) :
  get_pokemon_stats env arg tr = (inl e, tr') ->
  (exc_class e = ValueError /\ tr' = tr)
  \/ (tr' <> tr
      /\ (exc_class e = RequestException
          \/ exc_class e = Exception
          \/ isinstance e Exception = false)).
Proof.
  intros H.
  assert (Hne : forall x : Event, (tr ++ [x])%list <> tr).
  { intros x Hx. apply (f_equal (@List.length Event)) in Hx.
    rewrite length_app in Hx. cbn in Hx. lia. }
  destruct arg as [| | |given| |];
    try (injection H as <- <-; left; split; reflexivity).
  destruct (String.eqb_spec (str_strip env given) "") as [E|E].
  - unfold get_pokemon_stats in H. rewrite stats_guard, E in H.
    injection H as <- <-. left. split; reflexivity.
  - right. pose proof (stats_trace env given tr E) as Ht.
    rewrite H in Ht. cbn [snd] in Ht. subst tr'. split; [apply Hne|].
    unfold get_pokemon_stats in H. rewrite stats_guard in H.
    destruct (String.eqb_spec (str_strip env given) "") as [E'|_]; [contradiction|].
    apply five_clauses in H as (e0 & _ & ->).
    destruct (isinstance e0 Timeout); [left; reflexivity|].
    destruct (isinstance e0 ConnectionError); [left; reflexivity|].
    destruct (isinstance e0 RequestException); [left; reflexivity|].
    destruct (isinstance e0 KeyError); [right; left; reflexivity|].
    destruct (isinstance e0 Exception) eqn:Ee; [right; left; reflexivity|].
    right; right; exact Ee.
Qed.

Lemma stats_error_classes_sample :
  let run := get_pokemon_stats (Samples.S.env_of Samples.S.pokeapi)
               (JStr "missingno") [] in
  match fst run with
  | inl e =>
      (exc_class e = ValueError /\ snd run = [])
      \/ (snd run <> []
          /\ (exc_class e = RequestException
              \/ exc_class e = Exception
              \/ isinstance e Exception = false))
  | inr _ => False
  end.
Proof.
  intros run.
  destruct (fst run) as [e|result] eqn:E; [|discriminate E].
  apply (stats_error_classes (Samples.S.env_of Samples.S.pokeapi)
           (JStr "missingno") [] (snd run) e).
  rewrite <- E. reflexivity.
Defined.

Lemma check_identifier_int (env : Env) (arg : Json) (z : Z) :
  check_identifier env arg = inr (JInt z) -> arg = JInt z /\ (0 < z)%Z.
Proof.
  unfold check_identifier.
  destruct arg as [|[|]|z'|[|c s]|[|x l]|[|f l]]; cbn; try discriminate.
  destruct (Z.eqb_spec z' 0); cbn; [discriminate|].
  destruct (Z.leb_spec z' 0); [discriminate|].
  intros Hz. injection Hz as <-. split; [reflexivity | lia].
Qed.

(** X8. An error that leaves [get_pokemon_abilities] is of one of three
    kinds. A [ValueError] of the checks on the argument, before any
    request. An [Exception], also before any request, when the argument
    is an integer above 0 with more digits than the interpreter converts
    into a string: the f-string of the URL raises inside the [try]. Or
    an error raised after the first request, which has the class
    [RequestException] or [Exception] itself, or is no [Exception] at
    all. *)
Theorem abilities_error_classes (env : Env) (arg : Json) (tr tr' : Trace)
    (e : exn) :
  get_pokemon_abilities env arg tr = (inl e, tr') ->
  (exc_class e = ValueError /\ tr' = tr)
  \/ (exc_class e = Exception /\ tr' = tr
      /\ exists z,
           arg = JInt z
           /\ (0 < max_str_digits env)%Z
           /\ (10 ^ max_str_digits env <= z)%Z)
  \/ (tr' <> tr
      /\ (exc_class e = RequestException
          \/ exc_class e = Exception
          \/ isinstance e Exception = false)).
Proof.
  intros H.
  destruct (check_identifier env arg) as [e0|v] eqn:Hc.
  - left. unfold get_pokemon_abilities, bind at 1, lift at 1 in H.
    rewrite Hc in H. injection H as <- <-. split; [|reflexivity].
    unfold check_identifier in Hc.
    repeat match type of Hc with
           | context [if ?b then _ else _] => destruct b
           | context [match ?x with _ => _ end] => destruct x
           end; try discriminate; now injection Hc as <-.
  - right.
    destruct (str_limited (max_str_digits env) v) as [e0|text] eqn:Hf.
    + left. rewrite (abilities_unformatted env arg v e0 tr Hc Hf) in H.
      injection H as <- <-. split; [reflexivity|]. split; [reflexivity|].
      apply str_limited_inl in Hf as (z & -> & Hlong & _).
      apply check_identifier_int in Hc as [-> Hz]. exists z.
      apply andb_prop in Hlong as [H0 H1].
      apply Z.ltb_lt in H0. apply Z.leb_le in H1.
      rewrite Z.abs_eq in H1 by lia. now repeat split.
    + right.
      destruct (abilities_run env arg v text tr _ tr' Hc Hf H)
        as (more & Ht & _).
      split.
      * intros Hx. rewrite Hx in Ht.
        apply (f_equal (@List.length Event)) in Ht.
        rewrite length_app in Ht. cbn in Ht. lia.
      * unfold get_pokemon_abilities, bind at 1, lift at 1 in H.
        rewrite Hc in H. apply five_clauses in H as (e0 & _ & ->).
        destruct (isinstance e0 Timeout); [left; reflexivity|].
        destruct (isinstance e0 ConnectionError); [left; reflexivity|].
        destruct (isinstance e0 RequestException); [left; reflexivity|].
        destruct (isinstance e0 KeyError); [right; left; reflexivity|].
        destruct (isinstance e0 Exception) eqn:Ee;
          [right; left; reflexivity|].
        right; right; exact Ee.
Qed.

Lemma abilities_error_classes_sample :
  let env := Samples.S.env_of Samples.S.timing_out in
  let run := get_pokemon_abilities env (JInt 6) [] in
  match fst run with
  | inl e =>
      (exc_class e = ValueError /\ snd run = [])
      \/ (exc_class e = Exception /\ snd run = []
          /\ exists z,
               JInt 6 = JInt z
               /\ (0 < max_str_digits env)%Z
               /\ (10 ^ max_str_digits env <= z)%Z)
      \/ (snd run <> []
          /\ (exc_class e = RequestException
              \/ exc_class e = Exception
              \/ isinstance e Exception = false))
  | inr _ => False
  end.
Proof.
  intros env run.
  destruct (fst run) as [e|result] eqn:E; [|discriminate E].
  apply (abilities_error_classes env (JInt 6) [] (snd run) e).
  rewrite <- E. reflexivity.
Defined.

(** An identifier of 4301 digits, with the limit CPython starts with. *)
Example abilities_identifier_too_long :
  get_pokemon_abilities (Samples.S.env_of Samples.S.pokeapi)
    (JInt (10 ^ 4300)) []
  = (inl (mk_exn Exception
            ("An unexpected error occurred: "
               ++ "Exceeds the limit (4300 digits) for integer string "
               ++ "conversion; use sys.set_int_max_str_digits() to increase "
               ++ "the limit")),
     []).
Proof. vm_compute. reflexivity. Qed.

(** X9. When the first request itself fails with a [RequestException],
    both tools raise a [RequestException] whose text is chosen by the
    first clause that matches: the time-out text for a [Timeout] (also for
    a [ConnectTimeout], which is a [ConnectionError] too), the connection
    text for any other [ConnectionError], and otherwise a text that ends
    with the text of the error. *)
Theorem transport_errors_by_clause_order (env : Env) (given : string)
    (tr : Trace) (e : exn) :
  str_strip env given <> "" ->
  env_get env tr (pokemon_url (str_strip env (str_lower env given))) = inl e ->
  isinstance e RequestException = true ->
  fst (get_pokemon_stats env (JStr given) tr)
  = inl (mk_exn RequestException
           (if isinstance e Timeout then
              "Request timed out while fetching Pokémon data. Please try again."
            else if isinstance e ConnectionError then
              "Unable to connect to PokéAPI. Please check your internet connection."
            else "Failed to fetch Pokémon data: " ++ exc_str e))
  /\ fst (get_pokemon_abilities env (JStr given) tr)
     = inl (mk_exn RequestException
              (if isinstance e Timeout then
                 "Request timed out. Please try again."
               else if isinstance e ConnectionError then
                 "Connection error. Please check your internet connection."
               else "API request failed: " ++ exc_str e)).
Proof.
  unfold pokemon_url. intros Hg Hget He. split.
  - unfold get_pokemon_stats. rewrite stats_guard.
    destruct (String.eqb_spec (str_strip env given) "") as [E|_]; [contradiction|].
    unfold try_except, bind, requests_get. rewrite Hget. cbn [find_clause].
    rewrite He. unfold raise.
    destruct (isinstance e Timeout); [reflexivity|].
    destruct (isinstance e ConnectionError); reflexivity.
  - unfold get_pokemon_abilities, check_identifier. rewrite truthy_str.
    destruct (String.eqb_spec given "") as [E|_].
    { now apply (not_blank_not_empty env) in Hg. }
    cbn [negb]. unfold bind at 1, lift at 1.
    unfold try_except, bind, lift, requests_get. cbn [str_limited str].
    rewrite Hget. cbn [find_clause].
    rewrite He. unfold raise.
    destruct (isinstance e Timeout); [reflexivity|].
    destruct (isinstance e ConnectionError); reflexivity.
Qed.

Lemma transport_errors_by_clause_order_sample :
  let env := Samples.S.env_of MoreSamples.S.connect_timing_out in
  fst (get_pokemon_stats env (JStr "Pikachu") [])
  = inl (mk_exn RequestException
           "Request timed out while fetching Pokémon data. Please try again.")
  /\ fst (get_pokemon_abilities env (JStr "Pikachu") [])
     = inl (mk_exn RequestException "Request timed out. Please try again.").
Proof.
  intros env.
  apply (transport_errors_by_clause_order env "Pikachu" []
           (mk_exn ConnectTimeout "Connection to pokeapi.co timed out.")).
  - discriminate.
  - reflexivity.
  - reflexivity.
Defined.

(** X10. An error status other than 404 (400 to 599) makes both tools
    raise a [RequestException] that carries the text of
    [raise_for_status]: the code, "Client Error" below 500 and "Server
    Error" from 500 on, the reason and the URL. The body is not read. *)
Theorem error_status_is_reported (env : Env) (given : string) (tr : Trace)
    (response : Response) :
  str_strip env given <> "" ->
  env_get env tr (pokemon_url (str_strip env (str_lower env given))) = inr response ->
  (400 <= status_code response < 600)%Z ->
  status_code response <> 404%Z ->
  let text :=
    str_int (status_code response)
      ++ (if (status_code response <? 500)%Z then " Client Error: "
          else " Server Error: ")
      ++ reason response ++ " for url: " ++ url response in
  fst (get_pokemon_stats env (JStr given) tr)
  = inl (mk_exn RequestException ("Failed to fetch Pokémon data: " ++ text))
  /\ fst (get_pokemon_abilities env (JStr given) tr)
     = inl (mk_exn RequestException ("API request failed: " ++ text)).
Proof.
  intros Hg Hget Hrange H404 text. unfold pokemon_url in Hget.
  assert (Hs : raise_for_status response = inl (mk_exn HTTPError text)).
  { unfold raise_for_status, text.
    destruct (Z.leb_spec 400 (status_code response)); [|lia].
    destruct (Z.ltb_spec (status_code response) 500); [reflexivity|].
    cbn [andb].
    destruct (Z.leb_spec 500 (status_code response)); [|lia].
    destruct (Z.ltb_spec (status_code response) 600); [reflexivity | lia]. }
  clearbody text. split.
  - unfold get_pokemon_stats. rewrite stats_guard.
    destruct (String.eqb_spec (str_strip env given) "") as [E|_]; [contradiction|].
    unfold try_except, bind, requests_get, lift. rewrite Hget.
    destruct (Z.eqb_spec (status_code response) 404) as [E|_];
      [contradiction|].
    rewrite Hs. reflexivity.
  - unfold get_pokemon_abilities, check_identifier. rewrite truthy_str.
    destruct (String.eqb_spec given "") as [E|_].
    { now apply (not_blank_not_empty env) in Hg. }
    cbn [negb]. unfold bind at 1, lift at 1.
    unfold try_except, bind, requests_get, lift. cbn [str_limited str].
    rewrite Hget.
    destruct (Z.eqb_spec (status_code response) 404) as [E|_];
      [contradiction|].
    rewrite Hs. reflexivity.
Qed.

Lemma error_status_is_reported_sample :
  let address := base_url ++ "/pokemon/mew" in
  let env :=
    Samples.S.env_of (Samples.S.always (MoreSamples.S.overloaded address)) in
  fst (get_pokemon_stats env (JStr "Mew") [])
  = inl (mk_exn RequestException
           ("Failed to fetch Pokémon data: "
              ++ "503 Server Error: Service Unavailable for url: " ++ address))
  /\ fst (get_pokemon_abilities env (JStr "Mew") [])
     = inl (mk_exn RequestException
              ("API request failed: "
                 ++ "503 Server Error: Service Unavailable for url: "
                 ++ address)).
Proof.
  intros address env.
  apply (error_status_is_reported env "Mew" []
           (MoreSamples.S.overloaded address)).
  - discriminate.
  - reflexivity.
  - cbn. lia.
  - discriminate.
Defined.

(** X11. When the reply is a JSON object without the key [stats],
    [get_pokemon_stats] raises a plain [Exception] that names the missing
    field in quotes; a reply that is no object fails at the same place
    with a [TypeError], which leaves as an "unexpected error". *)
Theorem stats_reply_without_stats (env : Env) (given : string) (tr : Trace)
    (response : Response) (data : Json) :
  str_strip env given <> "" ->
  env_get env tr (pokemon_url (str_strip env (str_lower env given))) = inr response ->
  (status_code response < 400 \/ 600 <= status_code response)%Z ->
  json response = inr data ->
  match data with
  | JObj fields =>
      lookup "stats" fields = None ->
      fst (get_pokemon_stats env (JStr given) tr)
      = inl (mk_exn Exception
               "Unexpected API response format. Missing expected field: 'stats'")
  | _ =>
      exists text,
        fst (get_pokemon_stats env (JStr given) tr)
        = inl (mk_exn Exception
                 ("An unexpected error occurred while processing Pokémon stats: "
                    ++ text))
  end.
Proof.
  unfold pokemon_url. intros Hg Hget Hrange Hj.
  assert (Hs : raise_for_status response = inr tt).
  { unfold raise_for_status.
    destruct (Z.leb_spec 400 (status_code response));
      destruct (Z.ltb_spec (status_code response) 500);
      destruct (Z.leb_spec 500 (status_code response));
      destruct (Z.ltb_spec (status_code response) 600);
      try reflexivity; lia. }
  unfold get_pokemon_stats. rewrite stats_guard.
  destruct (String.eqb_spec (str_strip env given) "") as [E|_]; [contradiction|].
  unfold try_except, bind, requests_get, lift, raise. rewrite Hget.
  destruct (Z.eqb_spec (status_code response) 404) as [E|_]; [lia|].
  rewrite Hs, Hj.
  destruct data as [| | | | |fields]; cbn [getitem];
    try (eexists; reflexivity).
  intros Hl. rewrite Hl. reflexivity.
Qed.

Lemma stats_reply_without_stats_sample :
  let address := base_url ++ "/pokemon/charizard" in
  let env :=
    Samples.S.env_of
      (Samples.S.always (Samples.S.ok address MoreSamples.S.bare)) in
  fst (get_pokemon_stats env (JStr "charizard") [])
  = inl (mk_exn Exception
           "Unexpected API response format. Missing expected field: 'stats'").
Proof.
  intros address env.
  apply (stats_reply_without_stats env "charizard" []
           (Samples.S.ok address MoreSamples.S.bare) MoreSamples.S.bare).
  - discriminate.
  - reflexivity.
  - left. cbn. lia.
  - reflexivity.
  - reflexivity.
Defined.

(** *** [get_pokemon_stats]: its result *)

Lemma stat_step_reads (bs : list (Json * Json)) (sd : list StatDetail)
    (t : Z) (entry : Json)
    (acc' : list (Json * Json) * list StatDetail * Z) :
  stat_step (bs, sd, t) entry = inr acc' ->
  exists d bs' t',
    acc' = (bs', (sd ++ [d])%list, t')
    /\ detail_of entry d
    /\ dict_set bs (stat_name d) (base_stat d) = inr bs'
    /\ int_add "+=" t (base_stat d) = inr t'.
Proof.
  unfold stat_step, ebind. intros H.
  destruct (getitem entry "stat") as [e|stat] eqn:E1; [discriminate|].
  destruct (getitem stat "name") as [e|k] eqn:E2; [discriminate|].
  destruct (getitem entry "base_stat") as [e|v] eqn:E3; [discriminate|].
  destruct (getitem entry "effort") as [e|ev] eqn:E4; [discriminate|].
  destruct (dict_set bs k v) as [e|bs'] eqn:E5; [discriminate|].
  destruct (int_add "+=" t v) as [e|t'] eqn:E6; [discriminate|].
  injection H as <-.
  exists {| stat_name := k; base_stat := v; effort := ev |}, bs', t'.
  repeat split; try assumption. exists stat. now repeat split.
Qed.

(** A property that every round of the loop over the stats keeps holds
    when the loop is over. *)
Lemma stat_loop_keeps
    (P : list (Json * Json) -> list StatDetail -> Z -> Prop) :
  (forall bs sd t d bs' t',
      P bs sd t ->
      dict_set bs (stat_name d) (base_stat d) = inr bs' ->
      int_add "+=" t (base_stat d) = inr t' ->
      P bs' (sd ++ [d])%list t') ->
  forall (entries : list Json) bs sd t bs' sd' t' (tr tr' : Trace),
    for_each entries (fun acc e => lift (stat_step acc e)) (bs, sd, t) tr
    = (inr (bs', sd', t'), tr') ->
    P bs sd t -> P bs' sd' t'.
Proof.
  intros Hstep.
  induction entries as [|entry entries IH];
    intros bs sd t bs' sd' t' tr tr' H HP.
  - now injection H as <- <- <- _.
  - cbn [for_each] in H. unfold bind at 1, lift at 1 in H.
    destruct (stat_step (bs, sd, t) entry) as [e|acc1] eqn:E; [discriminate|].
    apply stat_step_reads in E as (d & bs1 & t1 & -> & _ & Hset & Hadd).
    apply (IH _ _ _ _ _ _ _ _ H). now apply (Hstep bs sd t d).
Qed.

Lemma stat_loop_mirror (entries : list Json) :
  forall bs sd t bs' sd' t' (tr tr' : Trace),
    for_each entries (fun acc e => lift (stat_step acc e)) (bs, sd, t) tr
    = (inr (bs', sd', t'), tr') ->
    exists added,
      sd' = (sd ++ added)%list
      /\ Forall2 detail_of entries added
      /\ sum_from t (map base_stat added) = inr t'.
Proof.
  induction entries as [|entry entries IH];
    intros bs sd t bs' sd' t' tr tr' H.
  - injection H as <- <- <- _. exists []. rewrite app_nil_r.
    repeat split. constructor.
  - cbn [for_each] in H. unfold bind at 1, lift at 1 in H.
    destruct (stat_step (bs, sd, t) entry) as [e|acc1] eqn:E; [discriminate|].
    apply stat_step_reads in E as (d & bs1 & t1 & -> & Hd & _ & Hadd).
    apply IH in H as (added & -> & Hall & Hsum).
    exists (d :: added). rewrite <- app_assoc. repeat split.
    + now constructor.
    + cbn [map sum_from]. rewrite (int_add_op _ "+" _ _ _ Hadd). exact Hsum.
Qed.

(** X12. A result of [get_pokemon_stats] is read off the reply to its one
    request: [stat_details] has one entry per element of the reply's
    [stats], in the same order, with the name of its [stat], its
    [base_stat] and its [effort]; [total_base_stats] is the sum of the
    [base_stat] of these entries, whether or not a name comes twice; and
    [pokemon_name] and [pokemon_id] are the reply's [name] and [id], not
    the argument. *)
Theorem stats_result_mirrors_the_reply (env : Env) (arg : Json)
    (tr tr' : Trace) (r : StatsResult) :
  get_pokemon_stats env arg tr = (inr r, tr') ->
  exists given response data data_stats entries,
    arg = JStr given
    /\ env_get env tr (pokemon_url (str_strip env (str_lower env given))) = inr response
    /\ json response = inr data
    /\ getitem data "stats" = inr data_stats
    /\ iterate data_stats = inr entries
    /\ Forall2 detail_of entries (stat_details r)
    /\ sum (map base_stat (stat_details r)) = inr (total_base_stats r)
    /\ getitem data "name" = inr (pokemon_name r)
    /\ getitem data "id" = inr (pokemon_id r).
Proof.
  intros H.
  apply stats_success_inv in H
    as (given & response & data & data_stats & entries
        & -> & Hget & Hj & Hs & Hi & Hloop & Hn & Hid).
  apply stat_loop_mirror in Hloop as (added & Hadded & Hall & Hsum).
  cbn [app] in Hadded. rewrite <- Hadded in Hall, Hsum.
  exists given, response, data, data_stats, entries.
  unfold pokemon_url, sum. now repeat split.
Qed.

Lemma stats_result_mirrors_the_reply_sample :
  let env := Samples.S.env_of
               (Samples.S.always (Samples.S.ok "" Samples.S.twice_hp)) in
  let run := get_pokemon_stats env (JStr "glitch") [] in
  match fst run with
  | inr r =>
      exists given response data data_stats entries,
        JStr "glitch" = JStr given
        /\ env_get env []
             (pokemon_url (str_strip env (str_lower env given))) = inr response
        /\ json response = inr data
        /\ getitem data "stats" = inr data_stats
        /\ iterate data_stats = inr entries
        /\ Forall2 detail_of entries (stat_details r)
        /\ sum (map base_stat (stat_details r)) = inr (total_base_stats r)
        /\ getitem data "name" = inr (pokemon_name r)
        /\ getitem data "id" = inr (pokemon_id r)
  | inl _ => False
  end.
Proof.
  intros env run.
  destruct (fst run) as [e|r] eqn:E; [discriminate E|].
  apply (stats_result_mirrors_the_reply env (JStr "glitch") [] (snd run) r).
  rewrite <- E. reflexivity.
Defined.

(** *** [base_stats] as a dict *)

Lemma key_eqb_sym (a b : Json) : key_eqb a b = key_eqb b a.
Proof.
  destruct a as [|[|]| | | |], b as [|[|]| | | |]; cbn [key_eqb as_int];
    try reflexivity; try apply Z.eqb_sym; apply String.eqb_sym.
Qed.

Lemma key_eqb_trans (a b c : Json) :
  key_eqb a b = true -> key_eqb b c = true -> key_eqb a c = true.
Proof.
  destruct a as [|[|]|x|s|l|f], b as [|[|]|y|t|l'|f'], c as [|[|]|z|u|l''|f''];
    cbn [key_eqb as_int]; intros H1 H2; try discriminate; try reflexivity;
    try (apply Z.eqb_eq in H1); try (apply Z.eqb_eq in H2);
    try (apply String.eqb_eq in H1); try (apply String.eqb_eq in H2);
    subst; try discriminate; try reflexivity;
    try apply Z.eqb_refl; try apply String.eqb_refl; try lia.
Qed.

Lemma key_eqb_refl (k v : Json) (d d' : list (Json * Json)) :
  dict_set d k v = inr d' -> key_eqb k k = true.
Proof.
  destruct k as [|[|]|z|s|l|f]; cbn [dict_set key_eqb as_int];
    try discriminate; intros _;
    try reflexivity; [apply Z.eqb_refl | apply String.eqb_refl].
Qed.

Lemma dict_set_put (d d' : list (Json * Json)) (k v : Json) :
  dict_set d k v = inr d' -> d' = dict_put k v d.
Proof. destruct k; cbn; congruence. Qed.

Lemma dict_put_keys (k v : Json) (d : list (Json * Json)) :
  map fst (dict_put k v d)
  = if existsb (fun k' => key_eqb k' k) (map fst d) then map fst d
    else (map fst d ++ [k])%list.
Proof.
  induction d as [|[k' v'] d IH]; cbn; [reflexivity|].
  destruct (key_eqb k' k); cbn; [reflexivity|].
  rewrite IH. now destruct (existsb _ (map fst d)).
Qed.

Lemma distinct_keys_snoc (l : list Json) (k : Json) :
  distinct_keys l = true ->
  existsb (fun k' => key_eqb k' k) l = false ->
  distinct_keys (l ++ [k]) = true.
Proof.
  induction l as [|x l IH]; cbn; [reflexivity|].
  intros H1 H2. apply andb_prop in H1 as [Hx Hl].
  apply orb_false_iff in H2 as [Hxk Hlk].
  rewrite existsb_app. cbn. rewrite Hxk, orb_false_r, Hx. cbn.
  now apply IH.
Qed.

Lemma dict_get_put (d : list (Json * Json)) (k v key : Json) :
  key_eqb k k = true ->
  dict_get (dict_put k v d) key
  = if key_eqb k key then Some v else dict_get d key.
Proof.
  intros Hk. induction d as [|[k' v'] d IH]; cbn.
  - reflexivity.
  - destruct (key_eqb k' k) eqn:E; cbn.
    + destruct (key_eqb k' key) eqn:E'.
      * rewrite key_eqb_sym in E.
        now rewrite (key_eqb_trans _ _ _ E E').
      * destruct (key_eqb k key) eqn:E''; [|reflexivity].
        now rewrite (key_eqb_trans _ _ _ E E'') in E'.
    + destruct (key_eqb k' key) eqn:E'; [|exact IH].
      destruct (key_eqb k key) eqn:E''; [|reflexivity].
      rewrite (key_eqb_sym k key) in E''.
      now rewrite (key_eqb_trans _ _ _ E' E'') in E.
Qed.

Lemma last_under_snoc (key : Json) (sd : list StatDetail) (d : StatDetail) :
  last_under key (sd ++ [d])
  = if key_eqb (stat_name d) key then Some d else last_under key sd.
Proof.
  induction sd as [|x sd IH]; cbn; [reflexivity|].
  rewrite IH. now destruct (key_eqb (stat_name d) key).
Qed.

(** X13. In a result of [get_pokemon_stats] the dict [base_stats] has no
    key twice and no more keys than [stat_details] has entries, and its
    value under any key is the [base_stat] of the last entry of
    [stat_details] with that name: a name that comes twice keeps one key,
    with the later value. *)
Theorem base_stats_keeps_the_last_value (env : Env) (arg : Json)
    (tr tr' : Trace) (r : StatsResult) :
  get_pokemon_stats env arg tr = (inr r, tr') ->
  distinct_keys (map fst (base_stats r)) = true
  /\ (List.length (base_stats r) <= List.length (stat_details r))%nat
  /\ forall key,
       dict_get (base_stats r) key
       = option_map base_stat (last_under key (stat_details r)).
Proof.
  intros H.
  apply stats_success_inv in H
    as (given & response & data & data_stats & entries
        & _ & _ & _ & _ & _ & Hloop & _ & _).
  apply (stat_loop_keeps
           (fun bs sd _ =>
              distinct_keys (map fst bs) = true
              /\ (List.length bs <= List.length sd)%nat
              /\ forall key,
                   dict_get bs key
                   = option_map base_stat (last_under key sd)))
    in Hloop; [exact Hloop| |repeat split; cbn; auto].
  clear. intros bs sd t d bs' t' (Hd & Hl & Hg) Hset _.
  pose proof (key_eqb_refl _ _ _ _ Hset) as Hk.
  apply dict_set_put in Hset. subst bs'. repeat split.
  - rewrite dict_put_keys.
    destruct (existsb _ (map fst bs)) eqn:E; [exact Hd|].
    now apply distinct_keys_snoc.
  - rewrite <- (length_map fst), dict_put_keys, length_app. cbn.
    destruct (existsb _ (map fst bs)); rewrite ?length_app, length_map;
      cbn; lia.
  - intros key. rewrite (dict_get_put _ _ _ _ Hk), last_under_snoc.
    destruct (key_eqb (stat_name d) key); [reflexivity | apply Hg].
Qed.

Lemma base_stats_keeps_the_last_value_sample :
  let run := get_pokemon_stats
               (Samples.S.env_of
                  (Samples.S.always (Samples.S.ok "" Samples.S.twice_hp)))
               (JStr "glitch") [] in
  match fst run with
  | inr r =>
      distinct_keys (map fst (base_stats r)) = true
      /\ (List.length (base_stats r) <= List.length (stat_details r))%nat
      /\ forall key,
           dict_get (base_stats r) key
           = option_map base_stat (last_under key (stat_details r))
  | inl _ => False
  end.
Proof.
  intros run.
  destruct (fst run) as [e|r] eqn:E; [discriminate E|].
  apply (base_stats_keeps_the_last_value
           (Samples.S.env_of
              (Samples.S.always (Samples.S.ok "" Samples.S.twice_hp)))
           (JStr "glitch") [] (snd run) r).
  rewrite <- E. reflexivity.
Defined.

(** *** The texts of an ability *)

(** X14. The two searches for the English text stop at the first entry
    whose language is "en": the entries before it, in other languages, are
    skipped, the entries after it are not read at all (a second English
    entry, or a broken one, changes nothing), and the result is that of
    the English entry alone. A list in other languages only gives the text
    set before the search. *)
Theorem first_english_entry_wins (before after : list Json) (entry : Json)
    (description0 : string) (effect0 : Json) :
  Forall other_language before ->
  english entry ->
  find_description (before ++ entry :: after) description0
  = find_description [entry] description0
  /\ find_effect (before ++ entry :: after) effect0
     = getitem entry "effect"
  /\ find_description before description0 = inr description0
  /\ find_effect before effect0 = inr effect0.
Proof.
  intros Hb (language & language_name & H1 & H2 & H3).
  induction Hb as [|x before (lx & nx & Hx1 & Hx2 & Hx3) _ IH].
  - cbn [app find_description find_effect ebind].
    rewrite H1. cbn [ebind]. rewrite H2. cbn [ebind]. rewrite H3.
    repeat split.
  - cbn [app find_description find_effect].
    rewrite Hx1. cbn [ebind]. rewrite Hx2. cbn [ebind]. rewrite Hx3.
    exact IH.
Qed.

Lemma first_english_entry_wins_sample :
  let german := JObj [("effect", JStr "Verstaerkt Feuer-Attacken.");
                      ("flavor_text", JStr "Feuer");
                      ("language", Samples.S.language "de")] in
  let english_entry := JObj [("effect", JStr "Strengthens fire moves.");
                             ("flavor_text", JStr ("Powers up" ++ nl ++ "Fire"));
                             ("language", Samples.S.language "en")] in
  let broken := JArr [] in
  find_description ([german] ++ english_entry :: [broken]) "none"
  = find_description [english_entry] "none"
  /\ find_effect ([german] ++ english_entry :: [broken]) JNull
     = getitem english_entry "effect"
  /\ find_description [german] "none" = inr "none"
  /\ find_effect [german] JNull = inr JNull.
Proof.
  intros german english_entry broken.
  apply (first_english_entry_wins [german] [broken] english_entry "none"
           JNull).
  - constructor; [|constructor].
    exists (Samples.S.language "de"), (JStr "de"). repeat split.
  - exists (Samples.S.language "en"), (JStr "en"). repeat split.
Defined.

(** *** The abilities of the result *)

Lemma ability_step_reads (env : Env) (abilities abilities' : list AbilityInfo)
    (entry : Json) (tr tr' : Trace) :
  ability_step env abilities entry tr = (inr abilities', tr') ->
  exists info,
    abilities' = (abilities ++ [info])%list /\ ability_of entry info.
Proof.
  unfold ability_step, bind, lift, try_except, ret, print, emit.
  destruct (getitem entry "ability") as [e|ability] eqn:E1; [discriminate|].
  destruct (getitem ability "name") as [e|ability_name] eqn:E2;
    [discriminate|].
  destruct (getitem entry "is_hidden") as [e|hidden] eqn:E3; [discriminate|].
  destruct (getitem entry "slot") as [e|ability_slot] eqn:E4; [discriminate|].
  set (info := {| name := ability_name; is_hidden := hidden;
                  slot := ability_slot; details := None |}).
  assert (Hof : forall d,
            ability_of entry {| name := name info; is_hidden := is_hidden info;
                                slot := slot info; details := d |}).
  { intros d. exists ability. now repeat split. }
  destruct (fetch_details_cases env entry info tr)
    as [(e & -> & He)|[(e & address & ->)|(d & address & -> & Hd)]].
  - cbn [find_clause]. rewrite He. discriminate.
  - cbn [find_clause]. destruct (isinstance e RequestException);
      [|discriminate].
    intros H. injection H as <- _. exists info. split; [reflexivity|].
    apply (Hof None).
  - intros H. injection H as <- _. eexists. split; [reflexivity|].
    apply (Hof (Some d)).
Qed.

Lemma abilities_loop_mirror (env : Env) (entries : list Json) :
  forall (abilities abilities' : list AbilityInfo) (tr tr' : Trace),
    for_each entries (ability_step env) abilities tr = (inr abilities', tr') ->
    exists added,
      abilities' = (abilities ++ added)%list
      /\ Forall2 ability_of entries added.
Proof.
  induction entries as [|entry entries IH];
    intros abilities abilities' tr tr' H.
  - injection H as <- _. exists []. rewrite app_nil_r. split; constructor.
  - cbn [for_each] in H. unfold bind in H.
    destruct (ability_step env abilities entry tr) as [[e|abilities1] tr1]
      eqn:E; [discriminate|].
    apply ability_step_reads in E as (info & -> & Hinfo).
    apply IH in H as (added & -> & Hall).
    exists (info :: added). rewrite <- app_assoc. split; [reflexivity|].
    now constructor.
Qed.

(** X15. A result of [get_pokemon_abilities] is read off the reply to its
    first request: [pokemon_name] and [pokemon_id] are the reply's [name]
    and [id], and the abilities are those of the reply's [abilities], one
    for one, each with the name of its [ability], its [is_hidden] and its
    [slot], in the order the sort leaves them in. No ability is dropped,
    not even one whose details could not be fetched. The sort is only
    taken to rearrange the list. *)
Theorem abilities_result_mirrors_the_reply (env : Env) (arg : Json)
    (tr tr' : Trace) (result : AbilitiesResult) :
  (forall key l l', list_sort env key l = inr l' -> Permutation l l') ->
  get_pokemon_abilities env arg tr = (inr result, tr') ->
  exists v response data data_abilities entries gathered,
    check_identifier env arg = inr v
    /\ env_get env tr (pokemon_url (str v)) = inr response
    /\ json response = inr data
    /\ getitem data "name" = inr (abilities_pokemon_name result)
    /\ getitem data "id" = inr (abilities_pokemon_id result)
    /\ getitem data "abilities" = inr data_abilities
    /\ iterate data_abilities = inr entries
    /\ Forall2 ability_of entries gathered
    /\ Permutation gathered (abilities result).
Proof.
  intros Hsort H.
  destruct (abilities_success_checked _ _ _ _ _ H) as (v & Hv & Hf).
  unfold get_pokemon_abilities, bind at 1, lift at 1 in H.
  rewrite Hv in H.
  unfold try_except, bind, lift, requests_get, raise, ret in H.
  rewrite Hf in H. fold (pokemon_url (str v)) in H.
  destruct (env_get env tr (pokemon_url (str v))) as [e|response] eqn:Hget.
  { revert H. by_clauses; discriminate. }
  destruct (status_code response =? 404)%Z.
  { revert H. by_clauses; discriminate. }
  destruct (raise_for_status response) as [e|u].
  { revert H. by_clauses; discriminate. }
  destruct (json response) as [e|data] eqn:Hj.
  { revert H. by_clauses; discriminate. }
  destruct (getitem data "name") as [e|data_name] eqn:Hn.
  { revert H. by_clauses; discriminate. }
  destruct (getitem data "id") as [e|data_id] eqn:Hid.
  { revert H. by_clauses; discriminate. }
  destruct (getitem data "abilities") as [e|data_abilities] eqn:Ha.
  { revert H. by_clauses; discriminate. }
  destruct (iterate data_abilities) as [e|entries] eqn:Hi.
  { revert H. by_clauses; discriminate. }
  destruct (for_each entries (ability_step env) [] _)
    as [[e|gathered] tr1] eqn:Hloop.
  { revert H. by_clauses; discriminate. }
  destruct (list_sort env slot gathered) as [e|sorted] eqn:Hs.
  { revert H. by_clauses; discriminate. }
  injection H as <- _.
  apply abilities_loop_mirror in Hloop as (added & Hadded & Hall).
  cbn [app] in Hadded. subst added.
  exists v, response, data, data_abilities, entries, gathered.
  cbn [abilities_pokemon_name abilities_pokemon_id abilities].
  repeat split; try assumption; try reflexivity. now apply (Hsort slot).
Qed.

Lemma abilities_result_mirrors_the_reply_sample :
  let env := Samples.S.env_of Samples.S.pokeapi in
  let run := get_pokemon_abilities env (JStr "Charizard") [] in
  match fst run with
  | inr result =>
      exists v response data data_abilities entries gathered,
        check_identifier env (JStr "Charizard") = inr v
        /\ env_get env [] (pokemon_url (str v)) = inr response
        /\ json response = inr data
        /\ getitem data "name" = inr (abilities_pokemon_name result)
        /\ getitem data "id" = inr (abilities_pokemon_id result)
        /\ getitem data "abilities" = inr data_abilities
        /\ iterate data_abilities = inr entries
        /\ Forall2 ability_of entries gathered
        /\ Permutation gathered (abilities result)
  | inl _ => False
  end.
Proof.
  intros env run.
  destruct (fst run) as [e|result] eqn:E; [discriminate E|].
  apply (abilities_result_mirrors_the_reply env (JStr "Charizard") []
           (snd run) result).
  - intros key l l'. apply sort_ints_rearranges.
  - rewrite <- E. reflexivity.
Defined.

End ServerMore.

(* ===================================================================== *)
(** ** More on the client: how a run ends, and how it starts *)

Module ClientMore.
Import Py Client Startup PyFacts PyMore ClientSpec.

Lemma for_each_app {St A X : Type} (xs ys : list X) (body : A -> X -> M St A) :
  forall (a : A) (s : St),
    for_each (xs ++ ys) body a s
    = match for_each xs body a s with
      | (inr a', s') => for_each ys body a' s'
      | (inl e, s') => (inl e, s')
      end.
Proof.
  induction xs as [|x xs IH]; intros a s; cbn [app for_each].
  - reflexivity.
  - unfold bind. destruct (body a x s) as [[e|a'] s']; [reflexivity|].
    apply IH.
Qed.

Lemma request_settings_app (a b : Trace) :
  request_settings (a ++ b) = request_settings a ++ request_settings b.
Proof. apply flat_map_app. Qed.

Lemma request_settings_none (events : Trace) :
  requests_made events = [] -> request_settings events = [].
Proof.
  induction events as [|[text|p|m ms ts|name args] events IH]; cbn;
    try exact IH; [reflexivity | discriminate].
Qed.

Section Run.

Variable env : Env.
Variable self : PokeBot.

(** *** How a run ends *)

(** An exception that leaves a round of the loop is no [Exception]. *)
Lemma loop_body_raises (tr tr' : Trace) (e : exn) :
  loop_body env self tr = (inl e, tr') -> isinstance e Exception = false.
Proof.
  rewrite loop_body_run.
  destruct (env_input env tr) as [e0|line].
  - destruct (isinstance e0 Exception) eqn:He; [discriminate|].
    intros H. now injection H as <- _.
  - destruct (str_lower env (str_strip env line) =? "quit")%string; [discriminate|].
    destruct (process_query env self (str_strip env line) _) as [[e0|result] fr];
      [|discriminate].
    destruct (isinstance e0 Exception) eqn:He; [discriminate|].
    intros H. now injection H as <- _.
Qed.

Lemma while_true_raises (fuel : nat) :
  forall (tr tr' : Trace) (e : exn),
    while_true env self fuel tr = (Crashed e, tr') ->
    isinstance e Exception = false.
Proof.
  induction fuel as [|fuel IH]; intros tr tr' e H; [discriminate|].
  cbn [while_true] in H.
  destruct (loop_body env self tr) as [[e0|[|]] tr1] eqn:E.
  - injection H as <- _. exact (loop_body_raises _ _ _ E).
  - discriminate.
  - exact (IH _ _ _ H).
Qed.

(** X16. A run of the chat loop ends in two ways only. It is closed right
    after a prompt at which the line read is [quit] once stripped and
    lowercased, by [str.strip] and [str.lower]; or it is left by an exception
    that is no [Exception] (an interrupt): every [Exception], whether
    from the console, the endpoint, [json.loads] or the tool session, is
    caught by the loop. *)
Theorem how_a_run_ends (fuel : nat) :
  forall (tr tr' : Trace) (status : LoopStatus),
    while_true env self fuel tr = (status, tr') ->
    match status with
    | Closed =>
        exists events line,
          tr' = tr ++ events ++ [prompt]
          /\ env_input env (tr ++ events) = inr line
          /\ str_lower env (str_strip env line) = "quit"
    | Crashed e => isinstance e Exception = false
    | Running => True
    end.
Proof.
  induction fuel as [|fuel IH]; intros tr tr' status H.
  - now injection H as <- _.
  - cbn [while_true] in H. rewrite loop_body_run in H.
    assert (Hnext : forall tr1,
              (exists events, tr1 = tr ++ events) ->
              while_true env self fuel tr1 = (status, tr') ->
              match status with
              | Closed =>
                  exists events line,
                    tr' = tr ++ events ++ [prompt]
                    /\ env_input env (tr ++ events) = inr line
                    /\ str_lower env (str_strip env line) = "quit"
              | Crashed e => isinstance e Exception = false
              | Running => True
              end).
    { intros tr1 [events ->] H1. apply IH in H1.
      destruct status; try exact H1.
      destruct H1 as (more & line & -> & Hin & Hq).
      exists (events ++ more), line. rewrite <- !app_assoc in *.
      now repeat split. }
    destruct (env_input env tr) as [e|line] eqn:Hin.
    + destruct (isinstance e Exception) eqn:He.
      * apply Hnext in H; [exact H | eauto].
      * now injection H as <- _.
    + destruct (String.eqb_spec (str_lower env (str_strip env line)) "quit") as [Hq|Hq].
      * injection H as <- <-. exists [], line. rewrite app_nil_r.
        now repeat split.
      * destruct (process_query env self (str_strip env line) _) as [r fr] eqn:E.
        apply process_query_turn, turn_requests in E.
        cbn [trace] in E. destruct E as (events & Ht & _).
        destruct r as [e|result].
        -- destruct (isinstance e Exception) eqn:He.
           ++ apply Hnext in H; [exact H|]. rewrite Ht, <- !app_assoc. eauto.
           ++ now injection H as <- _.
        -- apply Hnext in H; [exact H|]. rewrite Ht, <- !app_assoc. eauto.
Qed.


(** X17. At the end of the input the loop does not end. When the console
    raises the same [Exception] (an [EOFError]) at every prompt from some
    point on, each round prints the prompt and the error and nothing
    else: after any number of rounds the loop is still running, and no
    request and no tool call was made. *)
Theorem end_of_input_is_no_exit (e : exn) (fuel : nat) :
  forall tr : Trace,
    (forall more, env_input env (tr ++ more) = inl e) ->
    isinstance e Exception = true ->
    while_true env self fuel tr
    = (Running, tr ++ List.concat (repeat [prompt; error_line e] fuel)).
Proof.
  induction fuel as [|fuel IH]; intros tr Hin He.
  - cbn. now rewrite app_nil_r.
  - cbn [while_true repeat List.concat]. rewrite loop_body_run.
    pose proof (Hin []) as H0. rewrite app_nil_r in H0. rewrite H0, He.
    rewrite IH; [now rewrite <- app_assoc | | exact He].
    intros more. rewrite <- app_assoc. apply Hin.
Qed.

(** *** Arguments that are no JSON *)

(** X18. When the arguments of a tool call are not accepted by
    [json.loads], the turn ends there with the error of [json.loads]:
    the call is announced and not made, the tool calls after it are
    neither announced nor made, nothing is appended to [messages] and no
    second request is sent. The calls before it have been made. *)
Theorem bad_arguments_end_the_turn (query : string) (fr0 fr1 : Frame)
    (response : ChatCompletionMessage) (done rest : list ToolCall)
    (tool_call : ToolCall) (e : exn) :
  answer env self (trace fr0 ++ [user_line query]) [MsgUser query]
  = inr response ->
  cm_tool_calls response = Some (done ++ tool_call :: rest) ->
  for_each done (fun _ tool_call => dispatch env tool_call) tt
    (after_response self query (trace fr0) response) = (inr tt, fr1) ->
  json_loads env (fn_arguments (tc_function tool_call)) = inl e ->
  process_query env self query fr0
  = (inl e, {| messages := messages fr1;
               trace := trace fr1 ++ [calling_line tool_call] |}).
Proof.
  intros Ha Hc Hdone Hj. apply turn_process_query.
  apply (dispatch_raises env self query (trace fr0) response e _ Ha).
  - rewrite Hc. now destruct done.
  - rewrite Hc. cbn [calls_of]. rewrite for_each_app, Hdone.
    cbn [for_each]. unfold bind. rewrite dispatch_run. cbv zeta.
    now rewrite Hj.
Qed.

(** X20. [process_query] has no [try] around [session.call_tool]: when
    the call itself raises (the connection to the server is lost, the
    request times out), the exception leaves [process_query] at once. The
    call has been announced and made, no tool message is appended for it,
    the tool calls after it are neither announced nor made, and no second
    completion request is sent. *)
Theorem a_raising_call_ends_the_turn (query : string) (fr0 fr1 : Frame)
    (response : ChatCompletionMessage) (done rest : list ToolCall)
    (tool_call : ToolCall) (args : Json) (e : exn) :
  answer env self (trace fr0 ++ [user_line query]) [MsgUser query]
  = inr response ->
  cm_tool_calls response = Some (done ++ tool_call :: rest) ->
  for_each done (fun _ tool_call => dispatch env tool_call) tt
    (after_response self query (trace fr0) response) = (inr tt, fr1) ->
  json_loads env (fn_arguments (tc_function tool_call)) = inr args ->
  env_call_tool env (trace fr1 ++ [calling_line tool_call])
    (fn_name (tc_function tool_call)) args = inl e ->
  process_query env self query fr0
  = (inl e,
     {| messages := messages fr1;
        trace := trace fr1
                   ++ [calling_line tool_call;
                       EvCallTool (fn_name (tc_function tool_call)) args] |}).
Proof.
  intros Ha Hc Hdone Hj Hcall. apply turn_process_query.
  apply (dispatch_raises env self query (trace fr0) response e _ Ha).
  - rewrite Hc. now destruct done.
  - rewrite Hc. cbn [calls_of]. rewrite for_each_app, Hdone.
    cbn [for_each]. unfold bind. rewrite dispatch_run. cbv zeta.
    now rewrite Hj, Hcall.
Qed.

(** *** The settings of the requests *)

Lemma turn_settings (query : string) (tr : Trace) (r : exn + list Message)
    (fr : Frame) :
  turn env self query tr r fr ->
  exists events,
    trace fr = tr ++ events
    /\ Forall (eq (llm_model self, available_tools self))
         (request_settings events).
Proof.
  assert (Hloop : forall response r' fr',
    for_each (calls_of (cm_tool_calls response))
      (fun _ tool_call => dispatch env tool_call) tt
      (after_response self query tr response) = (r', fr') ->
    exists events,
      trace fr' = tr ++ [user_line query; request self [MsgUser query];
                         calls_line response] ++ events
      /\ request_settings events = []).
  { intros response r' fr' Hl. apply dispatch_loop in Hl.
    destruct r' as [e|[]].
    - destruct Hl as (done & tc & rest & tms & events & last_event
                      & _ & -> & _ & Hr).
      exists (events ++ [last_event]). cbn [trace after_response].
      rewrite <- !app_assoc. split; [reflexivity|].
      now apply request_settings_none.
    - destruct Hl as (tms & events & -> & _ & _ & Hr).
      exists events. cbn [trace messages after_response].
      rewrite <- !app_assoc. split; [reflexivity|].
      now apply request_settings_none. }
  intros H.
  inversion H as [ e E1 | response E1 Et | response e fr2 E1 Et El
                 | response e fr2 E1 Et El E2
                 | response final fr2 E1 Et El E2 ]; subst; clear H;
    cbn [trace].
  - eexists. split; [reflexivity|]. repeat constructor.
  - eexists. split; [reflexivity|]. repeat constructor.
  - destruct (Hloop _ _ _ El) as (events & -> & Hr).
    eexists. split; [reflexivity|].
    rewrite request_settings_app, Hr. repeat constructor.
  - destruct (Hloop _ _ _ El) as (events & Ht & Hr). rewrite Ht.
    exists ([user_line query; request self [MsgUser query];
             calls_line response] ++ events ++ [request self (messages fr2)]).
    split; [now rewrite <- !app_assoc|].
    rewrite !request_settings_app, Hr. repeat constructor.
  - destruct (Hloop _ _ _ El) as (events & Ht & Hr). rewrite Ht.
    exists ([user_line query; request self [MsgUser query];
             calls_line response] ++ events
              ++ [request self (messages fr2); answer_line final]).
    split; [now rewrite <- !app_assoc|].
    rewrite !request_settings_app, Hr. repeat constructor.
Qed.

Lemma while_true_settings (fuel : nat) :
  forall tr,
  exists events,
    snd (while_true env self fuel tr) = tr ++ events
    /\ Forall (eq (llm_model self, available_tools self))
         (request_settings events).
Proof.
  induction fuel as [|fuel IH]; intros tr.
  - exists []. split; [now rewrite app_nil_r | constructor].
  - cbn [while_true]. rewrite loop_body_run.
    assert (Hnext : forall events,
              Forall (eq (llm_model self, available_tools self))
                (request_settings events) ->
              exists events',
                snd (while_true env self fuel (tr ++ events)) = tr ++ events'
                /\ Forall (eq (llm_model self, available_tools self))
                     (request_settings events')).
    { intros events Hs. destruct (IH (tr ++ events)) as (more & -> & Hm).
      exists (events ++ more). rewrite app_assoc. split; [reflexivity|].
      rewrite request_settings_app. apply Forall_app. now split. }
    destruct (env_input env tr) as [e|line].
    + destruct (isinstance e Exception).
      * apply Hnext. constructor.
      * exists [prompt]. split; [reflexivity | constructor].
    + destruct (str_lower env (str_strip env line) =? "quit")%string.
      { exists [prompt]. split; [reflexivity | constructor]. }
      destruct (process_query env self (str_strip env line) _) as [r fr] eqn:E.
      apply process_query_turn, turn_settings in E.
      cbn [trace] in E. destruct E as (events & Ht & Hs).
      destruct r as [e|result]; [destruct (isinstance e Exception)|];
        rewrite Ht, <- ?app_assoc.
      * apply Hnext. rewrite !request_settings_app. cbn.
        rewrite app_nil_r. exact Hs.
      * exists ([prompt] ++ events). split; [reflexivity | exact Hs].
      * apply Hnext. rewrite !request_settings_app. cbn.
        rewrite app_nil_r. exact Hs.
Qed.

End Run.

(** *** The start *)

(** X19. [connect_and_run_server] has two outcomes. Either the start of
    the server, the handshake or the listing of the tools raises: the
    exception leaves the function, [Exception] or not, before anything
    is printed or read. Or the tools are listed: their names are printed,
    then the banner, and every completion request of the run carries the
    model of the bot and the listed tools, converted one for one in their
    order; from then on only an exception that is no [Exception] leaves
    the function. *)
Theorem start_then_chat (env : Env) (conn : Connection) (self : PokeBot)
    (fuel : nat) (tr tr' : Trace) (status : LoopStatus) :
  connect_and_run_server env conn self fuel tr = (status, tr') ->
  (exists e,
      status = Crashed e /\ tr' = tr
      /\ (conn_open conn tr = inl e
          \/ conn_initialize conn tr = inl e
          \/ conn_list_tools conn tr = inl e))
  \/ (exists tools events,
        conn_list_tools conn tr = inr tools
        /\ tr' = tr ++ [connected_line tools] ++ banner ++ events
        /\ Forall (eq (llm_model self, to_available_tools tools))
             (request_settings events)
        /\ map ts_name (to_available_tools tools) = map tool_name tools
        /\ match status with
           | Crashed e => isinstance e Exception = false
           | _ => True
           end).
Proof.
  unfold connect_and_run_server, chat_loop. intros H.
  destruct (conn_open conn tr) as [e|[]] eqn:E1.
  { injection H as <- <-. left. exists e. auto. }
  destruct (conn_initialize conn tr) as [e|[]] eqn:E2.
  { injection H as <- <-. left. exists e. auto. }
  destruct (conn_list_tools conn tr) as [e|tools] eqn:E3.
  { injection H as <- <-. left. exists e. auto. }
  right. exists tools.
  set (bot := {| llm_model := llm_model self;
                 available_tools := to_available_tools tools |}) in *.
  destruct (while_true_settings env bot fuel
              ((tr ++ [connected_line tools]) ++ banner))
    as (events & Ht & Hs).
  rewrite H in Ht. cbn [snd] in Ht. exists events.
  split; [reflexivity|]. split; [now rewrite Ht, <- !app_assoc|].
  split; [exact Hs|]. split.
  - unfold to_available_tools. rewrite map_map. reflexivity.
  - destruct status as [|e|]; try exact I.
    exact (while_true_raises env bot fuel _ _ e H).
Qed.

Lemma start_then_chat_sample :
  let env := Samples.C.env_of ["charizard?"; "QUIT "]
               (Samples.C.model [Samples.C.stats_call]) Samples.C.session in
  let run := main env MoreSamples.C.up (Some "llama-3.3-70b-versatile") 5 in
  (exists e,
      fst run = Crashed e /\ snd run = []
      /\ (conn_open MoreSamples.C.up [] = inl e
          \/ conn_initialize MoreSamples.C.up [] = inl e
          \/ conn_list_tools MoreSamples.C.up [] = inl e))
  \/ (exists tools events,
        conn_list_tools MoreSamples.C.up [] = inr tools
        /\ snd run = [] ++ [connected_line tools] ++ banner ++ events
        /\ Forall (eq (llm_model (new_bot (Some "llama-3.3-70b-versatile")),
                       to_available_tools tools))
             (request_settings events)
        /\ map ts_name (to_available_tools tools) = map tool_name tools
        /\ match fst run with
           | Crashed e => isinstance e Exception = false
           | _ => True
           end).
Proof.
  intros env run.
  apply (start_then_chat env MoreSamples.C.up
           (new_bot (Some "llama-3.3-70b-versatile")) 5 [] (snd run)
           (fst run)).
  reflexivity.
Defined.

Lemma how_a_run_ends_sample :
  let env := Samples.C.env_of ["charizard?"; "QUIT "]
               (Samples.C.model [Samples.C.stats_call]) Samples.C.session in
  let run := while_true env Samples.C.bot 5 [] in
  match fst run with
  | Closed =>
      exists events line,
        snd run = [] ++ events ++ [prompt]
        /\ env_input env ([] ++ events) = inr line
        /\ str_lower env (str_strip env line) = "quit"
  | Crashed e => isinstance e Exception = false
  | Running => True
  end.
Proof.
  intros env run.
  apply (how_a_run_ends env Samples.C.bot 5 [] (snd run) (fst run)).
  reflexivity.
Defined.

Lemma end_of_input_is_no_exit_sample :
  let env := MoreSamples.C.at_end_of_input in
  let e := mk_exn EOFError "EOF when reading a line" in
  while_true env Samples.C.bot 3 banner
  = (Running,
     banner ++ List.concat (repeat [prompt; error_line e] 3)).
Proof.
  intros env e.
  apply (end_of_input_is_no_exit env Samples.C.bot e 3 banner).
  - intros more. reflexivity.
  - reflexivity.
Defined.

Lemma bad_arguments_end_the_turn_sample :
  let env := Samples.C.env_of []
               (Samples.C.model [Samples.C.stats_call; Samples.C.broken_call;
                                 Samples.C.abilities_call])
               Samples.C.session in
  let fr0 := Samples.C.start [] in
  let response := {| cm_content := None;
                     cm_tool_calls :=
                       Some [Samples.C.stats_call; Samples.C.broken_call;
                             Samples.C.abilities_call] |} in
  let fr1 := snd (for_each [Samples.C.stats_call]
                    (fun _ tool_call => dispatch env tool_call) tt
                    (after_response Samples.C.bot "charizard?" [] response)) in
  process_query env Samples.C.bot "charizard?" fr0
  = (inl (mk_exn JSONDecodeError
            "Expecting property name enclosed in double quotes"),
     {| messages := messages fr1;
        trace := trace fr1 ++ [calling_line Samples.C.broken_call] |}).
Proof.
  intros env fr0 response fr1.
  apply (bad_arguments_end_the_turn env Samples.C.bot "charizard?" fr0 fr1
           response [Samples.C.stats_call] [Samples.C.abilities_call]
           Samples.C.broken_call).
  - reflexivity.
  - reflexivity.
  - reflexivity.
  - reflexivity.
Defined.

Lemma a_raising_call_ends_the_turn_sample :
  let env := Samples.C.env_of []
               (Samples.C.model [Samples.C.stats_call; Samples.C.abilities_call])
               Samples.C.session_raises in
  let fr0 := Samples.C.start [] in
  let response := {| cm_content := None;
                     cm_tool_calls :=
                       Some [Samples.C.stats_call; Samples.C.abilities_call] |} in
  let fr1 := after_response Samples.C.bot "charizard?" [] response in
  process_query env Samples.C.bot "charizard?" fr0
  = (inl (mk_exn McpError "Connection closed"),
     {| messages := messages fr1;
        trace := trace fr1
                   ++ [calling_line Samples.C.stats_call;
                       EvCallTool "get_pokemon_stats"
                         (JObj [("pokemon_name", JStr "charizard")])] |}).
Proof.
  intros env fr0 response fr1.
  apply (a_raising_call_ends_the_turn env Samples.C.bot "charizard?" fr0 fr1
           response [] [Samples.C.abilities_call] Samples.C.stats_call).
  - reflexivity.
  - reflexivity.
  - reflexivity.
  - reflexivity.
  - reflexivity.
Defined.

End ClientMore.
